(** * Linear operators of [lo/operators.py]

    A shallow embedding of the operator factories of [lo/operators.py] and
    the properties their specification states.

    - The module is Python 2 code ([xrange]) on the numpy of its time: [/]
      on two ints is the integer quotient, also in place on an integer
      array, and a float that is used as an index is truncated.
    - Python exceptions are an error type. numpy arrays are references into
      a store of buffers, so that views ([reshape], [x[:k]]) alias their
      base array and in-place assignments are visible through every alias.
    - Array elements are an abstract scalar type with [zero], [plus] and
      [times]: float64 and complex128 arithmetic is read as exact
      arithmetic.
    - The routines of numpy.fft and scipy.signal are parameters.
    - The dtype arguments only tag the operators and are left out. *)

From Stdlib Require Import ZArith List Bool Lia.
From Stdlib Require String.
Import String.StringSyntax.
Delimit Scope string_scope with string.
Import ListNotations.
Local Open Scope Z_scope.

(** ** Python results *)

Inductive exn : Type :=
| ValueError
| TypeError
| IndexError
| ZeroDivisionError
| UnboundLocalError
| NotImplementedError
| SystemError.

Inductive result (X : Type) : Type :=
| Ok (x : X)
| Raise (e : exn).
Arguments Ok {X} x.
Arguments Raise {X} e.

Definition raises {X : Type} (r : result X) : Prop := exists e, r = Raise e.

Definition rbind {X Y : Type} (r : result X) (k : X -> result Y) : result Y :=
  match r with
  | Ok x => k x
  | Raise e => Raise e
  end.

(** ** Scalars *)

Class Scalar (A : Type) : Type := {
  zero : A;
  plus : A -> A -> A;
  times : A -> A -> A
}.

(** The two laws of exact arithmetic the inner-product argument uses. *)
Class ScalarLaws (A : Type) `{Scalar A} : Prop := {
  plus_zero_l : forall a : A, plus zero a = a;
  times_zero_r : forall a : A, times a zero = zero
}.

#[export] Instance Scalar_Z : Scalar Z := {| zero := 0; plus := Z.add; times := Z.mul |}.

(** ** Shapes and index arithmetic *)

(** np.prod of a shape; the product of the empty shape is 1. *)
Definition np_prod (sh : list Z) : Z := fold_right Z.mul 1 sh.

Definition znth {X : Type} (i : Z) (l : list X) (d : X) : X := nth (Z.to_nat i) l d.

Definition zlength {X : Type} (l : list X) : Z := Z.of_nat (length l).

Fixpoint update {X : Type} (k : nat) (v : X) (l : list X) : list X :=
  match l, k with
  | [], _ => []
  | _ :: t, O => v :: t
  | h :: t, S k' => h :: update k' v t
  end.

(** Python index normalisation: [seq[i]] for a sequence of length [n]. *)
Definition norm_index (n i : Z) : result nat :=
  if (0 <=? i) && (i <? n) then Ok (Z.to_nat i)
  else if (- n <=? i) && (i <? 0) then Ok (Z.to_nat (n + i))
  else Raise IndexError.

(** Length of the slice [seq[:k]] of a sequence of length [n]. *)
Definition slice_stop (n k : Z) : Z :=
  if k <? 0 then Z.max (n + k) 0 else Z.min k n.

(** numpy's resolution of the requested shape of a reshape: one negative
    entry stands for the dimension to infer. *)
Definition fix_unknown_dimension (sh : list Z) (size : Z) : result (list Z) :=
  match filter (fun d => d <? 0) sh with
  | [] => if np_prod sh =? size then Ok sh else Raise ValueError
  | [_] =>
      let known := np_prod (filter (fun d => 0 <=? d) sh) in
      if (known =? 0) || negb (size mod known =? 0) then Raise ValueError
      else Ok (map (fun d => if d <? 0 then size / known else d) sh)
  | _ => Raise ValueError
  end.

(** Product of the dimensions after axis [k]: the stride of axis [k] in a
    C-contiguous array. *)
Definition inner (sh : list Z) (k : nat) : Z := np_prod (skipn (S k) sh).

(** Coordinate along axis [k] of the flat position [p]. *)
Definition axis_coord (sh : list Z) (k : nat) (p : Z) : Z :=
  (p / inner sh k) mod (nth k sh 0).

(** Flat position, in an array whose axis [k] has length [n'] and whose
    other axes are those of [sh], of the element with the coordinates of
    [p] except coordinate [i] along axis [k]. *)
Definition along (sh : list Z) (k : nat) (n' : Z) (p i : Z) : Z :=
  ((p / (inner sh k * nth k sh 0)) * n' + i) * inner sh k + p mod inner sh k.

Definition mapi {X Y : Type} (f : Z -> X -> Y) (l : list X) : list Y :=
  map (fun ix => f (Z.of_nat (fst ix)) (snd ix)) (combine (seq 0 (length l)) l).

(** ** Boolean arrays

    No function of the module writes to a mask, so boolean arrays are
    plain values: a shape and the flags in row-major order. *)

Record boolarray : Type := { bshape : list Z; bdata : list bool }.

Definition wf_boolarray (m : boolarray) : Prop :=
  Forall (fun d => 0 <= d) (bshape m) /\ zlength (bdata m) = np_prod (bshape m).

(** [m == True] and [m == False], elementwise. *)
Definition eq_True (m : boolarray) : boolarray :=
  {| bshape := bshape m; bdata := map (fun b => Bool.eqb b true) (bdata m) |}.
Definition eq_False (m : boolarray) : boolarray :=
  {| bshape := bshape m; bdata := map (fun b => Bool.eqb b false) (bdata m) |}.

Definition count_true (bs : list bool) : Z := zlength (filter (fun b => b) bs).

(** np.sum of a boolean array. *)
Definition np_sum (m : boolarray) : Z := count_true (bdata m).

Fixpoint select {X : Type} (bs : list bool) (xs : list X) : list X :=
  match bs, xs with
  | b :: bs', x :: xs' => if b then x :: select bs' xs' else select bs' xs'
  | _, _ => []
  end.

(** Row-major assignment of the values [vs] to the flagged cells of [ys]. *)
Fixpoint scatter {X : Type} (bs : list bool) (ys vs : list X) : list X :=
  match bs, ys with
  | b :: bs', y :: ys' =>
      if b then
        match vs with
        | v :: vs' => v :: scatter bs' ys' vs'
        | [] => y :: scatter bs' ys' []
        end
      else y :: scatter bs' ys' vs
  | _, _ => ys
  end.

Fixpoint fill {X : Type} (bs : list bool) (ys : list X) (v : X) : list X :=
  match bs, ys with
  | b :: bs', y :: ys' => (if b then v else y) :: fill bs' ys' v
  | _, _ => ys
  end.

Definition shape_eqb (s1 s2 : list Z) : bool :=
  if list_eq_dec Z.eq_dec s1 s2 then true else false.

(** The broadcast of two shapes, on the reversed shapes. *)
Fixpoint broadcast_rev (r1 r2 : list Z) : result (list Z) :=
  match r1, r2 with
  | [], r => Ok r
  | r, [] => Ok r
  | a :: r1', b :: r2' =>
      rbind (broadcast_rev r1' r2') (fun r =>
        if a =? b then Ok (a :: r)
        else if a =? 1 then Ok (b :: r)
        else if b =? 1 then Ok (a :: r)
        else Raise ValueError)
  end.

Definition broadcast_shapes (s1 s2 : list Z) : result (list Z) :=
  rbind (broadcast_rev (rev s1) (rev s2)) (fun r => Ok (rev r)).

(** Flat position, in an operand of reversed shape [rop], of the element
    that is broadcast to flat position [p] of the result of reversed shape
    [rsh]. *)
Fixpoint broadcast_index (rsh rop : list Z) (p : Z) : Z :=
  match rsh, rop with
  | d :: rsh', n :: rop' =>
      (if n =? 1 then 0 else p mod d) + n * broadcast_index rsh' rop' (p / d)
  | _, _ => 0
  end.

Definition zseq (n : Z) : list Z := map Z.of_nat (seq 0 (Z.to_nat n)).

(** Python 2 division of two ints. *)
Definition py_div (i factor : Z) : result Z :=
  if factor =? 0 then Raise ZeroDivisionError else Ok (i / factor).

(** shape[axis] /= factor on an integer numpy array (Python 2: the integer
    quotient, and 0 when dividing by 0). *)
Definition shape_idiv (sh : list Z) (axis factor : Z) : result (list Z) :=
  rbind (norm_index (zlength sh) axis) (fun k =>
    Ok (update k (nth k sh 0 / factor) sh)).

(** shape[axis] *= factor *)
Definition shape_imul (sh : list Z) (axis factor : Z) : result (list Z) :=
  rbind (norm_index (zlength sh) axis) (fun k =>
    Ok (update k (nth k sh 0 * factor) sh)).

(** ** The store and its monad

    A computation runs in a store and returns a value and the new store, or
    raises. *)

Definition M (S X : Type) : Type := S -> result (X * S).

Definition ret {S X : Type} (x : X) : M S X := fun st => Ok (x, st).

Definition bind {S X Y : Type} (c : M S X) (k : X -> M S Y) : M S Y :=
  fun st =>
    match c st with
    | Ok (x, st') => k x st'
    | Raise e => Raise e
    end.

Definition raise {S X : Type} (e : exn) : M S X := fun _ => Raise e.

Definition lift {S X : Type} (r : result X) : M S X :=
  fun st =>
    match r with
    | Ok x => Ok (x, st)
    | Raise e => Raise e
    end.

Declare Scope py_scope.
Delimit Scope py_scope with py.
Notation "x <- c ;; k" := (bind c (fun x => k))
  (at level 61, c at next level, right associativity) : py_scope.
Notation "c ;;; k" := (bind c (fun _ => k))
  (at level 61, right associativity) : py_scope.
Local Open Scope py_scope.

(** [for i in xrange(n): body(i)] *)
Definition for_xrange {S : Type} (n : Z) (body : Z -> M S unit) : M S unit :=
  fold_right (fun i rest => body (Z.of_nat i) ;;; rest) (ret tt) (seq 0 (Z.to_nat n)).

(** An array object: the buffer it views and its shape. An array views the
    leading [np_prod shape] cells of its buffer, in row-major order. *)
Record ndarray : Type := { base : nat; arr_shape : list Z }.

Definition size (a : ndarray) : Z := np_prod (arr_shape a).
Definition ndim (a : ndarray) : Z := zlength (arr_shape a).

Section Numpy.
Context {A : Type} `{Scalar A}.

Definition store : Type := list (list A).

(** The elements of array [a] in store [st]. *)
Definition value (st : store) (a : ndarray) : option (list A) :=
  match nth_error st (base a) with
  | Some buf =>
      if zlength buf <? size a then None
      else Some (firstn (Z.to_nat (size a)) buf)
  | None => None
  end.

(** Reading an array. [SystemError] stands for a reference without a
    buffer, which no Python program can build. *)
Definition load (a : ndarray) : M store (list A) :=
  fun st =>
    match value st a with
    | Some xs => Ok (xs, st)
    | None => Raise SystemError
    end.

(** Overwrite the elements of [a] in place; the cells of the buffer that
    [a] does not view are kept. *)
Definition write (a : ndarray) (xs : list A) : M store unit :=
  fun st =>
    match nth_error st (base a) with
    | Some buf => Ok (tt, update (base a) (xs ++ skipn (length xs) buf) st)
    | None => Raise SystemError
    end.

(** A new array on a new buffer. *)
Definition new_array (sh : list Z) (xs : list A) : M store ndarray :=
  fun st => Ok ({| base := length st; arr_shape := sh |}, st ++ [xs]).

(** np.zeros(sh) *)
Definition np_zeros (sh : list Z) : M store ndarray :=
  if existsb (fun d => d <? 0) sh then raise ValueError
  else new_array sh (repeat zero (Z.to_nat (np_prod sh))).

(** x.reshape(sh): a view of the same buffer. *)
Definition reshape (x : ndarray) (sh : list Z) : M store ndarray :=
  sh' <- lift (fix_unknown_dimension sh (size x)) ;;
  ret {| base := base x; arr_shape := sh' |}.

(** copy(x): x.__copy__(), the same elements on a new buffer. *)
Definition copy (x : ndarray) : M store ndarray :=
  xs <- load x ;;
  new_array (arr_shape x) xs.

(** x[:k]: a view of the leading entries along the first axis. *)
Definition getitem_slice_stop (x : ndarray) (k : Z) : M store ndarray :=
  match arr_shape x with
  | [] => raise IndexError
  | n :: rest => ret {| base := base x; arr_shape := slice_stop n k :: rest |}
  end.

(** x[b] for a boolean array b: the flagged elements, on a new buffer. *)
Definition getitem_bool (x : ndarray) (b : boolarray) : M store ndarray :=
  if shape_eqb (arr_shape x) (bshape b) then
    xs <- load x ;;
    new_array [count_true (bdata b)] (select (bdata b) xs)
  else raise IndexError.

(** y[b] = v for a boolean array b and a scalar v, in place. *)
Definition setitem_bool_scalar (y : ndarray) (b : boolarray) (v : A) : M store unit :=
  if shape_eqb (arr_shape y) (bshape b) then
    ys <- load y ;;
    write y (fill (bdata b) ys v)
  else raise IndexError.

(** y[b] = x for a boolean array b and an array x, in place: x has as many
    elements as b has flags, or a single one that is broadcast. *)
Definition setitem_bool_array (y : ndarray) (b : boolarray) (x : ndarray) : M store unit :=
  if shape_eqb (arr_shape y) (bshape b) then
    ys <- load y ;;
    vs <- load x ;;
    if zlength vs =? count_true (bdata b) then write y (scatter (bdata b) ys vs)
    else
      match vs with
      | [v] => write y (fill (bdata b) ys v)
      | _ => raise ValueError
      end
  else raise IndexError.

(** Elementwise product with numpy broadcasting: shapes are aligned on
    their last axes, and an axis of length 1 is repeated. *)
Definition np_multiply (a b : ndarray) : M store ndarray :=
  sh <- lift (broadcast_shapes (arr_shape a) (arr_shape b)) ;;
  xs <- load a ;;
  ys <- load b ;;
  new_array sh
    (map (fun p =>
            times (znth (broadcast_index (rev sh) (rev (arr_shape a)) p) xs zero)
                (znth (broadcast_index (rev sh) (rev (arr_shape b)) p) ys zero))
         (zseq (np_prod sh))).

(** A Python argument that is a number or an array. *)
Inductive pyobj : Type :=
| PyScalar (a : A)
| PyArray (d : ndarray).

Definition np_isscalar (o : pyobj) : bool :=
  match o with
  | PyScalar _ => true
  | PyArray _ => false
  end.

(** num * x *)
Definition py_mul (num : pyobj) (x : ndarray) : M store ndarray :=
  match num with
  | PyScalar a => xs <- load x ;; new_array (arr_shape x) (map (times a) xs)
  | PyArray d => np_multiply d x
  end.

(** A shape with its elements in row-major order: what a routine of an
    external library receives and returns. *)
Definition arrval : Type := list Z * list A.

Definition block (xs : list A) (start len : Z) : list A :=
  firstn (Z.to_nat len) (skipn (Z.to_nat start) xs).

(** Concatenation along axis [k] of arrays that agree on the other axes. *)
Definition concat_values (k : nat) (vals : list arrval) : result arrval :=
  match vals with
  | [] => Raise ValueError
  | (sh0, _) :: _ =>
      if (Nat.ltb k (length sh0))
         && forallb (fun v => shape_eqb (update k 0 (fst v)) (update k 0 sh0)) vals
      then
        Ok (update k (fold_right Z.add 0 (map (fun v => nth k (fst v) 0) vals)) sh0,
            flat_map (fun o =>
                        flat_map (fun v =>
                                    let len := nth k (fst v) 0 * inner sh0 k in
                                    block (snd v) (o * len) len) vals)
                     (zseq (np_prod (firstn k sh0))))
      else Raise ValueError
  end.

(** The first argument of np.concatenate is a sequence of arrays. When an
    array is passed in its place, numpy iterates it along its first axis. *)
Inductive array_seq : Type :=
| Arrays (l : list ndarray)
| ItemsOf (x : ndarray).

(** The second argument of np.concatenate is the axis, an integer. *)
Inductive axis_arg : Type :=
| AxisInt (k : Z)
| AxisArray (a : ndarray).

Fixpoint load_all (l : list ndarray) : M store (list arrval) :=
  match l with
  | [] => ret []
  | a :: l' =>
      xs <- load a ;;
      vs <- load_all l' ;;
      ret ((arr_shape a, xs) :: vs)
  end.

(** np.concatenate(seq, axis) *)
Definition np_concatenate (seq : array_seq) (axis : axis_arg) : M store ndarray :=
  match axis with
  | AxisArray _ => raise TypeError
  | AxisInt ax =>
      vals <- match seq with
              | Arrays l => load_all l
              | ItemsOf x =>
                  match arr_shape x with
                  | [] => raise TypeError
                  | n :: rest =>
                      xs <- load x ;;
                      ret (map (fun i => (rest, block xs (i * np_prod rest) (np_prod rest)))
                               (zseq n))
                  end
              end ;;
      match vals with
      | [] => raise ValueError
      | (sh0, _) :: _ =>
          if existsb (fun v => Nat.eqb (length (fst v)) 0) vals then raise ValueError
          else
            k <- lift (norm_index (zlength sh0) ax) ;;
            v <- lift (concat_values k vals) ;;
            new_array (fst v) (snd v)
      end
  end.

(** outarr[s1] += arr[s0], where s0 and s1 are full slices but for the
    index [i] (in s0) and [j] (in s1) along axis [k]. *)
Definition iadd_along (outarr : ndarray) (k : nat) (j : Z) (arr : ndarray) (i : Z)
  : M store unit :=
  jn <- lift (norm_index (nth k (arr_shape outarr) 0) j) ;;
  os <- load outarr ;;
  im <- lift (norm_index (nth k (arr_shape arr) 0) i) ;;
  xs <- load arr ;;
  write outarr
    (mapi (fun p o =>
             if axis_coord (arr_shape outarr) k p =? Z.of_nat jn
             then plus o (znth (along (arr_shape outarr) k (nth k (arr_shape arr) 0)
                                     p (Z.of_nat im)) xs zero)
             else o) os).

(** outarr[s0] = arr[s1], with the index [i] in s0 and [j] in s1. *)
Definition assign_along (outarr : ndarray) (k : nat) (i : Z) (arr : ndarray) (j : Z)
  : M store unit :=
  jn <- lift (norm_index (nth k (arr_shape arr) 0) j) ;;
  xs <- load arr ;;
  im <- lift (norm_index (nth k (arr_shape outarr) 0) i) ;;
  os <- load outarr ;;
  write outarr
    (mapi (fun p o =>
             if axis_coord (arr_shape outarr) k p =? Z.of_nat im
             then znth (along (arr_shape outarr) k (nth k (arr_shape arr) 0)
                              p (Z.of_nat jn)) xs zero
             else o) os).

End Numpy.

Arguments store A : clear implicits.
Arguments arrval A : clear implicits.
Arguments pyobj A : clear implicits.

(** ** Linear operators *)

Section Operators.
Context {A : Type} `{Scalar A}.

(** Modelled from the spec: the class LinearOperator of module [interface],
    which is not among the sources. An operator has a [shape] = (rows, cols)
    and callable forward and adjoint slots; the adjoint slot may be empty.
    The dtype tags are not modelled. *)
Record LinearOperator : Type := {
  shape : Z * Z;
  matvec : ndarray -> M (store A) ndarray;
  rmatvec : option (ndarray -> M (store A) ndarray)
}.

(** Modelled from the spec: the methods of LinearOperator. [apply] calls
    the forward slot and [apply_adjoint] the adjoint slot; an operator
    without adjoint fails there. *)
Definition apply (op : LinearOperator) (x : ndarray) : M (store A) ndarray :=
  matvec op x.

Definition apply_adjoint (op : LinearOperator) (y : ndarray) : M (store A) ndarray :=
  match rmatvec op with
  | Some g => g y
  | None => raise NotImplementedError
  end.

(** The routines of numpy.fft and scipy.signal that the module calls:
    [np.fft.fftn(x, s, axes)], [np.fft.ifftn(x, s, axes)] and
    [scipy.signal.convolve(x, kernel, mode)]. *)
Class External : Type := {
  np_fft_fftn : arrval A -> option (list Z) -> option (list Z) -> result (arrval A);
  np_fft_ifftn : arrval A -> option (list Z) -> option (list Z) -> result (arrval A);
  signal_convolve : arrval A -> arrval A -> String.string -> result (arrval A)
}.
Context {E : External}.

(** A call of an external routine: it reads its arguments and returns a
    new array. *)
Definition call1 (f : arrval A -> result (arrval A)) (x : ndarray) : M (store A) ndarray :=
  xs <- load x ;;
  v <- lift (f (arr_shape x, xs)) ;;
  new_array (fst v) (snd v).

Definition call2 (f : arrval A -> arrval A -> result (arrval A)) (x k : ndarray)
  : M (store A) ndarray :=
  xs <- load x ;;
  ks <- load k ;;
  v <- lift (f (arr_shape x, xs) (arr_shape k, ks)) ;;
  new_array (fst v) (snd v).

Definition ndoperator (shapein shapeout : list Z)
    (matvec : ndarray -> M (store A) ndarray)
    (rmatvec : option (ndarray -> M (store A) ndarray)) : LinearOperator :=
  let sizein := np_prod shapein in
  let sizeout := np_prod shapeout in
  let shape := (sizeout, sizein) in
  let ndmatvec := fun x =>
    xi <- reshape x shapein ;;
    r <- matvec xi ;;
    reshape r [sizeout] in
  let ndrmatvec :=
    match rmatvec with
    | Some rmatvec => Some (fun x =>
        xo <- reshape x shapeout ;;
        r <- rmatvec xo ;;
        reshape r [sizein])
    | None => None
    end in
  {| shape := shape; matvec := ndmatvec; rmatvec := ndrmatvec |}.

Definition diag (d : ndarray) (shape : option (Z * Z)) : result LinearOperator :=
  let shape := match shape with
               | None => (size d, size d)
               | Some shape => shape
               end in
  if negb (fst shape =? snd shape) then Raise ValueError
  else
    let matvec := fun x => np_multiply d x in
    Ok {| shape := shape; matvec := matvec; rmatvec := Some matvec |}.

Definition identity (shape : Z * Z) : result LinearOperator :=
  if negb (fst shape =? snd shape) then Raise ValueError
  else
    let matvec := fun x => ret x in
    Ok {| shape := shape; matvec := matvec; rmatvec := Some matvec |}.

Definition eye (shape : Z * Z) : result LinearOperator :=
  if fst shape =? snd shape then identity shape
  else
    let matvec := fun x => getitem_slice_stop x (fst shape) in
    let rmatvec := fun x =>
      z <- np_zeros [fst shape - snd shape] ;;
      np_concatenate (ItemsOf x) (AxisArray z) in
    Ok {| shape := shape; matvec := matvec; rmatvec := Some rmatvec |}.

Definition fftn (shapein : list Z) (s : option (list Z)) (axes : option (list Z))
  : LinearOperator :=
  let shapeout := match s with
                  | None => shapein
                  | Some s => s
                  end in
  let matvec := fun x => call1 (fun v => np_fft_fftn v s axes) x in
  let rmatvec := fun x => call1 (fun v => np_fft_ifftn v s axes) x in
  ndoperator shapein shapeout matvec (Some rmatvec).

Definition fft2 (shapein : list Z) (s : option (list Z)) (axes : option (list Z))
  : result LinearOperator :=
  if negb (Nat.eqb (length shapein) 2) then Raise ValueError
  else
    let shapeout := match s with
                    | None => shapein
                    | Some s => s
                    end in
    let matvec := fun x => call1 (fun v => np_fft_fftn v s axes) x in
    let rmatvec := fun x => call1 (fun v => np_fft_ifftn v s axes) x in
    Ok (ndoperator shapein shapeout matvec (Some rmatvec)).

(** The successive [if mode == ...] of [convolve] leave [shapeout] unbound
    for any other mode, and so do those of its [rmatvec] for [rmode]. *)
Definition convolve (shapein : list Z) (kernel : ndarray) (mode : String.string)
  : result LinearOperator :=
  let shapeout := None in
  let shapeout :=
    if String.eqb mode "full"%string
    then Some (map (fun p => fst p + snd p - 1) (combine shapein (arr_shape kernel)))
    else shapeout in
  let shapeout :=
    if String.eqb mode "valid"%string
    then Some (map (fun p => fst p - snd p - 1) (combine shapein (arr_shape kernel)))
    else shapeout in
  let shapeout :=
    if String.eqb mode "same"%string then Some shapein else shapeout in
  let matvec := fun x => call2 (fun v k => signal_convolve v k mode) x kernel in
  let rmatvec := fun x =>
    rmode <- (if String.eqb mode "full"%string then ret "valid"%string
              else if String.eqb mode "valid"%string then ret "full"%string
              else if String.eqb mode "same"%string then ret "same"%string
              else raise UnboundLocalError) ;;
    call2 (fun v k => signal_convolve v k rmode) x kernel in
  match shapeout with
  | Some shapeout => Ok (ndoperator shapein shapeout matvec (Some rmatvec))
  | None => Raise UnboundLocalError
  end.

Definition mask (mask : boolarray) : LinearOperator :=
  let shapein := bshape mask in
  let shapeout := bshape mask in
  let matvec := fun x =>
    y <- copy x ;;
    setitem_bool_scalar y (eq_True mask) zero ;;;
    ret y in
  ndoperator shapein shapeout matvec (Some matvec).

(** [shapeout] is the number np.sum(mask == False): np.prod leaves it as it
    is, and reshape reads it as a one-axis shape. *)
Definition decimate (mask : boolarray) : LinearOperator :=
  let shapein := bshape mask in
  let shapeout := [np_sum (eq_False mask)] in
  let matvec := fun x => getitem_bool x (eq_False mask) in
  let rmatvec := fun x =>
    y <- np_zeros shapein ;;
    setitem_bool_array y (eq_False mask) x ;;;
    ret y in
  ndoperator shapein shapeout matvec (Some rmatvec).

Definition bin (arr : ndarray) (factor axis : Z) : M (store A) ndarray :=
  shapeout <- lift (shape_idiv (arr_shape arr) axis factor) ;;
  outarr <- np_zeros shapeout ;;
  k <- lift (norm_index (ndim arr) axis) ;;
  for_xrange (nth k (arr_shape arr) 0) (fun i =>
    j <- lift (py_div i factor) ;;
    iadd_along outarr k j arr i) ;;;
  ret outarr.

Definition replicate (arr : ndarray) (factor axis : Z) : M (store A) ndarray :=
  shapeout <- lift (shape_imul (arr_shape arr) axis factor) ;;
  outarr <- np_zeros shapeout ;;
  k <- lift (norm_index (ndim arr) axis) ;;
  for_xrange (nth k shapeout 0) (fun i =>
    j <- lift (py_div i factor) ;;
    assign_along outarr k i arr j) ;;;
  ret outarr.

Definition binning (shapein : list Z) (factor axis : Z) : result LinearOperator :=
  rbind (shape_idiv shapein axis factor) (fun shapeout =>
    let matvec := fun x => bin x factor axis in
    let rmatvec := fun x => replicate x factor axis in
    Ok (ndoperator shapein shapeout matvec (Some rmatvec))).

Definition mul (shapein : list Z) (num : pyobj A) : result LinearOperator :=
  if negb (np_isscalar num) then Raise ValueError
  else
    let matvec := fun x => y <- py_mul num x ;; ret y in
    Ok (ndoperator shapein shapein matvec (Some matvec)).

End Operators.

Arguments LinearOperator A : clear implicits.
Arguments External A : clear implicits.

(** ** Calls on concrete vectors *)

(** The result of calling [f] on a one-axis array holding [xs], in a store
    that holds nothing else. *)
Definition call_on_vector {A : Type} (f : ndarray -> M (store A) ndarray) (xs : list A)
  : result (list A) :=
  match f {| base := 0; arr_shape := [zlength xs] |} [xs] with
  | Ok (y, st) =>
      match value st y with
      | Some ys => Ok ys
      | None => Raise SystemError
      end
  | Raise e => Raise e
  end.

(** The result of [op.apply(xs)] for an operator returned by a factory. *)
Definition apply_vector {A : Type} (op : result (LinearOperator A)) (xs : list A)
  : result (list A) :=
  rbind op (fun op => call_on_vector (apply op) xs).

Definition apply_adjoint_vector {A : Type} (op : result (LinearOperator A)) (xs : list A)
  : result (list A) :=
  rbind op (fun op => call_on_vector (apply_adjoint op) xs).

(** The inner product of two vectors. *)
Fixpoint dot {A : Type} `{Scalar A} (xs ys : list A) : A :=
  match xs, ys with
  | x :: xs', y :: ys' => plus (times x y) (dot xs' ys')
  | _, _ => zero
  end.

(** ** Concrete inputs *)

(** numpy.fft on vectors of two integers: the discrete Fourier transform of
    [a, b] is [a + b, a - b], and its inverse halves the sums. The instance
    covers this case only. *)
Definition dft2 (v : arrval Z) : result (arrval Z) :=
  match v with
  | (sh, [a; b]) =>
      if shape_eqb sh [2] then Ok (sh, [a + b; a - b]) else Raise NotImplementedError
  | _ => Raise NotImplementedError
  end.

Definition idft2 (v : arrval Z) : result (arrval Z) :=
  match v with
  | (sh, [a; b]) =>
      if shape_eqb sh [2] then Ok (sh, [(a + b) / 2; (a - b) / 2])
      else Raise NotImplementedError
  | _ => Raise NotImplementedError
  end.

Definition External_dft2 : External Z := {|
  np_fft_fftn := fun v s axes =>
    match s, axes with
    | None, None => dft2 v
    | _, _ => Raise NotImplementedError
    end;
  np_fft_ifftn := fun v s axes =>
    match s, axes with
    | None, None => idft2 v
    | _, _ => Raise NotImplementedError
    end;
  signal_convolve := fun _ _ _ => Raise NotImplementedError
|}.

(** The mask [[True, False], [False, True]]. *)
Definition mask_diagonal : boolarray :=
  {| bshape := [2; 2]; bdata := [true; false; false; true] |}.

(** A store with the vectors [1, 2, 3, 4] and [7, 8]. *)
Definition store_two_vectors : store Z := [[1; 2; 3; 4]; [7; 8]].
Definition vector_1234 : ndarray := {| base := 0; arr_shape := [4] |}.
Definition vector_78 : ndarray := {| base := 1; arr_shape := [2] |}.


(** A store with the vector [1, 2, 3] and the one-element diagonal [2]. *)
Definition store_diag_one : store Z := [[1; 2; 3]; [2]].
Definition vector_123 : ndarray := {| base := 0; arr_shape := [3] |}.

(** A kernel of three elements. *)
Definition kernel_3 : ndarray := {| base := 0; arr_shape := [3] |}.

(** ** Reference results *)

(** The elementwise products of two vectors. *)
Definition products {A : Type} `{Scalar A} (ds xs : list A) : list A :=
  map (fun p => times (fst p) (snd p)) (combine ds xs).

(** The sums of [q] successive blocks of [f] elements, each block added
    from left to right, starting from 0. *)
Fixpoint block_sums {A : Type} `{Scalar A} (f : nat) (xs : list A) (q : nat) : list A :=
  match q with
  | O => []
  | S q' => fold_left plus (firstn f xs) zero :: block_sums f (skipn f xs) q'
  end.

(** Every element repeated [f] times. *)
Definition repeat_each {X : Type} (f : nat) (ys : list X) : list X :=
  flat_map (fun y => repeat y f) ys.

(** ** diff *)

(** Subtraction and negation of scalars, for [np.diff] and the unary
    minus. *)
Class ScalarGroup (A : Type) : Type := {
  sub : A -> A -> A;
  neg : A -> A
}.

#[export] Instance ScalarGroup_Z : ScalarGroup Z := {| sub := Z.sub; neg := Z.opp |}.

(** shape[axis] -= 1 on an integer numpy array. *)
Definition shape_isub (sh : list Z) (axis step : Z) : result (list Z) :=
  rbind (norm_index (zlength sh) axis) (fun k =>
    Ok (update k (nth k sh 0 - step) sh)).

(** shape[axis] = v on a Python list. *)
Definition list_setitem (sh : list Z) (axis v : Z) : result (list Z) :=
  rbind (norm_index (zlength sh) axis) (fun k => Ok (update k v sh)).

Section Diff.
Context {A : Type} `{Scalar A} `{ScalarGroup A}.

(** np.diff(x, axis=axis): the differences [x[i+1] - x[i]] along the axis,
    that is [x[1:] - x[:-1]] there, on a new array. The axis indexes a
    list of [x.ndim] slices, so that an axis outside raises IndexError. *)
Definition np_diff (x : ndarray) (axis : Z) : M (store A) ndarray :=
  k <- lift (norm_index (ndim x) axis) ;;
  xs <- load x ;;
  let n := nth k (arr_shape x) 0 in
  let sh := update k (Z.max (n - 1) 0) (arr_shape x) in
  new_array sh
    (map (fun p =>
            sub (znth (along sh k n p (axis_coord sh k p + 1)) xs zero)
                (znth (along sh k n p (axis_coord sh k p)) xs zero))
         (zseq (np_prod sh))).

(** - x, on a new array. *)
Definition np_negative (x : ndarray) : M (store A) ndarray :=
  xs <- load x ;;
  new_array (arr_shape x) (map neg xs).

Definition diff (shapein : list Z) (axis : Z) : result (LinearOperator A) :=
  rbind (shape_isub shapein axis 1) (fun shapeout =>
    let matvec := fun x => np_diff x axis in
    let rmatvec := fun x =>
      shape <- lift (list_setitem (arr_shape x) axis 1) ;;
      border <- np_zeros shape ;;
      out <- np_concatenate (Arrays [border; x; border]) (AxisInt axis) ;;
      d <- np_diff out axis ;;
      np_negative d in
    Ok (ndoperator shapein shapeout matvec (Some rmatvec))).

(** The successive differences of a vector. *)
Fixpoint differences (xs : list A) : list A :=
  match xs with
  | x0 :: (x1 :: _) as t => sub x1 x0 :: differences t
  | _ => []
  end.

End Diff.

(** A store with the vectors [1, 4, 9, 16] and [3, 5, 7]. *)
Definition store_squares : store Z := [[1; 4; 9; 16]; [3; 5; 7]].
Definition vector_squares : ndarray := {| base := 0; arr_shape := [4] |}.
Definition vector_357 : ndarray := {| base := 1; arr_shape := [3] |}.

(** scipy.signal.convolve on two vectors in mode 'valid', the first at
    least as long as the second: entry [i] of the [s - ks + 1] outputs is
    the sum of the products [x[i + j] * k[ks - 1 - j]]. The instance covers
    this case only. *)
Definition valid_convolution (v k : arrval Z) : result (arrval Z) :=
  match fst v, fst k with
  | [s], [ks] =>
      if (1 <=? ks) && (ks <=? s) then
        Ok ([s - ks + 1],
            map (fun i =>
                   fold_right Z.add 0
                     (map (fun j => znth (i + j) (snd v) 0 * znth (ks - 1 - j) (snd k) 0)
                          (zseq ks)))
                (zseq (s - ks + 1)))
      else Raise NotImplementedError
  | _, _ => Raise NotImplementedError
  end.

Definition External_valid : External Z := {|
  np_fft_fftn := fun _ _ _ => Raise NotImplementedError;
  np_fft_ifftn := fun _ _ _ => Raise NotImplementedError;
  signal_convolve := fun v k mode =>
    if String.eqb mode "valid"%string then valid_convolution v k
    else Raise NotImplementedError
|}.

(** numpy.fft on arrays of shape (1, 2) over the two axes: the transform of
    [[a, b]] is [[a + b, a - b]]. The instance covers this case only. *)
Definition dft12 (v : arrval Z) : result (arrval Z) :=
  match v with
  | (sh, [a; b]) =>
      if shape_eqb sh [1; 2] then Ok (sh, [a + b; a - b])
      else Raise NotImplementedError
  | _ => Raise NotImplementedError
  end.

Definition idft12 (v : arrval Z) : result (arrval Z) :=
  match v with
  | (sh, [a; b]) =>
      if shape_eqb sh [1; 2] then Ok (sh, [(a + b) / 2; (a - b) / 2])
      else Raise NotImplementedError
  | _ => Raise NotImplementedError
  end.

Definition External_dft12 : External Z := {|
  np_fft_fftn := fun v s axes =>
    match s with
    | None => dft12 v
    | Some _ => Raise NotImplementedError
    end;
  np_fft_ifftn := fun v s axes =>
    match s with
    | None => idft12 v
    | Some _ => Raise NotImplementedError
    end;
  signal_convolve := fun _ _ _ => Raise NotImplementedError
|}.

(** ** eigen_operator *)

(** The indices of flat position [p], last axis first, in an array whose
    shape read from the last axis to the first is [rsh]. *)
Fixpoint unravel_rev (rsh : list Z) (p : Z) : list Z :=
  match rsh with
  | [] => []
  | d :: rsh' => p mod d :: unravel_rev rsh' (p / d)
  end.

(** The flat position of the indices [idx] in an array of shape [sh]. *)
Definition ravel (sh idx : list Z) : Z :=
  fold_left (fun acc di => acc * fst di + snd di) (combine sh idx) 0.

(** Flat position in an array of shape [sh] of the element that its
    transpose, of shape [rev sh], has at flat position [q]. *)
Definition transpose_index (sh : list Z) (q : Z) : Z :=
  ravel sh (unravel_rev sh q).

Section Eigen.
Context {A : Type} `{Scalar A}.

(** np.dot(x.T, vi) for an array [x] and a vector [vi]: the sums, over the
    first axis of [x], of the products with the entries of [vi]; for a
    zero-dimensional [x], the multiples of [vi]. The length of the first
    axis must be the length of [vi]. *)
Definition dot_T (x : arrval A) (vi : list A) : result (arrval A) :=
  match fst x with
  | [] => Ok ([zlength vi], map (fun b => times (znth 0 (snd x) zero) b) vi)
  | n0 :: rest =>
      if n0 =? zlength vi then
        Ok (rev rest,
            map (fun q =>
                   fold_right
                     (fun k acc =>
                        plus (times (znth (k * np_prod rest + transpose_index rest q)
                                          (snd x) zero)
                                    (znth k vi zero)) acc)
                     zero (zseq n0))
                (zseq (np_prod rest)))
      else Raise ValueError
  end.

(** a * b on values, with numpy broadcasting. *)
Definition multiply_values (a b : arrval A) : result (arrval A) :=
  rbind (broadcast_shapes (fst a) (fst b)) (fun sh =>
    Ok (sh,
        map (fun p =>
               times (znth (broadcast_index (rev sh) (rev (fst a)) p) (snd a) zero)
                     (znth (broadcast_index (rev sh) (rev (fst b)) p) (snd b) zero))
            (zseq (np_prod sh)))).

(** ki * ei * vi for an array [ki], a number [ei] and a vector [vi]. *)
Definition eigen_term (ki : arrval A) (ei : A) (vi : list A) : result (arrval A) :=
  multiply_values (fst ki, map (fun a => times a ei) (snd ki)) ([zlength vi], vi).

Fixpoint collect {X Y : Type} (f : X -> result Y) (l : list X) : result (list Y) :=
  match l with
  | [] => Ok []
  | x :: l' => rbind (f x) (fun y => rbind (collect f l') (fun ys => Ok (y :: ys)))
  end.

(** The sum of two arrays of the same shape. *)
Definition add_values (a b : arrval A) : result (arrval A) :=
  if shape_eqb (fst a) (fst b)
  then Ok (fst a, map (fun p => plus (fst p) (snd p)) (combine (snd a) (snd b)))
  else Raise ValueError.

(** np.sum(terms, axis=0) for a list of arrays of one shape: their sum,
    added in order; the sum of the empty list is the number 0. *)
Definition sum_axis0 (terms : list (arrval A)) : result (arrval A) :=
  match terms with
  | [] => Ok ([], [zero])
  | t :: terms' => fold_left (fun acc t' => rbind acc (fun a => add_values a t')) terms' (Ok t)
  end.

(** [e] is a sequence of numbers and [v] a sequence of vectors; both are
    read and never written, and are kept as values. The temporaries of
    [matvec] are not kept in the store. *)
Definition eigen_operator (shape : Z * Z) (e : list A) (v : list (list A))
  : LinearOperator A :=
  let matvec := fun x =>
    xs <- load x ;;
    k <- lift (collect (fun vi => dot_T (arr_shape x, xs) vi) v) ;;
    terms <- lift (collect (fun kev => eigen_term (fst kev) (fst (snd kev)) (snd (snd kev)))
                           (combine k (combine e v))) ;;
    r <- lift (sum_axis0 terms) ;;
    new_array (fst r) (snd r) in
  {| shape := shape; matvec := matvec; rmatvec := Some matvec |}.

(** The vector [sum_i (x . v_i) * e_i * v_i], as a list of terms and as
    their sum. *)
Definition eigen_terms (xs e : list A) (v : list (list A)) : list (list A) :=
  map (fun ev => map (fun b => times (times (dot xs (snd ev)) (fst ev)) b) (snd ev))
      (combine e v).

Definition add_vectors (a b : list A) : list A :=
  map (fun p => plus (fst p) (snd p)) (combine a b).

(** The sum of a list of vectors, added in order; [0] for the empty list. *)
Definition sum_vectors (ts : list (list A)) : list A :=
  match ts with
  | [] => [zero]
  | t :: ts' => fold_left add_vectors ts' t
  end.

End Eigen.

(** ** axis_mul *)

(** np.empty returns an array whose cells hold what the allocator left
    there: [uninitialised st p] is the content of cell [p] of a buffer
    allocated in store [st]. *)
Class Memory (A : Type) : Type := { uninitialised : list (list A) -> Z -> A }.

(** The shape of [x[s]] for an array [x] of shape [sh] and a list [s] of
    full slices but for an integer at axis [k]. numpy reads a list that
    holds a slice as a tuple of indices, so the axis is dropped; the list
    [[i]] of a one-dimensional array holds no slice and is read as an array
    of one index, which selects an array of one element. *)
Definition item_shape (sh : list Z) (k : nat) : list Z :=
  match sh with
  | [_] => [1]
  | _ => firstn k sh ++ skipn (S k) sh
  end.

(** Flat position in [x] of the element at flat position [q] of [x[s]],
    for the index [i] at axis [k]. *)
Definition item_position (sh : list Z) (k : nat) (i q : Z) : Z :=
  ((q / inner sh k) * nth k sh 0 + i) * inner sh k + q mod inner sh k.

(** Flat position in [x[s]] of the element at flat position [p] of [x]. *)
Definition position_in_item (sh : list Z) (k : nat) (p : Z) : Z :=
  (p / (inner sh k * nth k sh 0)) * inner sh k + p mod inner sh k.

(** Assignment broadcasts the value to the shape of the target; leading
    axes of length one that the target has not are dropped first. *)
Fixpoint strip_ones (n : nat) (sh : list Z) : list Z :=
  match sh with
  | d :: sh' => if (n <? length sh)%nat && (d =? 1) then strip_ones n sh' else sh
  | [] => []
  end.

Section AxisMul.
Context {A : Type} `{Scalar A} {Mem : Memory A}.

(** np.empty(sh) *)
Definition np_empty (sh : list Z) : M (store A) ndarray :=
  if existsb (fun d => d <? 0) sh then raise ValueError
  else fun st => new_array sh (map (uninitialised st) (zseq (np_prod sh))) st.

(** The value of x[s], with the index [i] at axis [k] of s. *)
Definition getitem_along (x : ndarray) (k : nat) (i : Z) : M (store A) (arrval A) :=
  im <- lift (norm_index (nth k (arr_shape x) 0) i) ;;
  xs <- load x ;;
  ret (item_shape (arr_shape x) k,
       map (fun q => znth (item_position (arr_shape x) k (Z.of_nat im) q) xs zero)
           (zseq (np_prod (item_shape (arr_shape x) k)))).

(** y[s] = t, with the index [i] at axis [k] of s. *)
Definition setitem_along (y : ndarray) (k : nat) (i : Z) (t : arrval A)
  : M (store A) unit :=
  im <- lift (norm_index (nth k (arr_shape y) 0) i) ;;
  let sh := item_shape (arr_shape y) k in
  let tsh := strip_ones (length sh) (fst t) in
  b <- lift (broadcast_shapes sh tsh) ;;
  if negb (shape_eqb b sh) then raise ValueError
  else
    ys <- load y ;;
    write y
      (mapi (fun p o =>
               if axis_coord (arr_shape y) k p =? Z.of_nat im
               then znth (broadcast_index (rev sh) (rev tsh)
                                          (position_in_item (arr_shape y) k p))
                         (snd t) zero
               else o) ys).

(** [vect] is the array given to the factory; [matvec] reads it at every
    call. *)
Definition axis_mul (shapein : list Z) (vect : ndarray) (axis : Z) : LinearOperator A :=
  let shapeout := shapein in
  let matvec := fun x =>
    y <- np_empty (arr_shape x) ;;
    k <- lift (norm_index (ndim x) axis) ;;
    for_xrange (nth k (arr_shape x) 0) (fun i =>
      xi <- getitem_along x k i ;;
      vs <- load vect ;;
      t <- lift (multiply_values xi (arr_shape vect, vs)) ;;
      setitem_along y k i t) ;;;
    ret y in
  ndoperator shapein shapeout matvec (Some matvec).

End AxisMul.

(** Memory that holds [-1] in every cell. *)
Definition Memory_minus_one : Memory Z := {| uninitialised := fun _ _ => -1 |}.

(** A 2 x 3 matrix and two vectors. *)
Definition store_matrix : store Z := [[1; 2; 3; 4; 5; 6]; [10; 100]; [10; 100; 1000]].
Definition matrix_123456 : ndarray := {| base := 0; arr_shape := [6] |}.
Definition vector_10_100 : ndarray := {| base := 1; arr_shape := [2] |}.
Definition vector_10_100_1000 : ndarray := {| base := 2; arr_shape := [3] |}.

(** Pairs of different vectors of one length: four elements, two elements,
    and two 2 x 3 matrices beside a vector of two elements. *)
Definition store_fours : store Z := [[1; 2; 3; 4]; [5; 6; 7; 8]].
Definition vector_5678 : ndarray := {| base := 1; arr_shape := [4] |}.

Definition store_pairs : store Z := [[3; -1]; [7; 8]].
Definition vector_3_1 : ndarray := {| base := 0; arr_shape := [2] |}.

Definition store_two_matrices : store Z :=
  [[1; 2; 3; 4; 5; 6]; [10; 100]; [0; 1; 0; 2; 0; 3]].
Definition matrix_010203 : ndarray := {| base := 2; arr_shape := [6] |}.

(** ** masubclass and ndsubclass *)

(** An instance of a subclass of ndarray, as far as the module looks at
    it: the array, the class ([__class__]) and the dict of the attributes
    ([__dict__]). The module calls classes and binds [__dict__], and reads
    no attribute: a class and a dict are known by their identity. *)
Record subarray : Type := {
  sub_array : ndarray;
  sub_class : nat;
  sub_dict : nat
}.

(** The argument of the call of a class: an array in [masubclass], a shape
    in [ndsubclass]. *)
Inductive class_arg : Type :=
| OfArray (x : ndarray)
| OfShape (sh : list Z).

(** The classes of the caller: [class_call c arg] runs the call [c(arg)]. *)
Class Classes (A : Type) : Type := {
  class_call : nat -> class_arg -> M (store A) subarray
}.

(** One side of an adapter. With a template ([xin] or [xout]) the shape,
    the class and the dict are those of the template, whatever the other
    arguments; without one they are the arguments [shapein], [classin] and
    [dictin] themselves, of which the class and the dict may be None. A call
    that gives neither a template nor a shape is not modelled. *)
Inductive side : Type :=
| Template (x : subarray)
| Described (shape : list Z) (cls : option nat) (dict : option nat).

Definition side_shape (s : side) : list Z :=
  match s with
  | Template x => arr_shape (sub_array x)
  | Described shape _ _ => shape
  end.

Definition side_class (s : side) : option nat :=
  match s with
  | Template x => Some (sub_class x)
  | Described _ cls _ => cls
  end.

Definition side_dict (s : side) : option nat :=
  match s with
  | Template x => Some (sub_dict x)
  | Described _ _ dict => dict
  end.

Section Subclass.
Context {A : Type} `{Scalar A} {C : Classes A}.

(** cls(arg): None is not callable. *)
Definition call_class (cls : option nat) (arg : class_arg) : M (store A) subarray :=
  match cls with
  | Some c => class_call c arg
  | None => raise TypeError
  end.

(** xi.__dict__ = dict: only a dict can be bound. *)
Definition set_dict (xi : subarray) (dict : option nat) : M (store A) subarray :=
  match dict with
  | Some d => ret {| sub_array := sub_array xi; sub_class := sub_class xi; sub_dict := d |}
  | None => raise TypeError
  end.

(** y[:] = v, with the assignment of ndarray: [v] is broadcast to the shape
    of [y]. *)
Definition setitem_all (y v : ndarray) : M (store A) unit :=
  vs <- load v ;;
  let sh := arr_shape y in
  let tsh := strip_ones (length sh) (arr_shape v) in
  b <- lift (broadcast_shapes sh tsh) ;;
  if negb (shape_eqb b sh) then raise ValueError
  else
    write y (map (fun p => znth (broadcast_index (rev sh) (rev tsh) p) vs zero)
                 (zseq (np_prod sh))).

Definition masubclass (sidein sideout : side)
    (matvec rmatvec : option (subarray -> M (store A) ndarray))
  : result (LinearOperator A) :=
  let shapein := side_shape sidein in
  let classin := side_class sidein in
  let dictin := side_dict sidein in
  let shapeout := side_shape sideout in
  let classout := side_class sideout in
  let dictout := side_dict sideout in
  let sizein := np_prod shapein in
  let sizeout := np_prod shapeout in
  let shape := (sizeout, sizein) in
  match matvec with
  | Some matvec =>
      let ndmatvec := fun x =>
        xr <- reshape x shapein ;;
        xi <- call_class classin (OfArray xr) ;;
        xi <- set_dict xi dictin ;;
        r <- matvec xi ;;
        reshape r [sizeout] in
      let ndrmatvec :=
        match rmatvec with
        | Some rmatvec => Some (fun x =>
            xr <- reshape x shapeout ;;
            xo <- call_class classout (OfArray xr) ;;
            xo <- set_dict xo dictout ;;
            r <- rmatvec xo ;;
            reshape r [sizein])
        | None => None
        end in
      Ok {| shape := shape; matvec := ndmatvec; rmatvec := ndrmatvec |}
  | None => Raise ValueError
  end.

Definition ndsubclass (sidein sideout : side)
    (matvec rmatvec : option (subarray -> M (store A) ndarray))
  : result (LinearOperator A) :=
  let shapein := side_shape sidein in
  let classin := side_class sidein in
  let dictin := side_dict sidein in
  let shapeout := side_shape sideout in
  let classout := side_class sideout in
  let dictout := side_dict sideout in
  let sizein := np_prod shapein in
  let sizeout := np_prod shapeout in
  let shape := (sizeout, sizein) in
  match matvec with
  | Some matvec =>
      let ndmatvec := fun x =>
        xi <- call_class classin (OfShape shapein) ;;
        xi <- set_dict xi dictin ;;
        xr <- reshape x shapein ;;
        setitem_all (sub_array xi) xr ;;;
        r <- matvec xi ;;
        reshape r [sizeout] in
      let ndrmatvec :=
        match rmatvec with
        | Some rmatvec => Some (fun x =>
            xo <- call_class classout (OfShape shapeout) ;;
            xo <- set_dict xo dictout ;;
            xr <- reshape x shapeout ;;
            setitem_all (sub_array xo) xr ;;;
            r <- rmatvec xo ;;
            reshape r [sizein])
        | None => None
        end in
      Ok {| shape := shape; matvec := ndmatvec; rmatvec := ndrmatvec |}
  | None => Raise ValueError
  end.

End Subclass.

(** A caller's classes that add nothing to ndarray: called on an array,
    class [c] wraps it without a copy; called on a shape, it allocates. Each
    new instance gets the dict 0. *)
Definition Classes_views : Classes Z := {|
  class_call := fun c arg =>
    match arg with
    | OfArray x => ret {| sub_array := x; sub_class := c; sub_dict := 0 |}
    | OfShape sh =>
        bind (np_zeros sh)
             (fun a => ret {| sub_array := a; sub_class := c; sub_dict := 0 |})
    end
|}.

(** A template of shape (2, 3), of class 1 and dict 7, and a function that
    squares the entries of the instances that carry this dict. *)
Definition template_23 : subarray :=
  {| sub_array := {| base := 0; arr_shape := [2; 3] |}; sub_class := 1; sub_dict := 7 |}.

Definition square_entries (xi : subarray) : M (store Z) ndarray :=
  if Nat.eqb (sub_dict xi) 7 then np_multiply (sub_array xi) (sub_array xi)
  else raise SystemError.

(** * Properties *)

(** ** The store *)

Section StoreFacts.
Context {A : Type} `{Scalar A}.

Lemma np_prod_nonneg (sh : list Z) :
  Forall (fun d => 0 <= d) sh -> 0 <= np_prod sh.
Proof.
  induction 1 as [|d sh Hd _ IH]; simpl; [lia | now apply Z.mul_nonneg_nonneg].
Qed.

Lemma no_negative_dimension (sh : list Z) :
  Forall (fun d => 0 <= d) sh -> filter (fun d => d <? 0) sh = [].
Proof.
  induction 1 as [|d sh Hd _ IH]; simpl; [reflexivity|].
  destruct (Z.ltb_spec d 0); [lia | exact IH].
Qed.

Lemma no_negative_dimension_b (sh : list Z) :
  Forall (fun d => 0 <= d) sh -> existsb (fun d => d <? 0) sh = false.
Proof.
  induction 1 as [|d sh Hd _ IH]; simpl; [reflexivity|].
  destruct (Z.ltb_spec d 0); [lia | exact IH].
Qed.

Lemma fix_unknown_dimension_known (sh : list Z) (n : Z) :
  Forall (fun d => 0 <= d) sh -> np_prod sh = n ->
  fix_unknown_dimension sh n = Ok sh.
Proof.
  intros Hsh Hn. unfold fix_unknown_dimension.
  rewrite (no_negative_dimension sh Hsh), Hn, Z.eqb_refl. reflexivity.
Qed.

Lemma shape_eqb_refl (sh : list Z) : shape_eqb sh sh = true.
Proof. unfold shape_eqb. destruct (list_eq_dec Z.eq_dec sh sh); congruence. Qed.

Lemma reshape_view (x : ndarray) (sh : list Z) (st : store A) :
  Forall (fun d => 0 <= d) sh -> np_prod sh = size x ->
  reshape x sh st = Ok ({| base := base x; arr_shape := sh |}, st).
Proof.
  intros Hsh Hn. unfold reshape, bind, lift.
  rewrite (fix_unknown_dimension_known sh (size x) Hsh Hn). reflexivity.
Qed.

Lemma value_same_view (st : store A) (a b : ndarray) :
  base a = base b -> size a = size b -> value st a = value st b.
Proof. intros Hb Hs. unfold value. rewrite Hb, Hs. reflexivity. Qed.

Lemma value_length (st : store A) (a : ndarray) (xs : list A) :
  value st a = Some xs -> 0 <= size a -> zlength xs = size a.
Proof.
  unfold value. intros Hv Hs.
  destruct (nth_error st (base a)) as [buf|]; [|discriminate].
  destruct (Z.ltb_spec (zlength buf) (size a)); [discriminate|].
  injection Hv as <-. unfold zlength in *. rewrite length_firstn. lia.
Qed.

Lemma value_alloc (st more : store A) (a : ndarray) (xs : list A) :
  value st a = Some xs -> value (st ++ more) a = Some xs.
Proof.
  unfold value. intros Hv.
  destruct (nth_error st (base a)) as [buf|] eqn:E; [|discriminate].
  rewrite nth_error_app1 by (apply nth_error_Some; congruence).
  rewrite E. exact Hv.
Qed.

Lemma value_new (st : store A) (sh : list Z) (xs : list A) :
  zlength xs = np_prod sh ->
  value (st ++ [xs]) {| base := length st; arr_shape := sh |} = Some xs.
Proof.
  intros Hn. unfold value, size. simpl.
  rewrite nth_error_app2 by lia. rewrite Nat.sub_diag. simpl.
  rewrite <- Hn, Z.ltb_irrefl. unfold zlength. rewrite Nat2Z.id, firstn_all.
  reflexivity.
Qed.

Lemma load_value (st : store A) (a : ndarray) (xs : list A) :
  value st a = Some xs -> load a st = Ok (xs, st).
Proof. intros Hv. unfold load. rewrite Hv. reflexivity. Qed.

Lemma update_last {X : Type} (l : list X) (x v : X) :
  update (length l) v (l ++ [x]) = l ++ [v].
Proof. induction l as [|h t IH]; simpl; [reflexivity | now rewrite IH]. Qed.

Lemma write_new (st : store A) (a : ndarray) (xs ys : list A) :
  base a = length st -> length ys = length xs ->
  write a ys (st ++ [xs]) = Ok (tt, st ++ [ys]).
Proof.
  intros Hb Hl. unfold write. rewrite Hb.
  rewrite nth_error_app2 by lia. rewrite Nat.sub_diag. simpl.
  rewrite update_last, Hl, skipn_all, app_nil_r. reflexivity.
Qed.

Lemma length_fill {X : Type} (bs : list bool) (ys : list X) (v : X) :
  length (fill bs ys v) = length ys.
Proof.
  revert ys. induction bs as [|b bs IH]; intros [|y ys]; simpl; auto.
Qed.

Lemma length_scatter {X : Type} (bs : list bool) (ys vs : list X) :
  length (scatter bs ys vs) = length ys.
Proof.
  revert ys vs. induction bs as [|b bs IH]; intros [|y ys] vs; simpl; auto.
  destruct b; [destruct vs|]; simpl; auto.
Qed.

Lemma znth_fill {X : Type} (bs : list bool) (ys : list X) (v d : X) (i : Z) :
  length bs = length ys -> 0 <= i < zlength ys ->
  znth i (fill bs ys v) d = if znth i bs false then v else znth i ys d.
Proof.
  unfold znth, zlength. intros Hl Hi.
  assert (Hn : (Z.to_nat i < length ys)%nat) by lia. clear Hi.
  revert ys Hl Hn. generalize (Z.to_nat i) as n.
  induction bs as [|b bs IH]; intros n [|y ys] Hl Hn; simpl in *; try lia.
  destruct n as [|n]; [reflexivity|]. apply IH; lia.
Qed.

End StoreFacts.

(** ** Running computations *)

Section Running.
Context {S : Type}.

Lemma run_bind {X Y : Type} (c : M S X) (k : X -> M S Y) (st st' : S) (x : X) :
  c st = Ok (x, st') -> bind c k st = k x st'.
Proof. intros Hc. unfold bind. rewrite Hc. reflexivity. Qed.

Lemma run_bind_raise {X Y : Type} (c : M S X) (k : X -> M S Y) (st : S) (e : exn) :
  c st = Raise e -> bind c k st = Raise e.
Proof. intros Hc. unfold bind. rewrite Hc. reflexivity. Qed.

Lemma bind_assoc {X Y Z : Type} (c : M S X) (k : X -> M S Y) (k' : Y -> M S Z) (st : S) :
  bind (bind c k) k' st = bind c (fun x => bind (k x) k') st.
Proof. unfold bind. destruct (c st) as [[x st']|e]; reflexivity. Qed.

End Running.

(** ** mask *)

Section MaskFacts.
Context {A : Type} `{Scalar A}.

Lemma copy_run (x : ndarray) (st : store A) (xs : list A) :
  value st x = Some xs ->
  copy x st = Ok ({| base := length st; arr_shape := arr_shape x |}, st ++ [xs]).
Proof.
  intros Hv. unfold copy. erewrite run_bind by (apply load_value; exact Hv).
  reflexivity.
Qed.

Lemma setitem_bool_scalar_new (st : store A) (y : ndarray) (b : boolarray)
    (xs : list A) (v : A) :
  base y = length st -> arr_shape y = bshape b -> zlength xs = np_prod (bshape b) ->
  setitem_bool_scalar y b v (st ++ [xs]) = Ok (tt, st ++ [fill (bdata b) xs v]).
Proof.
  intros Hb Hs Hn. unfold setitem_bool_scalar.
  rewrite Hs, shape_eqb_refl.
  assert (Hv : value (st ++ [xs]) y = Some xs).
  { rewrite <- (value_new st (bshape b) xs Hn).
    apply value_same_view; [exact Hb | unfold size; now rewrite Hs]. }
  erewrite run_bind by (apply load_value; exact Hv).
  apply write_new; [exact Hb | apply length_fill].
Qed.

Lemma mask_apply_run (m : boolarray) (x : ndarray) (st : store A) (xs : list A) :
  wf_boolarray m -> value st x = Some xs -> size x = np_prod (bshape m) ->
  apply (mask m) x st =
    Ok ({| base := length st; arr_shape := [np_prod (bshape m)] |},
        st ++ [fill (bdata (eq_True m)) xs zero]).
Proof.
  intros [Hsh Hlen] Hv Hsz.
  assert (Hxs : zlength xs = np_prod (bshape m)).
  { rewrite <- Hsz. apply (value_length st); [exact Hv|].
    rewrite Hsz. now apply np_prod_nonneg. }
  unfold apply, mask, ndoperator; cbn [matvec].
  erewrite run_bind by (apply reshape_view; [exact Hsh | now rewrite Hsz]).
  rewrite bind_assoc.
  erewrite run_bind
    by (apply copy_run; rewrite <- Hv; now apply value_same_view).
  rewrite bind_assoc.
  erewrite run_bind by (now apply setitem_bool_scalar_new).
  erewrite run_bind by reflexivity.
  apply reshape_view.
  - constructor; [now apply np_prod_nonneg | constructor].
  - unfold size; simpl. apply Z.mul_1_r.
Qed.

(** C7: for a boolean mask [m] and an array [x] with as many elements,
    [mask(m).apply(x)] returns an array that holds 0 at every position
    where [m] is true and the element of [x] at every position where [m] is
    false. *)
Theorem mask_apply_zeroes (m : boolarray) (x : ndarray) (st : store A) (xs : list A) :
  wf_boolarray m -> value st x = Some xs -> size x = np_prod (bshape m) ->
  exists y st' ys,
    apply (mask m) x st = Ok (y, st') /\
    value st' y = Some ys /\
    zlength ys = zlength xs /\
    forall i, 0 <= i < zlength xs ->
      znth i ys zero = if znth i (bdata m) false then zero else znth i xs zero.
Proof.
  intros Hm Hv Hsz. pose proof Hm as [Hsh Hlen].
  assert (Hxs : zlength xs = np_prod (bshape m)).
  { rewrite <- Hsz. apply (value_length st); [exact Hv|].
    rewrite Hsz. now apply np_prod_nonneg. }
  assert (Hfl : length (fill (bdata (eq_True m)) xs zero) = length xs)
    by apply length_fill.
  eexists _, _, _. split; [exact (mask_apply_run m x st xs Hm Hv Hsz)|].
  split; [|split].
  - apply value_new. unfold zlength. rewrite Hfl. fold (zlength xs).
    rewrite Hxs. simpl. symmetry. apply Z.mul_1_r.
  - unfold zlength. now rewrite Hfl.
  - intros i Hi. rewrite znth_fill.
    + unfold znth; simpl.
      change false with ((fun b => Bool.eqb b true) false) at 1.
      rewrite map_nth. now destruct (nth (Z.to_nat i) (bdata m) false).
    + simpl. rewrite length_map. unfold zlength in *. lia.
    + exact Hi.
Qed.


End MaskFacts.

(** ** decimate *)

Section DecimateFacts.
Context {A : Type} `{Scalar A}.

Lemma np_prod_single (n : Z) : np_prod [n] = n.
Proof. simpl. apply Z.mul_1_r. Qed.

Lemma count_true_nonneg (bs : list bool) : 0 <= count_true bs.
Proof. unfold count_true, zlength. lia. Qed.

Lemma count_true_cons (b : bool) (bs : list bool) :
  count_true (b :: bs) = (if b then 1 else 0) + count_true bs.
Proof. unfold count_true, zlength. destruct b; cbn [filter length]; lia. Qed.

Lemma zlength_select {X : Type} (bs : list bool) (xs : list X) :
  length xs = length bs -> zlength (select bs xs) = count_true bs.
Proof.
  revert xs. induction bs as [|b bs IH]; intros [|x xs] Hl; simpl in *;
    try discriminate; [reflexivity|].
  rewrite count_true_cons. specialize (IH xs ltac:(lia)).
  destruct b; unfold zlength in *; cbn [length]; lia.
Qed.

Lemma select_scatter {X : Type} (bs : list bool) (zs vs : list X) :
  length zs = length bs -> zlength vs = count_true bs ->
  select bs (scatter bs zs vs) = vs.
Proof.
  revert zs vs. induction bs as [|b bs IH]; intros [|z zs] vs Hl Hc;
    simpl in *; try discriminate.
  - destruct vs; [reflexivity | discriminate].
  - rewrite count_true_cons in Hc. pose proof (count_true_nonneg bs).
    destruct b.
    + destruct vs as [|v vs]; [unfold zlength in Hc; cbn [length] in Hc; lia|].
      f_equal. apply IH; [lia | unfold zlength in *; cbn [length] in Hc; lia].
    + apply IH; [lia | lia].
Qed.

Lemma dot_select_scatter `{!ScalarLaws A} (bs : list bool) (xs ys : list A) :
  length xs = length bs -> zlength ys = count_true bs ->
  dot (select bs xs) ys = dot xs (scatter bs (repeat zero (length bs)) ys).
Proof.
  revert xs ys. induction bs as [|b bs IH]; intros [|x xs] ys Hl Hc;
    simpl in *; try discriminate; [reflexivity|].
  rewrite count_true_cons in Hc. pose proof (count_true_nonneg bs).
  destruct b.
  - destruct ys as [|y ys]; [unfold zlength in Hc; cbn [length] in Hc; lia|].
    simpl. f_equal. apply IH; [lia | unfold zlength in *; cbn [length] in Hc; lia].
  - simpl. rewrite times_zero_r, plus_zero_l. apply IH; lia.
Qed.

Lemma np_zeros_run (sh : list Z) (st : store A) :
  Forall (fun d => 0 <= d) sh ->
  np_zeros sh st =
    Ok ({| base := length st; arr_shape := sh |},
        st ++ [repeat zero (Z.to_nat (np_prod sh))]).
Proof.
  intros Hsh. unfold np_zeros. now rewrite (no_negative_dimension_b sh Hsh).
Qed.

Lemma getitem_bool_run (x : ndarray) (b : boolarray) (st : store A) (xs : list A) :
  arr_shape x = bshape b -> value st x = Some xs ->
  getitem_bool x b st =
    Ok ({| base := length st; arr_shape := [count_true (bdata b)] |},
        st ++ [select (bdata b) xs]).
Proof.
  intros Hs Hv. unfold getitem_bool. rewrite Hs, shape_eqb_refl.
  erewrite run_bind by (apply load_value; exact Hv). reflexivity.
Qed.

Lemma setitem_bool_array_new (st : store A) (y x : ndarray) (b : boolarray)
    (zs vs : list A) :
  base y = length st -> arr_shape y = bshape b -> zlength zs = np_prod (bshape b) ->
  value (st ++ [zs]) x = Some vs -> zlength vs = count_true (bdata b) ->
  setitem_bool_array y b x (st ++ [zs]) =
    Ok (tt, st ++ [scatter (bdata b) zs vs]).
Proof.
  intros Hb Hs Hn Hx Hc. unfold setitem_bool_array.
  rewrite Hs, shape_eqb_refl.
  assert (Hy : value (st ++ [zs]) y = Some zs).
  { rewrite <- (value_new st (bshape b) zs Hn).
    apply value_same_view; [exact Hb | unfold size; now rewrite Hs]. }
  erewrite run_bind by (apply load_value; exact Hy).
  erewrite run_bind by (apply load_value; exact Hx).
  rewrite Hc, Z.eqb_refl.
  apply write_new; [exact Hb | apply length_scatter].
Qed.

Lemma decimate_apply_run (m : boolarray) (x : ndarray) (st : store A) (xs : list A) :
  wf_boolarray m -> value st x = Some xs -> size x = np_prod (bshape m) ->
  apply (decimate m) x st =
    Ok ({| base := length st; arr_shape := [np_sum (eq_False m)] |},
        st ++ [select (bdata (eq_False m)) xs]).
Proof.
  intros [Hsh Hlen] Hv Hsz.
  unfold apply, decimate, ndoperator; cbn [matvec].
  erewrite run_bind by (apply reshape_view; [exact Hsh | now rewrite Hsz]).
  erewrite run_bind
    by (apply getitem_bool_run;
        [reflexivity | rewrite <- Hv; now apply value_same_view]).
  rewrite np_prod_single.
  apply reshape_view.
  - constructor; [apply count_true_nonneg | constructor].
  - reflexivity.
Qed.

Lemma decimate_adjoint_run (m : boolarray) (y : ndarray) (st : store A) (ys : list A) :
  wf_boolarray m -> value st y = Some ys -> size y = np_sum (eq_False m) ->
  apply_adjoint (decimate m) y st =
    Ok ({| base := length st; arr_shape := [np_prod (bshape m)] |},
        st ++ [scatter (bdata (eq_False m))
                       (repeat zero (Z.to_nat (np_prod (bshape m)))) ys]).
Proof.
  intros [Hsh Hlen] Hv Hsz.
  pose proof (np_prod_nonneg _ Hsh) as Hp.
  unfold apply_adjoint, decimate, ndoperator; cbn [rmatvec].
  erewrite run_bind
    by (apply reshape_view;
        [constructor; [apply count_true_nonneg | constructor]
        | now rewrite np_prod_single, Hsz]).
  rewrite bind_assoc.
  erewrite run_bind by (now apply np_zeros_run).
  rewrite bind_assoc.
  erewrite run_bind.
  2:{ apply setitem_bool_array_new with (vs := ys); try reflexivity.
      - unfold zlength. rewrite repeat_length. simpl. lia.
      - apply value_alloc. rewrite <- Hv. apply value_same_view; [reflexivity|].
        unfold size at 1. simpl arr_shape. now rewrite np_prod_single, Hsz.
      - change (zlength ys = np_sum (eq_False m)).
        rewrite <- Hsz. apply (value_length st); [exact Hv|].
        rewrite Hsz. apply count_true_nonneg. }
  erewrite run_bind by reflexivity.
  apply reshape_view.
  - constructor; [exact Hp | constructor].
  - unfold size; simpl. apply Z.mul_1_r.
Qed.

Lemma length_mask_data (m : boolarray) :
  wf_boolarray m -> Z.to_nat (np_prod (bshape m)) = length (bdata (eq_False m)).
Proof.
  intros [_ Hlen]. simpl. rewrite length_map, <- Hlen. unfold zlength.
  apply Nat2Z.id.
Qed.

(** C5: [decimate(mask)] is an adjoint pair. For [x] with as many elements
    as the mask and [y] with as many elements as the mask has false
    entries, the inner product of [apply(x)] with [y] is the inner product
    of [x] with [apply_adjoint(y)]. *)
Theorem decimate_adjoint_pair `{!ScalarLaws A} (m : boolarray) (x y : ndarray)
    (st : store A) (xs ys : list A) :
  wf_boolarray m ->
  value st x = Some xs -> size x = np_prod (bshape m) ->
  value st y = Some ys -> size y = np_sum (eq_False m) ->
  exists ax st1 ay st2 axs ays,
    apply (decimate m) x st = Ok (ax, st1) /\
    apply_adjoint (decimate m) y st1 = Ok (ay, st2) /\
    value st2 ax = Some axs /\
    value st2 ay = Some ays /\
    zlength axs = zlength ys /\
    zlength ays = zlength xs /\
    dot axs ys = dot xs ays.
Proof.
  intros Hm Hx Hsx Hy Hsy. pose proof Hm as [Hsh Hlen].
  pose proof (np_prod_nonneg _ Hsh) as Hp.
  assert (Hxs : length xs = length (bdata (eq_False m))).
  { rewrite <- (length_mask_data m Hm).
    pose proof (value_length st x xs Hx ltac:(lia)) as Hl.
    unfold zlength in Hl. lia. }
  assert (Hys : zlength ys = count_true (bdata (eq_False m))).
  { change (zlength ys = np_sum (eq_False m)). rewrite <- Hsy.
    apply (value_length st); [exact Hy|]. rewrite Hsy. apply count_true_nonneg. }
  eexists _, _, _, _, _, _.
  split; [exact (decimate_apply_run m x st xs Hm Hx Hsx)|].
  split; [exact (decimate_adjoint_run m y _ ys Hm (value_alloc _ _ _ _ Hy) Hsy)|].
  split; [|split; [|split; [|split]]].
  - apply value_alloc, value_new.
    rewrite np_prod_single. now apply zlength_select.
  - rewrite length_app. simpl length at 2.
    replace (length st + 1)%nat with (length (st ++ [select (bdata (eq_False m)) xs]))
      by (rewrite length_app; reflexivity).
    apply value_new.
    unfold zlength. rewrite length_scatter, repeat_length, np_prod_single. lia.
  - rewrite Hys. now apply zlength_select.
  - unfold zlength. rewrite length_scatter, repeat_length.
    pose proof (value_length st x xs Hx ltac:(lia)) as Hl.
    unfold zlength in Hl. lia.
  - rewrite (length_mask_data m Hm). now apply dot_select_scatter.
Qed.

(** C10: on the codomain, the forward selection of [decimate(m)] is a left
    inverse of its adjoint: for [y] with as many elements as [m] has false
    entries, [apply(apply_adjoint(y))] holds the elements of [y]. *)
Theorem decimate_apply_adjoint_id (m : boolarray) (y : ndarray)
    (st : store A) (ys : list A) :
  wf_boolarray m -> value st y = Some ys -> size y = np_sum (eq_False m) ->
  exists ay st1 ax st2,
    apply_adjoint (decimate m) y st = Ok (ay, st1) /\
    apply (decimate m) ay st1 = Ok (ax, st2) /\
    value st2 ax = Some ys /\
    size ax = size y.
Proof.
  intros Hm Hy Hsy. pose proof Hm as [Hsh Hlen].
  pose proof (np_prod_nonneg _ Hsh) as Hp.
  assert (Hys : zlength ys = count_true (bdata (eq_False m))).
  { change (zlength ys = np_sum (eq_False m)). rewrite <- Hsy.
    apply (value_length st); [exact Hy|]. rewrite Hsy. apply count_true_nonneg. }
  set (zs := repeat zero (Z.to_nat (np_prod (bshape m)))).
  assert (Hzs : length zs = length (bdata (eq_False m))).
  { unfold zs. rewrite repeat_length. now apply length_mask_data. }
  assert (Hay : value (st ++ [scatter (bdata (eq_False m)) zs ys])
                  {| base := length st; arr_shape := [np_prod (bshape m)] |}
                = Some (scatter (bdata (eq_False m)) zs ys)).
  { apply value_new. unfold zlength.
    rewrite length_scatter, np_prod_single. unfold zs. rewrite repeat_length. lia. }
  eexists _, _, _, _.
  split; [exact (decimate_adjoint_run m y st ys Hm Hy Hsy)|].
  split; [exact (decimate_apply_run m _ _ _ Hm Hay (np_prod_single _))|].
  split.
  - rewrite (select_scatter _ zs ys Hzs Hys).
    rewrite length_app. simpl length at 2.
    replace (length st + 1)%nat
      with (length (st ++ [scatter (bdata (eq_False m)) zs ys]))
      by (rewrite length_app; reflexivity).
    apply value_new. now rewrite np_prod_single.
  - unfold size at 1. simpl arr_shape. now rewrite np_prod_single, Hsy.
Qed.

End DecimateFacts.

(** ** fftn *)

Section FftnFacts.
Context {A : Type} `{Scalar A} {E : External A}.

Lemma call1_run (f : arrval A -> result (arrval A)) (x : ndarray) (st : store A)
    (xs : list A) (v : arrval A) :
  value st x = Some xs -> f (arr_shape x, xs) = Ok v ->
  call1 f x st = Ok ({| base := length st; arr_shape := fst v |}, st ++ [snd v]).
Proof.
  intros Hv Hf. unfold call1.
  erewrite run_bind by (apply load_value; exact Hv).
  unfold bind, lift. rewrite Hf. reflexivity.
Qed.

(** C8: round trip of [fftn(shape)]. When numpy's [ifftn] inverts numpy's
    [fftn] on the arrays of the given shape (the exact reading of "up to
    floating-point tolerance"), [apply_adjoint(apply(x))] holds the elements
    of [x], for every [x] with the elements of an array of that shape. *)
Theorem fftn_round_trip (shapein : list Z) (x : ndarray) (st : store A) (xs : list A) :
  Forall (fun d => 0 <= d) shapein ->
  (forall v, zlength v = np_prod shapein ->
     exists w, np_fft_fftn (shapein, v) None None = Ok (shapein, w) /\
               zlength w = np_prod shapein /\
               np_fft_ifftn (shapein, w) None None = Ok (shapein, v)) ->
  value st x = Some xs -> size x = np_prod shapein ->
  exists y st1 z st2,
    apply (fftn shapein None None) x st = Ok (y, st1) /\
    apply_adjoint (fftn shapein None None) y st1 = Ok (z, st2) /\
    value st2 z = Some xs /\
    size z = size x.
Proof.
  intros Hsh Hinv Hx Hsz.
  pose proof (np_prod_nonneg _ Hsh) as Hp.
  assert (Hxs : zlength xs = np_prod shapein).
  { rewrite <- Hsz. apply (value_length st); [exact Hx | lia]. }
  destruct (Hinv xs Hxs) as (w & Hfw & Hw & Hbw).
  assert (Hone : Forall (fun d => 0 <= d) [np_prod shapein])
    by (constructor; [exact Hp | constructor]).
  assert (Hrun1 : apply (fftn shapein None None) x st =
                  Ok ({| base := length st; arr_shape := [np_prod shapein] |},
                      st ++ [w])).
  { unfold apply, fftn, ndoperator; cbn [matvec].
    erewrite run_bind by (apply reshape_view; [exact Hsh | now rewrite Hsz]).
    erewrite run_bind.
    2:{ apply call1_run with (xs := xs) (v := (shapein, w)).
        - rewrite <- Hx. now apply value_same_view.
        - exact Hfw. }
    apply reshape_view; [exact Hone | apply np_prod_single]. }
  assert (Hy : value (st ++ [w])
                 {| base := length st; arr_shape := [np_prod shapein] |} = Some w)
    by (apply value_new; now rewrite np_prod_single).
  eexists _, _, _, _. split; [exact Hrun1|]. split; [|split].
  - unfold apply_adjoint, fftn, ndoperator; cbn [rmatvec].
    erewrite run_bind by (apply reshape_view; [exact Hsh | symmetry; apply np_prod_single]).
    erewrite run_bind.
    2:{ apply call1_run with (xs := w) (v := (shapein, xs)).
        - rewrite <- Hy. apply value_same_view; [reflexivity|].
          symmetry. apply np_prod_single.
        - exact Hbw. }
    apply reshape_view; [exact Hone | apply np_prod_single].
  - simpl. apply value_new. now rewrite np_prod_single.
  - unfold size at 1. simpl arr_shape. now rewrite np_prod_single.
Qed.

End FftnFacts.

(** ** eye *)

Section EyeFacts.
Context {A : Type} `{Scalar A}.

(** C3, at [eye]: for a shape (rows, cols) with rows <> cols, [apply_adjoint]
    raises on every input, so it has no output of length cols; and when
    cols < rows, [apply] returns the cols entries of its input, not rows. *)
Theorem eye_rectangular_lengths (rows cols : Z) (st : store A) :
  rows <> cols ->
  exists op,
    eye (rows, cols) = Ok op /\
    shape op = (rows, cols) /\
    (forall y, raises (apply_adjoint op y st)) /\
    (forall x, 0 <= cols < rows -> arr_shape x = [cols] ->
       exists r, apply op x st = Ok (r, st) /\ base r = base x /\ size r = cols).
Proof.
  intros Hne. unfold eye. simpl fst; simpl snd.
  destruct (Z.eqb_spec rows cols) as [Heq|_]; [contradiction|].
  eexists. split; [reflexivity|]. split; [reflexivity|]. split.
  - intros y. unfold apply_adjoint; cbn [rmatvec]. unfold np_zeros.
    cbn [existsb]. destruct (rows - cols <? 0).
    + exists ValueError. reflexivity.
    + exists TypeError. reflexivity.
  - intros x Hc Hx. unfold apply; cbn [matvec]. unfold getitem_slice_stop.
    rewrite Hx. eexists. split; [reflexivity|]. split; [reflexivity|].
    unfold size, slice_stop. simpl arr_shape.
    destruct (Z.ltb_spec rows 0); [lia|]. rewrite np_prod_single. lia.
Qed.

End EyeFacts.

(** ** Construction-time checks *)

Section FactoryFacts.
Context {A : Type} `{Scalar A} {E : External A}.





Lemma convolve_valid_shape (shapein : list Z) (kernel : ndarray) :
  exists op,
    convolve shapein kernel "valid"%string = Ok op /\
    shape op =
      (np_prod (map (fun p => fst p - snd p - 1) (combine shapein (arr_shape kernel))),
       np_prod shapein).
Proof. eexists. split; reflexivity. Qed.

(** C1, at shapein = (5,) and a kernel of shape (3,): the operator built
    for mode 'valid' has shape[0] = 5 - 3 - 1 = 1, and not 5 - 3 + 1 = 3. *)
Theorem convolve_valid_rows :
  exists op,
    convolve [5] kernel_3 "valid"%string = Ok op /\
    shape op = (1, 5) /\
    fst (shape op) <> 5 - 3 + 1.
Proof.
  eexists. split; [reflexivity|]. split; [reflexivity|]. simpl. lia.
Qed.

End FactoryFacts.

(** ** Scenarios on integer vectors *)

#[export] Instance ScalarLaws_Z : ScalarLaws Z.
Proof. split; intros a; simpl; lia. Qed.

(** C2, at [eye((2, 3))]: [apply([1, 2, 3])] returns the first two entries,
    and [apply_adjoint([1, 2])] raises where the padded vector [1, 2, 0] is
    expected. *)
Theorem eye_2_3 :
  apply_vector (eye (2, 3)) [1; 2; 3] = Ok [1; 2] /\
  apply_adjoint_vector (eye (2, 3)) [1; 2] = Raise ValueError /\
  apply_adjoint_vector (eye (2, 3)) [1; 2] <> Ok [1; 2; 0].
Proof. repeat split; try reflexivity. discriminate. Qed.


(** [binning] accepts a length that is not a multiple of the factor; the
    error comes when [bin] indexes past the end of its output. *)
Example binning_not_multiple :
  (exists op : LinearOperator Z, binning [7] 2 (-1) = Ok op /\ shape op = (3, 7)) /\
  apply_vector (binning [7] 2 (-1)) [1; 2; 3; 4; 5; 6; 7] = Raise IndexError.
Proof. split; [eexists; split; reflexivity | vm_compute; reflexivity]. Qed.

(** [masubclass] and [ndsubclass] hand their matvec an instance that
    carries the dict of the template. A side described without a class is
    accepted when the operator is built: the error comes at apply time,
    when None is called. *)
Example subclass_adapters_scenario :
  apply_vector (masubclass (C := Classes_views) (Template template_23)
                  (Template template_23) (Some square_entries) None)
               [1; 2; 3; 4; 5; 6] = Ok [1; 4; 9; 16; 25; 36] /\
  apply_vector (ndsubclass (C := Classes_views) (Template template_23)
                  (Template template_23) (Some square_entries) None)
               [1; 2; 3; 4; 5; 6] = Ok [1; 4; 9; 16; 25; 36] /\
  (exists op,
     masubclass (C := Classes_views) (Described [2; 3] None (Some 7%nat))
       (Template template_23) (Some square_entries) None = Ok op /\
     apply op matrix_123456 store_matrix = Raise TypeError) /\
  (exists op,
     ndsubclass (C := Classes_views) (Described [2; 3] None (Some 7%nat))
       (Template template_23) (Some square_entries) None = Ok op /\
     apply op matrix_123456 store_matrix = Raise TypeError).
Proof.
  split; [vm_compute; reflexivity|]. split; [vm_compute; reflexivity|].
  split; eexists; (split; [reflexivity | vm_compute; reflexivity]).
Qed.

(** An assignment through a view changes the array it views: without its
    [copy], the assignment of [mask] would reach the input. *)
Example view_assignment_aliases :
  exists v st',
    (v <- reshape vector_1234 [2; 2] ;;
     setitem_bool_scalar v (eq_True mask_diagonal) zero ;;;
     ret v) store_two_vectors = Ok (v, st') /\
    base v = base vector_1234 /\
    value st' vector_1234 = Some [0; 2; 3; 0].
Proof. eexists _, _. repeat split. Qed.

(** C6: [binning(shapein=(8,), factor=2)] sums pairs, and its adjoint
    repeats every entry twice. *)
Theorem binning_scenario :
  apply_vector (binning [8] 2 (-1)) [1; 2; 3; 4; 5; 6; 7; 8] = Ok [3; 7; 11; 15] /\
  apply_adjoint_vector (binning [8] 2 (-1)) [3; 7; 11; 15]
    = Ok [3; 3; 7; 7; 11; 11; 15; 15].
Proof. split; vm_compute; reflexivity. Qed.

(** ** Instances of the theorems on integer vectors *)

Lemma mask_apply_zeroes_witness :
  wf_boolarray mask_diagonal /\
  value store_two_vectors vector_1234 = Some [1; 2; 3; 4] /\
  size vector_1234 = np_prod (bshape mask_diagonal) /\
  exists y st' ys,
    apply (mask mask_diagonal) vector_1234 store_two_vectors = Ok (y, st') /\
    value st' y = Some ys /\
    zlength ys = zlength [1; 2; 3; 4] /\
    forall i, 0 <= i < zlength [1; 2; 3; 4] ->
      znth i ys zero =
      if znth i (bdata mask_diagonal) false then zero else znth i [1; 2; 3; 4] zero.
Proof.
  assert (Hm : wf_boolarray mask_diagonal)
    by (split; [repeat constructor; lia | reflexivity]).
  refine (conj Hm (conj eq_refl (conj eq_refl _))).
  apply mask_apply_zeroes; [exact Hm | reflexivity | reflexivity].
Defined.


Lemma decimate_adjoint_pair_witness :
  wf_boolarray mask_diagonal /\
  value store_two_vectors vector_1234 = Some [1; 2; 3; 4] /\
  size vector_1234 = np_prod (bshape mask_diagonal) /\
  value store_two_vectors vector_78 = Some [7; 8] /\
  size vector_78 = np_sum (eq_False mask_diagonal) /\
  exists ax st1 ay st2 axs ays,
    apply (decimate mask_diagonal) vector_1234 store_two_vectors = Ok (ax, st1) /\
    apply_adjoint (decimate mask_diagonal) vector_78 st1 = Ok (ay, st2) /\
    value st2 ax = Some axs /\
    value st2 ay = Some ays /\
    zlength axs = zlength [7; 8] /\
    zlength ays = zlength [1; 2; 3; 4] /\
    dot axs [7; 8] = dot [1; 2; 3; 4] ays.
Proof.
  assert (Hm : wf_boolarray mask_diagonal)
    by (split; [repeat constructor; lia | reflexivity]).
  refine (conj Hm (conj eq_refl (conj eq_refl (conj eq_refl (conj eq_refl _))))).
  apply (@decimate_adjoint_pair Z Scalar_Z ScalarLaws_Z);
    [exact Hm | reflexivity | reflexivity | reflexivity | reflexivity].
Defined.

Lemma decimate_apply_adjoint_id_witness :
  wf_boolarray mask_diagonal /\
  value store_two_vectors vector_78 = Some [7; 8] /\
  size vector_78 = np_sum (eq_False mask_diagonal) /\
  exists ay st1 ax st2,
    apply_adjoint (decimate mask_diagonal) vector_78 store_two_vectors = Ok (ay, st1) /\
    apply (decimate mask_diagonal) ay st1 = Ok (ax, st2) /\
    value st2 ax = Some [7; 8] /\
    size ax = size vector_78.
Proof.
  assert (Hm : wf_boolarray mask_diagonal)
    by (split; [repeat constructor; lia | reflexivity]).
  refine (conj Hm (conj eq_refl (conj eq_refl _))).
  apply decimate_apply_adjoint_id; [exact Hm | reflexivity | reflexivity].
Defined.

Lemma eye_rectangular_lengths_witness :
  2 <> 3 /\
  exists op : LinearOperator Z,
    eye (2, 3) = Ok op /\
    shape op = (2, 3) /\
    (forall y, raises (apply_adjoint op y store_two_vectors)) /\
    (forall x, 0 <= 3 < 2 -> arr_shape x = [3] ->
       exists r, apply op x store_two_vectors = Ok (r, store_two_vectors) /\
                 base r = base x /\ size r = 3).
Proof.
  split; [lia|]. apply eye_rectangular_lengths. lia.
Defined.

Lemma fftn_round_trip_witness :
  Forall (fun d => 0 <= d) [2] /\
  value store_two_vectors vector_78 = Some [7; 8] /\
  size vector_78 = np_prod [2] /\
  exists y st1 z st2,
    apply (fftn (E:=External_dft2) [2] None None) vector_78 store_two_vectors
      = Ok (y, st1) /\
    apply_adjoint (fftn (E:=External_dft2) [2] None None) y st1 = Ok (z, st2) /\
    value st2 z = Some [7; 8] /\
    size z = size vector_78.
Proof.
  assert (Hsh : Forall (fun d => 0 <= d) [2]) by (repeat constructor; lia).
  refine (conj Hsh (conj eq_refl (conj eq_refl _))).
  apply (fftn_round_trip (E:=External_dft2));
    [exact Hsh | | reflexivity | reflexivity].
  intros v Hv.
  destruct v as [|a [|b [|c v]]];
    try (exfalso; unfold zlength in Hv; cbn [length np_prod fold_right] in Hv; lia).
  exists [a + b; a - b]. split; [reflexivity|]. split; [reflexivity|].
  simpl.
  replace (a + b + (a - b)) with (a * 2) by lia.
  replace (a + b - (a - b)) with (b * 2) by lia.
  rewrite !Z.div_mul by lia. reflexivity.
Defined.

(** * Further properties *)

(** ** Raising computations *)

Section Raising.
Context {S : Type}.

Lemma raises_bind {X Y : Type} (c : M S X) (k : X -> M S Y) (st : S) :
  (forall x st', c st = Ok (x, st') -> raises (k x st')) ->
  raises (bind c k st).
Proof.
  intros Hk. unfold bind. destruct (c st) as [[x st']|e] eqn:Hc.
  - now apply Hk.
  - now exists e.
Qed.

Lemma fold_xrange_raises (body : Z -> M S unit) (i0 : nat) (l : list nat) (st : S) :
  In i0 l -> (forall st', raises (body (Z.of_nat i0) st')) ->
  raises (fold_right (fun i rest => body (Z.of_nat i) ;;; rest) (ret tt) l st).
Proof.
  intros Hin Hraise. revert st.
  induction l as [|h l IH]; intros st; [destruct Hin|].
  simpl. destruct Hin as [->|Hin].
  - unfold bind. destruct (Hraise st) as [e ->]. now exists e.
  - apply raises_bind. intros _ st' _. now apply IH.
Qed.

Lemma for_xrange_raises (n i0 : Z) (body : Z -> M S unit) (st : S) :
  0 <= i0 < n -> (forall st', raises (body i0 st')) ->
  raises (for_xrange n body st).
Proof.
  intros Hi Hraise. unfold for_xrange.
  apply fold_xrange_raises with (i0 := Z.to_nat i0).
  - apply in_seq. lia.
  - now rewrite Z2Nat.id by lia.
Qed.

End Raising.

(** ** ndoperator *)

Section NdoperatorFacts.
Context {A : Type} `{Scalar A}.

Lemma reshape_flat (x : ndarray) (n : Z) (st st' : store A) (y : ndarray) :
  0 <= n -> reshape x [n] st = Ok (y, st') ->
  y = {| base := base x; arr_shape := [n] |} /\ st' = st /\ size x = n.
Proof.
  intros Hn. unfold reshape, bind, lift, fix_unknown_dimension. cbn [filter].
  destruct (Z.ltb_spec n 0); [lia|].
  rewrite np_prod_single.
  destruct (Z.eqb_spec n (size x)) as [Heq|]; [|discriminate].
  unfold ret. intros Hr. injection Hr as <- <-. auto.
Qed.

Lemma reshape_known (x : ndarray) (sh : list Z) (st st' : store A) (y : ndarray) :
  Forall (fun d => 0 <= d) sh -> reshape x sh st = Ok (y, st') ->
  y = {| base := base x; arr_shape := sh |} /\ st' = st /\ size x = np_prod sh.
Proof.
  intros Hsh. unfold reshape, bind, lift, fix_unknown_dimension.
  rewrite (no_negative_dimension sh Hsh).
  destruct (Z.eqb_spec (np_prod sh) (size x)) as [Heq|]; [|discriminate].
  unfold ret. intros Hr. injection Hr as <- <-. auto.
Qed.

Lemma reshape_wrong_size (x : ndarray) (sh : list Z) (st : store A) :
  Forall (fun d => 0 <= d) sh -> size x <> np_prod sh ->
  reshape x sh st = Raise ValueError.
Proof.
  intros Hsh Hne. unfold reshape, bind, lift, fix_unknown_dimension.
  rewrite (no_negative_dimension sh Hsh).
  destruct (Z.eqb_spec (np_prod sh) (size x)); [congruence | reflexivity].
Qed.

(** An operator built by [ndoperator] returns flat vectors of the declared
    lengths: when sizeout is not negative, every output of [apply] has the
    shape (shape[0],), and when sizein is not negative, every output of
    [apply_adjoint] has the shape (shape[1],), whatever the wrapped
    functions return. *)
Theorem ndoperator_output_length (shapein shapeout : list Z)
    (f : ndarray -> M (store A) ndarray) (g : option (ndarray -> M (store A) ndarray)) :
  0 <= np_prod shapeout -> 0 <= np_prod shapein ->
  (forall x st y st',
     apply (ndoperator shapein shapeout f g) x st = Ok (y, st') ->
     arr_shape y = [fst (shape (ndoperator shapein shapeout f g))]) /\
  (forall x st y st',
     apply_adjoint (ndoperator shapein shapeout f g) x st = Ok (y, st') ->
     arr_shape y = [snd (shape (ndoperator shapein shapeout f g))]).
Proof.
  intros Hout Hin. split; intros x st y st'.
  - unfold apply, ndoperator; cbn [matvec shape fst]. unfold bind at 1.
    destruct (reshape x shapein st) as [[xi st1]|e]; [|discriminate].
    unfold bind at 1. destruct (f xi st1) as [[r st2]|e]; [|discriminate].
    intros Hr. apply reshape_flat in Hr; [|exact Hout].
    destruct Hr as (-> & _ & _). reflexivity.
  - unfold apply_adjoint, ndoperator; cbn [rmatvec shape snd].
    destruct g as [g|]; [|discriminate]. unfold bind at 1.
    destruct (reshape x shapeout st) as [[xo st1]|e]; [|discriminate].
    unfold bind at 1. destruct (g xo st1) as [[r st2]|e]; [|discriminate].
    intros Hr. apply reshape_flat in Hr; [|exact Hin].
    destruct Hr as (-> & _ & _). reflexivity.
Qed.

(** An operator built by [ndoperator] rejects an input of the wrong size
    when it is applied: [apply] raises ValueError on an input that has not
    sizein elements, and [apply_adjoint] on one that has not sizeout
    elements, before the wrapped function is called. *)
Theorem ndoperator_wrong_size (shapein shapeout : list Z)
    (f g : ndarray -> M (store A) ndarray) (x y : ndarray) (st : store A) :
  Forall (fun d => 0 <= d) shapein -> Forall (fun d => 0 <= d) shapeout ->
  size x <> np_prod shapein -> size y <> np_prod shapeout ->
  apply (ndoperator shapein shapeout f (Some g)) x st = Raise ValueError /\
  apply_adjoint (ndoperator shapein shapeout f (Some g)) y st = Raise ValueError.
Proof.
  intros Hin Hout Hx Hy. split.
  - unfold apply, ndoperator; cbn [matvec].
    apply run_bind_raise. now apply reshape_wrong_size.
  - unfold apply_adjoint, ndoperator; cbn [rmatvec].
    apply run_bind_raise. now apply reshape_wrong_size.
Qed.

End NdoperatorFacts.


(** ** diag and mul *)

Section DiagFacts.
Context {A : Type} `{Scalar A}.

Lemma map_zseq_succ {Y : Type} (g : Z -> Y) (n : nat) :
  map g (zseq (Z.of_nat (S n))) = g 0 :: map (fun p => g (p + 1)) (zseq (Z.of_nat n)).
Proof.
  unfold zseq. rewrite !Nat2Z.id. simpl. f_equal.
  rewrite <- seq_shift, !map_map. apply map_ext. intros i. f_equal. lia.
Qed.

Lemma znth_succ {X : Type} (p : Z) (a : X) (l : list X) (d : X) :
  0 <= p -> znth (p + 1) (a :: l) d = znth p l d.
Proof.
  intros Hp. unfold znth. replace (Z.to_nat (p + 1)) with (S (Z.to_nat p)) by lia.
  reflexivity.
Qed.

Lemma map_zseq_ext {Y : Type} (g h : Z -> Y) (n : Z) :
  (forall p, 0 <= p < n -> g p = h p) -> map g (zseq n) = map h (zseq n).
Proof.
  intros Hgh. unfold zseq. rewrite !map_map. apply map_ext_in.
  intros i Hi. apply in_seq in Hi. apply Hgh. lia.
Qed.

Lemma broadcast_same (n : Z) : broadcast_shapes [n] [n] = Ok [n].
Proof. unfold broadcast_shapes. simpl. now rewrite Z.eqb_refl. Qed.

Lemma broadcast_index_same (n p : Z) :
  0 <= p < n -> broadcast_index [n] [n] p = p.
Proof.
  intros Hp. simpl. destruct (Z.eqb_spec n 1).
  - lia.
  - rewrite Z.mod_small by lia. lia.
Qed.

Lemma map_zseq_products (ds xs : list A) :
  length ds = length xs ->
  map (fun p => times (znth p ds zero) (znth p xs zero)) (zseq (zlength ds))
  = products ds xs.
Proof.
  unfold products. revert xs.
  induction ds as [|d ds IH]; intros [|x xs] Hl; try discriminate; [reflexivity|].
  unfold zlength. cbn [length]. rewrite map_zseq_succ. simpl.
  f_equal. rewrite <- (IH xs) by (simpl in Hl; lia).
  apply map_zseq_ext. intros p Hp. now rewrite !znth_succ by lia.
Qed.

Lemma np_multiply_same (d x : ndarray) (st : store A) (ds xs : list A) (n : Z) :
  0 <= n -> arr_shape d = [n] -> arr_shape x = [n] ->
  value st d = Some ds -> value st x = Some xs ->
  np_multiply d x st =
    Ok ({| base := length st; arr_shape := [n] |}, st ++ [products ds xs]).
Proof.
  intros Hn Hd Hx Hds Hxs.
  assert (Hld : zlength ds = n).
  { rewrite <- (np_prod_single n). change (np_prod [n]) with (size {| base := base d; arr_shape := [n] |}).
    apply (value_length st); [|unfold size; simpl; lia].
    rewrite <- Hds. apply value_same_view; [reflexivity | unfold size; now rewrite Hd]. }
  assert (Hlx : zlength xs = n).
  { rewrite <- (np_prod_single n). change (np_prod [n]) with (size {| base := base x; arr_shape := [n] |}).
    apply (value_length st); [|unfold size; simpl; lia].
    rewrite <- Hxs. apply value_same_view; [reflexivity | unfold size; now rewrite Hx]. }
  unfold np_multiply. rewrite Hd, Hx, broadcast_same.
  erewrite run_bind by reflexivity.
  erewrite run_bind by (apply load_value; exact Hds).
  erewrite run_bind by (apply load_value; exact Hxs).
  unfold new_array. do 3 f_equal.
  rewrite np_prod_single. cbn [rev app].
  rewrite <- map_zseq_products by (unfold zlength in *; lia).
  rewrite Hld. f_equal. apply map_zseq_ext. intros p Hp.
  now rewrite broadcast_index_same.
Qed.

(** [diag(d)] multiplies elementwise: for a vector [d] of [n] elements
    the operator has shape (n, n), and on a vector [x] of [n] elements
    [apply] and [apply_adjoint] both return a new array with the products
    [d[i] * x[i]], leaving [x] as it was. *)
Theorem diag_elementwise (d x : ndarray) (st : store A) (ds xs : list A) (n : Z) :
  0 <= n -> arr_shape d = [n] -> arr_shape x = [n] ->
  value st d = Some ds -> value st x = Some xs ->
  exists op y st',
    diag d None = Ok op /\
    shape op = (n, n) /\
    apply op x st = Ok (y, st') /\
    apply_adjoint op x st = Ok (y, st') /\
    value st' y = Some (products ds xs) /\
    value st' x = Some xs.
Proof.
  intros Hn Hd Hx Hds Hxs.
  assert (Hsz : size d = n) by (unfold size; rewrite Hd; apply np_prod_single).
  unfold diag. cbn [fst snd]. rewrite Z.eqb_refl. cbn [negb].
  eexists _, _, _. split; [reflexivity|]. split; [now rewrite Hsz|].
  unfold apply, apply_adjoint; cbn [matvec rmatvec].
  split; [exact (np_multiply_same d x st ds xs n Hn Hd Hx Hds Hxs)|].
  split; [exact (np_multiply_same d x st ds xs n Hn Hd Hx Hds Hxs)|].
  split; [|now apply value_alloc].
  apply value_new. rewrite np_prod_single. unfold products, zlength.
  rewrite length_map, length_combine.
  pose proof (value_length st d ds Hds ltac:(lia)) as H1.
  assert (Hsx : size x = n) by (unfold size; rewrite Hx; apply np_prod_single).
  pose proof (value_length st x xs Hxs ltac:(lia)) as H2.
  unfold zlength in *. lia.
Qed.

(** [diag(d, shape=(n, n))] with a vector [d] whose size is neither [n]
    nor 1 is built without complaint, and fails when it is applied: on a
    vector of [n <> 1] elements the product cannot be broadcast and [apply]
    raises ValueError. *)
Theorem diag_mismatch_raises (d x : ndarray) (st : store A) (m n : Z) :
  arr_shape d = [m] -> arr_shape x = [n] -> m <> n -> m <> 1 -> n <> 1 ->
  exists op,
    diag d (Some (n, n)) = Ok op /\
    apply op x st = Raise ValueError.
Proof.
  intros Hd Hx Hmn Hm Hn. unfold diag. cbn [fst snd].
  rewrite Z.eqb_refl. cbn [negb]. eexists. split; [reflexivity|].
  unfold apply; cbn [matvec]. unfold np_multiply.
  apply run_bind_raise. rewrite Hd, Hx. unfold lift, broadcast_shapes. simpl.
  destruct (Z.eqb_spec m n); [contradiction|].
  destruct (Z.eqb_spec m 1); [contradiction|].
  destruct (Z.eqb_spec n 1); [contradiction|]. reflexivity.
Qed.

(** [mul(shapein, num)] with a scalar scales: on an input with sizein
    elements [apply] and [apply_adjoint] both return a new flat vector with
    the elements [num * x[i]], leaving the input as it was. *)
Theorem mul_scales (shapein : list Z) (a : A) (x : ndarray) (st : store A)
    (xs : list A) :
  Forall (fun d => 0 <= d) shapein ->
  value st x = Some xs -> size x = np_prod shapein ->
  exists op y st',
    mul shapein (PyScalar a) = Ok op /\
    apply op x st = Ok (y, st') /\
    apply_adjoint op x st = Ok (y, st') /\
    arr_shape y = [np_prod shapein] /\
    value st' y = Some (map (times a) xs) /\
    value st' x = Some xs.
Proof.
  intros Hsh Hv Hsz.
  pose proof (np_prod_nonneg _ Hsh) as Hp.
  assert (Hxs : zlength xs = np_prod shapein).
  { rewrite <- Hsz. apply (value_length st); [exact Hv | lia]. }
  assert (Hrun : forall k : ndarray -> M (store A) ndarray,
            k = (fun x0 => xi <- reshape x0 shapein ;;
                           r <- (y <- py_mul (PyScalar a) xi ;; ret y) ;;
                           reshape r [np_prod shapein]) ->
            k x st = Ok ({| base := length st; arr_shape := [np_prod shapein] |},
                         st ++ [map (times a) xs])).
  { intros k ->.
    erewrite run_bind by (apply reshape_view; [exact Hsh | now rewrite Hsz]).
    rewrite bind_assoc. unfold py_mul. rewrite bind_assoc.
    erewrite run_bind
      by (apply load_value; rewrite <- Hv; now apply value_same_view).
    erewrite run_bind by reflexivity.
    erewrite run_bind by reflexivity.
    apply reshape_view.
    - constructor; [exact Hp | constructor].
    - now rewrite np_prod_single. }
  unfold mul. cbn [np_isscalar negb].
  eexists _, _, _. split; [reflexivity|].
  unfold apply, apply_adjoint, ndoperator; cbn [matvec rmatvec].
  split; [exact (Hrun _ eq_refl)|]. split; [exact (Hrun _ eq_refl)|].
  split; [reflexivity|]. split; [|now apply value_alloc].
  apply value_new. rewrite np_prod_single. unfold zlength in *.
  now rewrite length_map.
Qed.

End DiagFacts.

(** ** mask and decimate, composed *)

Section MaskDecimateFacts.
Context {A : Type} `{Scalar A}.

Lemma fill_fill {X : Type} (bs : list bool) (ys : list X) (v : X) :
  fill bs (fill bs ys v) v = fill bs ys v.
Proof.
  revert ys. induction bs as [|b bs IH]; intros [|y ys]; simpl; auto.
  rewrite IH. now destruct b.
Qed.

Lemma dot_fill (bs : list bool) (xs ys : list A) :
  (forall a, times zero a = zero) -> (forall a, times a zero = zero) ->
  length xs = length bs -> length ys = length bs ->
  dot (fill bs xs zero) ys = dot xs (fill bs ys zero).
Proof.
  intros Hl Hr. revert xs ys.
  induction bs as [|b bs IH]; intros [|x xs] [|y ys] Hx Hy; simpl in *;
    try discriminate; [reflexivity|].
  rewrite IH by lia. destruct b; [now rewrite Hl, Hr | reflexivity].
Qed.

Lemma scatter_select (bs : list bool) (xs : list A) :
  length xs = length bs ->
  scatter (map (fun b => Bool.eqb b false) bs) (repeat zero (length bs))
          (select (map (fun b => Bool.eqb b false) bs) xs)
  = fill (map (fun b => Bool.eqb b true) bs) xs zero.
Proof.
  revert xs. induction bs as [|b bs IH]; intros [|x xs] Hl; simpl in *;
    try discriminate; [reflexivity|].
  destruct b; simpl; now rewrite IH by lia.
Qed.

Lemma mask_value_length (m : boolarray) (x : ndarray) (st : store A) (xs : list A) :
  wf_boolarray m -> value st x = Some xs -> size x = np_prod (bshape m) ->
  length xs = length (bdata m).
Proof.
  intros [Hsh Hlen] Hv Hsz.
  pose proof (np_prod_nonneg _ Hsh) as Hp.
  pose proof (value_length st x xs Hv ltac:(lia)) as Hl.
  unfold zlength in *. lia.
Qed.

(** [mask(m)] is a projection: applying it to its own output gives an
    array with the same elements as that output. *)
Theorem mask_idempotent (m : boolarray) (x : ndarray) (st : store A) (xs : list A) :
  wf_boolarray m -> value st x = Some xs -> size x = np_prod (bshape m) ->
  exists y st1 z st2 ys,
    apply (mask m) x st = Ok (y, st1) /\
    apply (mask m) y st1 = Ok (z, st2) /\
    value st2 y = Some ys /\
    value st2 z = Some ys.
Proof.
  intros Hm Hv Hsz.
  pose proof (mask_value_length m x st xs Hm Hv Hsz) as Hl.
  destruct Hm as [Hsh Hlen]. pose proof (conj Hsh Hlen) as Hm.
  set (ys := fill (bdata (eq_True m)) xs zero).
  assert (Hys : zlength ys = np_prod (bshape m)).
  { unfold ys, zlength. rewrite length_fill. unfold zlength in Hlen. lia. }
  assert (Hy : value (st ++ [ys])
                 {| base := length st; arr_shape := [np_prod (bshape m)] |} = Some ys)
    by (apply value_new; now rewrite np_prod_single).
  eexists _, _, _, _, ys.
  split; [exact (mask_apply_run m x st xs Hm Hv Hsz)|].
  split; [exact (mask_apply_run m _ _ ys Hm Hy (np_prod_single _))|].
  split; [now apply value_alloc|].
  unfold ys at 2. rewrite fill_fill. fold ys.
  replace (length (st ++ [ys])) with (length (st ++ [ys]) + 0)%nat by lia.
  rewrite Nat.add_0_r. apply value_new. now rewrite np_prod_single.
Qed.

(** [mask(m)] is self-adjoint: for [x] and [y] with as many elements as
    the mask, the inner product of [apply(x)] with [y] is the inner product
    of [x] with [apply(y)], in any arithmetic where 0 * a = a * 0 = 0. *)
Theorem mask_self_adjoint (m : boolarray) (x y : ndarray) (st : store A)
    (xs ys : list A) :
  (forall a, times zero a = zero) -> (forall a, times a zero = zero) ->
  wf_boolarray m ->
  value st x = Some xs -> size x = np_prod (bshape m) ->
  value st y = Some ys -> size y = np_prod (bshape m) ->
  exists mx st1 my st2 mxs mys,
    apply (mask m) x st = Ok (mx, st1) /\
    apply (mask m) y st1 = Ok (my, st2) /\
    value st2 mx = Some mxs /\
    value st2 my = Some mys /\
    zlength mxs = zlength ys /\
    zlength mys = zlength xs /\
    dot mxs ys = dot xs mys.
Proof.
  intros Hzl Hzr Hm Hx Hsx Hy Hsy.
  pose proof (mask_value_length m x st xs Hm Hx Hsx) as Hlx.
  pose proof (mask_value_length m y st ys Hm Hy Hsy) as Hly.
  destruct Hm as [Hsh Hlen]. pose proof (conj Hsh Hlen) as Hm.
  set (mxs := fill (bdata (eq_True m)) xs zero).
  set (mys := fill (bdata (eq_True m)) ys zero).
  eexists _, _, _, _, mxs, mys.
  split; [exact (mask_apply_run m x st xs Hm Hx Hsx)|].
  split; [exact (mask_apply_run m y _ ys Hm (value_alloc _ _ _ _ Hy) Hsy)|].
  split; [|split; [|split; [|split]]].
  - apply value_alloc, value_new. rewrite np_prod_single.
    unfold mxs, zlength. rewrite length_fill. unfold zlength in Hlen. lia.
  - apply value_new. rewrite np_prod_single.
    unfold mys, zlength. rewrite length_fill. unfold zlength in Hlen. lia.
  - unfold mxs, zlength. rewrite length_fill. lia.
  - unfold mys, zlength. rewrite length_fill. lia.
  - unfold mxs, mys. apply dot_fill; auto; simpl; now rewrite length_map.
Qed.

(** The adjoint of [decimate(m)] after its forward map is [mask(m)]:
    scattering the selected entries back gives the elements that
    [mask(m).apply] returns on the same input. *)
Theorem decimate_adjoint_apply_is_mask (m : boolarray) (x : ndarray) (st : store A)
    (xs : list A) :
  wf_boolarray m -> value st x = Some xs -> size x = np_prod (bshape m) ->
  exists ax st1 z st2 w st3 zs,
    apply (decimate m) x st = Ok (ax, st1) /\
    apply_adjoint (decimate m) ax st1 = Ok (z, st2) /\
    apply (mask m) x st = Ok (w, st3) /\
    value st2 z = Some zs /\
    value st3 w = Some zs.
Proof.
  intros Hm Hx Hsx.
  pose proof (mask_value_length m x st xs Hm Hx Hsx) as Hlx.
  destruct Hm as [Hsh Hlen]. pose proof (conj Hsh Hlen) as Hm.
  assert (Hsel : zlength (select (bdata (eq_False m)) xs) = np_sum (eq_False m)).
  { apply zlength_select. simpl. now rewrite length_map. }
  assert (Hax : value (st ++ [select (bdata (eq_False m)) xs])
                  {| base := length st; arr_shape := [np_sum (eq_False m)] |}
                = Some (select (bdata (eq_False m)) xs))
    by (apply value_new; now rewrite np_prod_single).
  assert (Hn : Z.to_nat (np_prod (bshape m)) = length (bdata m)).
  { unfold zlength in Hlen. lia. }
  eexists _, _, _, _, _, _, (fill (bdata (eq_True m)) xs zero).
  split; [exact (decimate_apply_run m x st xs Hm Hx Hsx)|].
  split; [exact (decimate_adjoint_run m _ _ _ Hm Hax (np_prod_single _))|].
  split; [exact (mask_apply_run m x st xs Hm Hx Hsx)|].
  split.
  - rewrite Hn. simpl bdata. rewrite scatter_select by exact Hlx.
    apply value_new. rewrite np_prod_single. unfold zlength.
    rewrite length_fill. unfold zlength in Hlen. lia.
  - apply value_new. rewrite np_prod_single. unfold zlength.
    rewrite length_fill. unfold zlength in Hlen. lia.
Qed.

End MaskDecimateFacts.

(** ** eye, as a truncation *)

Section EyeTruncation.
Context {A : Type} `{Scalar A}.

(** [eye((rows, cols))] with rows < cols truncates: on a vector of cols
    elements [apply] returns a view of its first rows elements, in the
    buffer of the input and without changing the store. *)
Theorem eye_apply_truncates (rows cols : Z) (x : ndarray) (st : store A)
    (xs : list A) :
  0 <= rows < cols -> arr_shape x = [cols] -> value st x = Some xs ->
  exists op r,
    eye (rows, cols) = Ok op /\
    apply op x st = Ok (r, st) /\
    base r = base x /\
    arr_shape r = [rows] /\
    value st r = Some (firstn (Z.to_nat rows) xs).
Proof.
  intros Hr Hx Hv. unfold eye. cbn [fst snd].
  destruct (Z.eqb_spec rows cols); [lia|].
  eexists _, _. split; [reflexivity|].
  unfold apply; cbn [matvec]. unfold getitem_slice_stop. rewrite Hx.
  split; [reflexivity|]. split; [reflexivity|].
  unfold slice_stop. destruct (Z.ltb_spec rows 0); [lia|].
  rewrite Z.min_l by lia. split; [reflexivity|].
  unfold value in *. cbn [base size arr_shape].
  destruct (nth_error st (base x)) as [buf|]; [|discriminate].
  unfold size in Hv. rewrite Hx in Hv. rewrite np_prod_single in *.
  destruct (Z.ltb_spec (zlength buf) cols); [discriminate|].
  injection Hv as <-. unfold size. cbn [arr_shape]. rewrite np_prod_single.
  destruct (Z.ltb_spec (zlength buf) rows); [lia|].
  rewrite firstn_firstn. do 2 f_equal. lia.
Qed.

End EyeTruncation.

(** ** binning on a length that is not a multiple *)

Section BinningRaises.
Context {A : Type} `{Scalar A}.

Lemma raises_bind_left {S X Y : Type} (c : M S X) (k : X -> M S Y) (st : S) :
  raises (c st) -> raises (bind c k st).
Proof. intros [e He]. exists e. unfold bind. now rewrite He. Qed.

Lemma norm_index_bound (n i : Z) (k : nat) :
  norm_index n i = Ok k -> Z.of_nat k < n.
Proof.
  unfold norm_index.
  destruct (Z.leb_spec 0 i), (Z.ltb_spec i n), (Z.leb_spec (- n) i),
    (Z.ltb_spec i 0); simpl; intros Hk; try discriminate;
    injection Hk as <-; lia.
Qed.

Lemma norm_index_past_end (n : Z) : 0 <= n -> norm_index n n = Raise IndexError.
Proof.
  intros Hn. unfold norm_index.
  destruct (Z.leb_spec 0 n), (Z.ltb_spec n n), (Z.leb_spec (- n) n),
    (Z.ltb_spec n 0); simpl; try reflexivity; lia.
Qed.

Lemma nth_update_same {X : Type} (k : nat) (v d : X) (l : list X) :
  (k < length l)%nat -> nth k (update k v l) d = v.
Proof.
  revert k. induction l as [|h t IH]; intros [|k] Hk; simpl in *; try lia;
    [reflexivity | apply IH; lia].
Qed.

Lemma np_zeros_shape (sh : list Z) (st st' : store A) (o : ndarray) :
  np_zeros sh st = Ok (o, st') -> arr_shape o = sh.
Proof.
  unfold np_zeros. destruct (existsb (fun d => d <? 0) sh); [discriminate|].
  unfold new_array. intros Ho. now injection Ho as <- _.
Qed.

Lemma bin_not_multiple_raises (arr : ndarray) (factor axis : Z) (k : nat)
    (st : store A) :
  norm_index (ndim arr) axis = Ok k -> 0 < factor ->
  0 <= nth k (arr_shape arr) 0 -> nth k (arr_shape arr) 0 mod factor <> 0 ->
  raises (bin arr factor axis st).
Proof.
  intros Hk Hf Hn Hmod.
  set (n := nth k (arr_shape arr) 0) in *.
  pose proof (norm_index_bound _ _ _ Hk) as Hlt. unfold ndim, zlength in Hlt.
  pose proof (Z.div_mod n factor ltac:(lia)) as Hdm.
  pose proof (Z.mod_pos_bound n factor Hf) as Hmb.
  pose proof (Z.div_pos n factor Hn Hf) as Hq.
  unfold bin, shape_idiv. fold (ndim arr). rewrite Hk. cbn [rbind].
  erewrite run_bind by reflexivity.
  apply raises_bind. intros outarr st1 Hz. apply np_zeros_shape in Hz.
  erewrite run_bind by reflexivity.
  apply raises_bind_left.
  apply for_xrange_raises with (i0 := factor * (n / factor)); [nia|].
  intros st2. unfold py_div. destruct (Z.eqb_spec factor 0); [lia|].
  erewrite run_bind by reflexivity.
  unfold iadd_along. apply raises_bind_left.
  rewrite Hz, nth_update_same by lia. fold n.
  replace (factor * (n / factor) / factor) with (n / factor)
    by (rewrite Z.mul_comm, Z.div_mul; lia).
  rewrite norm_index_past_end by exact Hq. now exists IndexError.
Qed.

(** [binning] does not check that the binned length is a multiple of the
    factor. When shapein[axis] is not a multiple of a positive factor, the
    operator is built, with the quotient rounded down in its shape, and
    every call of [apply] raises: [bin] indexes past the end of its
    output. *)
Theorem binning_not_multiple_raises (shapein : list Z) (factor axis : Z) (k : nat) :
  Forall (fun d => 0 <= d) shapein ->
  norm_index (zlength shapein) axis = Ok k ->
  0 < factor -> nth k shapein 0 mod factor <> 0 ->
  exists op : LinearOperator A,
    binning shapein factor axis = Ok op /\
    shape op = (np_prod (update k (nth k shapein 0 / factor) shapein),
                np_prod shapein) /\
    forall x st, raises (apply op x st).
Proof.
  intros Hsh Hk Hf Hmod.
  assert (Hn : 0 <= nth k shapein 0).
  { pose proof (norm_index_bound _ _ _ Hk) as Hlt. unfold zlength in Hlt.
    rewrite Forall_forall in Hsh. apply Hsh, nth_In. lia. }
  unfold binning, shape_idiv. rewrite Hk. cbn [rbind].
  eexists. split; [reflexivity|]. split; [reflexivity|].
  intros x st. unfold apply, ndoperator; cbn [matvec].
  apply raises_bind. intros xi st1 Hxi.
  apply reshape_known in Hxi; [|exact Hsh]. destruct Hxi as (-> & -> & _).
  apply raises_bind_left.
  now apply bin_not_multiple_raises with (k := k).
Qed.

End BinningRaises.

(** ** Loops that update one array *)

Section Loops.
Context {A : Type} `{Scalar A}.

Lemma length_mapi {X Y : Type} (g : Z -> X -> Y) (l : list X) :
  length (mapi g l) = length l.
Proof.
  unfold mapi. rewrite length_map, length_combine, length_seq. apply Nat.min_id.
Qed.

Lemma nth_mapi_from {X Y : Type} (g : Z -> X -> Y) (l : list X) (s n : nat)
    (d : X) (d' : Y) :
  (n < length l)%nat ->
  nth n (map (fun ix => g (Z.of_nat (fst ix)) (snd ix)) (combine (seq s (length l)) l)) d'
  = g (Z.of_nat (s + n)) (nth n l d).
Proof.
  revert s n. induction l as [|x l IH]; intros s n Hn; simpl in *; [lia|].
  destruct n as [|n].
  - now rewrite Nat.add_0_r.
  - rewrite IH by lia. do 2 f_equal. lia.
Qed.

Lemma znth_mapi {X Y : Type} (g : Z -> X -> Y) (l : list X) (p : Z) (d : X) (d' : Y) :
  0 <= p < zlength l -> znth p (mapi g l) d' = g p (znth p l d).
Proof.
  unfold zlength, znth, mapi. intros Hp.
  rewrite nth_mapi_from with (d := d) by lia.
  rewrite Nat.add_0_l, Z2Nat.id by lia. reflexivity.
Qed.

Lemma list_eq_znth {X : Type} (l l' : list X) (d : X) :
  length l = length l' ->
  (forall p, 0 <= p < zlength l -> znth p l d = znth p l' d) ->
  l = l'.
Proof.
  intros Hl Hp. apply nth_ext with (d := d) (d' := d); [exact Hl|].
  intros n Hn. specialize (Hp (Z.of_nat n)). unfold znth, zlength in Hp.
  rewrite Nat2Z.id in Hp. apply Hp. lia.
Qed.

Lemma lift_Ok {S X : Type} (r : result X) (x : X) (st : S) :
  r = Ok x -> lift r st = Ok (x, st).
Proof. intros ->. reflexivity. Qed.

Lemma value_fresh (st : store A) (a : ndarray) (os : list A) :
  base a = length st -> zlength os = size a -> value (st ++ [os]) a = Some os.
Proof.
  intros Hb Hs.
  rewrite <- (value_new st (arr_shape a) os) by exact Hs.
  apply value_same_view; [exact Hb | reflexivity].
Qed.

Lemma iadd_along_run (outarr arr : ndarray) (k : nat) (i j : Z) (st : store A)
    (os xs : list A) (jn im : nat) :
  base outarr = length st -> zlength os = size outarr ->
  value st arr = Some xs ->
  norm_index (nth k (arr_shape outarr) 0) j = Ok jn ->
  norm_index (nth k (arr_shape arr) 0) i = Ok im ->
  iadd_along outarr k j arr i (st ++ [os]) =
    Ok (tt, st ++ [mapi (fun p o =>
                           if axis_coord (arr_shape outarr) k p =? Z.of_nat jn
                           then plus o (znth (along (arr_shape outarr) k
                                                    (nth k (arr_shape arr) 0)
                                                    p (Z.of_nat im)) xs zero)
                           else o) os]).
Proof.
  intros Hb Hs Hxs Hj Hi. unfold iadd_along.
  erewrite run_bind by (apply lift_Ok; exact Hj).
  erewrite run_bind by (apply load_value; exact (value_fresh st outarr os Hb Hs)).
  erewrite run_bind by (apply lift_Ok; exact Hi).
  erewrite run_bind by (apply load_value; exact (value_alloc st [os] arr xs Hxs)).
  apply write_new; [exact Hb | apply length_mapi].
Qed.

Lemma assign_along_run (outarr arr : ndarray) (k : nat) (i j : Z) (st : store A)
    (os xs : list A) (jn im : nat) :
  base outarr = length st -> zlength os = size outarr ->
  value st arr = Some xs ->
  norm_index (nth k (arr_shape arr) 0) j = Ok jn ->
  norm_index (nth k (arr_shape outarr) 0) i = Ok im ->
  assign_along outarr k i arr j (st ++ [os]) =
    Ok (tt, st ++ [mapi (fun p o =>
                           if axis_coord (arr_shape outarr) k p =? Z.of_nat im
                           then znth (along (arr_shape outarr) k
                                            (nth k (arr_shape arr) 0)
                                            p (Z.of_nat jn)) xs zero
                           else o) os]).
Proof.
  intros Hb Hs Hxs Hj Hi. unfold assign_along.
  erewrite run_bind by (apply lift_Ok; exact Hj).
  erewrite run_bind by (apply load_value; exact (value_alloc st [os] arr xs Hxs)).
  erewrite run_bind by (apply lift_Ok; exact Hi).
  erewrite run_bind by (apply load_value; exact (value_fresh st outarr os Hb Hs)).
  apply write_new; [exact Hb | apply length_mapi].
Qed.

Lemma fold_xrange_run (body : Z -> M (store A) unit) (F : Z -> list A -> list A)
    (st : store A) (l : list nat) (acc : list A) :
  (forall i acc', In i l -> length acc' = length acc ->
     body (Z.of_nat i) (st ++ [acc']) = Ok (tt, st ++ [F (Z.of_nat i) acc'])) ->
  (forall i acc', length (F i acc') = length acc') ->
  fold_right (fun i rest => body (Z.of_nat i) ;;; rest) (ret tt) l (st ++ [acc]) =
    Ok (tt, st ++ [fold_left (fun a i => F (Z.of_nat i) a) l acc]).
Proof.
  intros Hbody HF. revert acc Hbody.
  induction l as [|h l IH]; intros acc Hbody; [reflexivity|].
  cbn [fold_right fold_left].
  erewrite run_bind by (apply Hbody; [now left | reflexivity]).
  apply IH. intros i acc' Hi Hl. apply Hbody; [now right|].
  now rewrite Hl, HF.
Qed.

Lemma for_xrange_run (n : Z) (body : Z -> M (store A) unit)
    (F : Z -> list A -> list A) (st : store A) (acc : list A) :
  (forall i acc', 0 <= i < n -> length acc' = length acc ->
     body i (st ++ [acc']) = Ok (tt, st ++ [F i acc'])) ->
  (forall i acc', length (F i acc') = length acc') ->
  for_xrange n body (st ++ [acc]) =
    Ok (tt, st ++ [fold_left (fun a i => F (Z.of_nat i) a) (seq 0 (Z.to_nat n)) acc]).
Proof.
  intros Hbody HF. unfold for_xrange. apply fold_xrange_run; [|exact HF].
  intros i acc' Hi Hl. apply in_seq in Hi. apply Hbody; [lia | exact Hl].
Qed.

End Loops.

(** ** binning of a vector *)

Section BinningVector.
Context {A : Type} `{Scalar A}.

Lemma axis_coord_vector (q p : Z) : 0 <= p < q -> axis_coord [q] 0 p = p.
Proof.
  intros Hp. unfold axis_coord, inner. cbn [skipn np_prod fold_right nth].
  rewrite Z.div_1_r. apply Z.mod_small. lia.
Qed.

Lemma along_vector (q n p i : Z) : 0 <= p < q -> along [q] 0 n p i = i.
Proof.
  intros Hp. unfold along, inner. cbn [skipn np_prod fold_right nth].
  rewrite Z.mul_1_l, Z.div_small, Z.mod_1_r by lia. lia.
Qed.

Lemma norm_index_in (n i : Z) : 0 <= i < n -> norm_index n i = Ok (Z.to_nat i).
Proof.
  intros Hi. unfold norm_index.
  destruct (Z.leb_spec 0 i), (Z.ltb_spec i n); try lia. reflexivity.
Qed.

Lemma norm_index_last_axis (axis : Z) :
  axis = -1 \/ axis = 0 -> norm_index 1 axis = Ok 0%nat.
Proof. intros [->| ->]; reflexivity. Qed.

(* The update of the output of [bin] at step [i], on a vector. *)
Local Abbreviation bin_step q n factor xs :=
  (fun (i : Z) (acc : list A) =>
     mapi (fun p o =>
             if axis_coord [q] 0 p =? Z.of_nat (Z.to_nat (i / factor))
             then plus o (znth (along [q] 0 n p (Z.of_nat (Z.to_nat i))) xs zero)
             else o) acc).

Lemma bin_vector_run (arr : ndarray) (factor q axis : Z) (st : store A) (xs : list A) :
  0 < factor -> 0 <= q -> axis = -1 \/ axis = 0 ->
  arr_shape arr = [q * factor] -> value st arr = Some xs ->
  bin arr factor axis st =
    Ok ({| base := length st; arr_shape := [q] |},
        st ++ [fold_left (fun a i => bin_step q (q * factor) factor xs (Z.of_nat i) a)
                         (seq 0 (Z.to_nat (q * factor)))
                         (repeat zero (Z.to_nat q))]).
Proof.
  intros Hf Hq Hax Hsh Hxs.
  unfold bin, shape_idiv, ndim. rewrite Hsh. unfold zlength. cbn [length].
  change (Z.of_nat 1) with 1. rewrite (norm_index_last_axis axis Hax).
  cbn [rbind nth update]. rewrite Z.div_mul by lia.
  erewrite run_bind by reflexivity.
  erewrite run_bind
    by (apply np_zeros_run; constructor; [exact Hq | constructor]).
  erewrite run_bind by reflexivity.
  rewrite np_prod_single.
  erewrite run_bind.
  2:{ apply for_xrange_run
        with (F := bin_step q (q * factor) factor xs).
      - intros i acc' Hi Hl. unfold py_div.
        destruct (Z.eqb_spec factor 0); [lia|].
        erewrite run_bind by reflexivity.
        assert (Hj : 0 <= i / factor < q).
        { split; [apply Z.div_pos; lia|].
          apply Z.div_lt_upper_bound; lia. }
        rewrite (iadd_along_run {| base := length st; arr_shape := [q] |} arr 0
                   i (i / factor) st acc' xs (Z.to_nat (i / factor)) (Z.to_nat i)).
        + rewrite Hsh. reflexivity.
        + reflexivity.
        + unfold size, zlength. cbn [arr_shape]. rewrite np_prod_single, Hl.
          rewrite repeat_length. lia.
        + exact Hxs.
        + cbn [arr_shape nth]. now apply norm_index_in.
        + rewrite Hsh. cbn [nth]. now apply norm_index_in.
      - intros i acc'. apply length_mapi. }
  reflexivity.
Qed.

Lemma nth_znth {X : Type} (l : list X) (j : nat) (d : X) :
  nth j l d = znth (Z.of_nat j) l d.
Proof. unfold znth. now rewrite Nat2Z.id. Qed.

Lemma firstn_snoc {X : Type} (l : list X) (k : nat) (d : X) :
  (k < length l)%nat -> firstn (S k) l = firstn k l ++ [nth k l d].
Proof.
  revert k. induction l as [|x l IH]; intros k Hk; simpl in *; [lia|].
  destruct k as [|k]; [reflexivity|]. simpl. f_equal. apply IH. lia.
Qed.

Lemma nth_block (xs : list A) (a f k : nat) (d : A) :
  (k < f)%nat -> nth k (firstn f (skipn a xs)) d = nth (a + k) xs d.
Proof.
  intros Hk. rewrite nth_firstn.
  destruct (Nat.ltb_spec k f); [|lia]. apply nth_skipn.
Qed.

Lemma div_in_block (t f j : nat) :
  (0 < f)%nat ->
  (Z.of_nat j = Z.of_nat t / Z.of_nat f <-> (j * f <= t < j * f + f)%nat).
Proof.
  intros Hf.
  pose proof (Z.div_mod (Z.of_nat t) (Z.of_nat f) ltac:(lia)) as Hdm.
  pose proof (Z.mod_pos_bound (Z.of_nat t) (Z.of_nat f) ltac:(lia)) as Hmb.
  split; intros Hj; nia.
Qed.

Lemma bin_fold_vector (f q : nat) (xs : list A) (t : nat) :
  (0 < f)%nat -> length xs = (q * f)%nat -> (t <= q * f)%nat ->
  let acc := fold_left
               (fun a i => bin_step (Z.of_nat q) (Z.of_nat q * Z.of_nat f)
                                    (Z.of_nat f) xs (Z.of_nat i) a)
               (seq 0 t) (repeat zero q) in
  length acc = q /\
  forall j, (j < q)%nat ->
    nth j acc zero =
    fold_left plus (firstn (t - j * f) (firstn f (skipn (j * f) xs))) zero.
Proof.
  intros Hf Hxs. induction t as [|t IH]; intros Ht acc.
  - subst acc. cbn [seq fold_left]. split; [apply repeat_length|].
    intros j Hj. cbn [Nat.sub firstn fold_left]. apply nth_repeat.
  - subst acc. rewrite seq_S, fold_left_app. cbn [fold_left Nat.add].
    destruct (IH ltac:(lia)) as [Hlen Hnth].
    set (acc := fold_left _ (seq 0 t) (repeat zero q)) in *.
    split; [now rewrite length_mapi|].
    intros j Hj.
    rewrite nth_znth, (znth_mapi _ acc (Z.of_nat j) zero zero)
      by (unfold zlength; lia).
    rewrite <- nth_znth.
    rewrite axis_coord_vector, along_vector by lia.
    rewrite Nat2Z.id, Z2Nat.id by (apply Z.div_pos; lia).
    rewrite Hnth by exact Hj.
    assert (Hblock : length (firstn f (skipn (j * f) xs)) = f).
    { rewrite length_firstn, length_skipn. nia. }
    destruct (Z.eqb_spec (Z.of_nat j) (Z.of_nat t / Z.of_nat f)) as [Heq|Hne].
    + apply div_in_block in Heq; [|exact Hf].
      replace (S t - j * f)%nat with (S (t - j * f)) by lia.
      rewrite (firstn_snoc _ (t - j * f) zero) by lia.
      rewrite fold_left_app. cbn [fold_left]. f_equal.
      rewrite nth_block by lia. unfold znth. rewrite Nat2Z.id. f_equal. lia.
    + assert (Hout : (t < j * f \/ j * f + f <= t)%nat).
      { destruct (Nat.lt_ge_cases t (j * f)) as [|Hge]; [now left|].
        destruct (Nat.lt_ge_cases t (j * f + f)) as [Hlt|]; [|now right].
        exfalso. apply Hne. apply div_in_block; [exact Hf | lia]. }
      destruct Hout as [Hlt|Hge].
      * now replace (S t - j * f)%nat with (t - j * f)%nat by lia.
      * rewrite (firstn_all2 (n := (S t - j * f)%nat)) by lia.
        rewrite (firstn_all2 (n := (t - j * f)%nat)) by lia. reflexivity.
Qed.

Lemma length_block_sums (f : nat) (xs : list A) (q : nat) :
  length (block_sums f xs q) = q.
Proof. revert xs. induction q as [|q IH]; intros xs; simpl; auto. Qed.

Lemma nth_block_sums (f : nat) (xs : list A) (q j : nat) :
  (j < q)%nat ->
  nth j (block_sums f xs q) zero =
  fold_left plus (firstn f (skipn (j * f) xs)) zero.
Proof.
  revert xs j. induction q as [|q IH]; intros xs j Hj; [lia|].
  destruct j as [|j]; [reflexivity|].
  cbn [block_sums nth]. rewrite IH by lia. rewrite skipn_skipn.
  do 3 f_equal. lia.
Qed.

Lemma bin_fold_block_sums (f q : nat) (xs : list A) :
  (0 < f)%nat -> length xs = (q * f)%nat ->
  fold_left
    (fun a i => bin_step (Z.of_nat q) (Z.of_nat q * Z.of_nat f)
                         (Z.of_nat f) xs (Z.of_nat i) a)
    (seq 0 (q * f)) (repeat zero q)
  = block_sums f xs q.
Proof.
  intros Hf Hxs.
  destruct (bin_fold_vector f q xs (q * f) Hf Hxs (Nat.le_refl _)) as [Hlen Hnth].
  apply nth_ext with (d := zero) (d' := zero).
  - now rewrite Hlen, length_block_sums.
  - intros j Hj. rewrite Hlen in Hj.
    rewrite Hnth, nth_block_sums by exact Hj.
    rewrite firstn_all2; [reflexivity|].
    rewrite length_firstn, length_skipn. nia.
Qed.

(* The update of the output of [replicate] at step [i], on a vector. *)
Local Abbreviation replicate_step n m factor xs :=
  (fun (i : Z) (acc : list A) =>
     mapi (fun p o =>
             if axis_coord [n] 0 p =? Z.of_nat (Z.to_nat i)
             then znth (along [n] 0 m p (Z.of_nat (Z.to_nat (i / factor)))) xs zero
             else o) acc).

Lemma replicate_vector_run (arr : ndarray) (factor m axis : Z) (st : store A)
    (xs : list A) :
  0 < factor -> 0 <= m -> axis = -1 \/ axis = 0 ->
  arr_shape arr = [m] -> value st arr = Some xs ->
  replicate arr factor axis st =
    Ok ({| base := length st; arr_shape := [m * factor] |},
        st ++ [fold_left (fun a i => replicate_step (m * factor) m factor xs
                                                      (Z.of_nat i) a)
                         (seq 0 (Z.to_nat (m * factor)))
                         (repeat zero (Z.to_nat (m * factor)))]).
Proof.
  intros Hf Hm Hax Hsh Hxs.
  unfold replicate, shape_imul, ndim. rewrite Hsh. unfold zlength. cbn [length].
  change (Z.of_nat 1) with 1. rewrite (norm_index_last_axis axis Hax).
  cbn [rbind nth update].
  erewrite run_bind by reflexivity.
  erewrite run_bind
    by (apply np_zeros_run; constructor; [nia | constructor]).
  erewrite run_bind by reflexivity.
  rewrite np_prod_single.
  erewrite run_bind.
  2:{ apply for_xrange_run
        with (F := replicate_step (m * factor) m factor xs).
      - intros i acc' Hi Hl. cbn [nth] in Hi. unfold py_div.
        destruct (Z.eqb_spec factor 0); [lia|].
        erewrite run_bind by reflexivity.
        assert (Hj : 0 <= i / factor < m).
        { split; [apply Z.div_pos; lia|].
          apply Z.div_lt_upper_bound; lia. }
        rewrite (assign_along_run {| base := length st; arr_shape := [m * factor] |}
                   arr 0 i (i / factor) st acc' xs
                   (Z.to_nat (i / factor)) (Z.to_nat i)).
        + rewrite Hsh. reflexivity.
        + reflexivity.
        + unfold size, zlength. cbn [arr_shape]. rewrite np_prod_single, Hl.
          rewrite repeat_length. nia.
        + exact Hxs.
        + rewrite Hsh. cbn [nth]. now apply norm_index_in.
        + cbn [arr_shape nth]. now apply norm_index_in.
      - intros i acc'. apply length_mapi. }
  reflexivity.
Qed.

Lemma replicate_fold_vector (f m : nat) (xs : list A) (t : nat) :
  (0 < f)%nat -> (t <= m * f)%nat ->
  let acc := fold_left
               (fun a i => replicate_step (Z.of_nat m * Z.of_nat f) (Z.of_nat m)
                                          (Z.of_nat f) xs (Z.of_nat i) a)
               (seq 0 t) (repeat zero (m * f)) in
  length acc = (m * f)%nat /\
  forall p, (p < m * f)%nat ->
    nth p acc zero = if (p <? t)%nat then nth (p / f) xs zero else zero.
Proof.
  intros Hf. induction t as [|t IH]; intros Ht acc.
  - subst acc. cbn [seq fold_left]. split; [apply repeat_length|].
    intros p Hp. cbn [Nat.ltb Nat.leb]. apply nth_repeat.
  - subst acc. rewrite seq_S, fold_left_app. cbn [fold_left Nat.add].
    destruct (IH ltac:(lia)) as [Hlen Hnth].
    set (acc := fold_left _ (seq 0 t) (repeat zero (m * f))) in *.
    split; [now rewrite length_mapi|].
    intros p Hp.
    rewrite nth_znth, (znth_mapi _ acc (Z.of_nat p) zero zero)
      by (unfold zlength; lia).
    rewrite <- nth_znth.
    rewrite axis_coord_vector, along_vector by nia.
    rewrite Nat2Z.id, Z2Nat.id by (apply Z.div_pos; lia).
    rewrite Hnth by exact Hp.
    destruct (Z.eqb_spec (Z.of_nat p) (Z.of_nat t)) as [Heq|Hne].
    + assert (p = t) by lia. subst p.
      destruct (Nat.ltb_spec t (S t)); [|lia].
      unfold znth. rewrite <- Nat2Z.inj_div, Nat2Z.id. reflexivity.
    + destruct (Nat.ltb_spec p t), (Nat.ltb_spec p (S t)); try lia; reflexivity.
Qed.

Lemma length_repeat_each {X : Type} (f : nat) (ys : list X) :
  length (repeat_each f ys) = (length ys * f)%nat.
Proof.
  unfold repeat_each. induction ys as [|y ys IH]; simpl; [reflexivity|].
  rewrite length_app, repeat_length, IH. lia.
Qed.

Lemma nth_repeat_each {X : Type} (f : nat) (ys : list X) (p : nat) (d : X) :
  (p < length ys * f)%nat ->
  nth p (repeat_each f ys) d = nth (p / f) ys d.
Proof.
  unfold repeat_each. revert p. induction ys as [|y ys IH]; intros p Hp;
    simpl in *; [lia|].
  assert (Hf : (0 < f)%nat) by nia.
  destruct (Nat.lt_ge_cases p f) as [Hlt|Hge].
  - rewrite app_nth1 by (now rewrite repeat_length).
    rewrite Nat.div_small by exact Hlt. apply nth_repeat_lt. exact Hlt.
  - rewrite app_nth2 by (rewrite repeat_length; exact Hge).
    rewrite repeat_length, IH by lia.
    replace p with ((p - f) + 1 * f)%nat at 2 by lia.
    rewrite Nat.div_add by lia. now rewrite Nat.add_1_r.
Qed.

Lemma replicate_fold_repeat_each (f : nat) (xs : list A) :
  (0 < f)%nat ->
  fold_left
    (fun a i => replicate_step (Z.of_nat (length xs) * Z.of_nat f)
                               (Z.of_nat (length xs)) (Z.of_nat f) xs (Z.of_nat i) a)
    (seq 0 (length xs * f)) (repeat zero (length xs * f))
  = repeat_each f xs.
Proof.
  intros Hf.
  destruct (replicate_fold_vector f (length xs) xs (length xs * f) Hf (Nat.le_refl _))
    as [Hlen Hnth].
  apply nth_ext with (d := zero) (d' := zero).
  - now rewrite Hlen, length_repeat_each.
  - intros p Hp. rewrite Hlen in Hp.
    rewrite Hnth, nth_repeat_each by exact Hp.
    destruct (Nat.ltb_spec p (length xs * f)); [reflexivity | lia].
Qed.

Lemma bin_vector_values (arr : ndarray) (factor q axis : Z) (st : store A)
    (xs : list A) :
  0 < factor -> 0 <= q -> axis = -1 \/ axis = 0 ->
  arr_shape arr = [q * factor] -> value st arr = Some xs ->
  bin arr factor axis st =
    Ok ({| base := length st; arr_shape := [q] |},
        st ++ [block_sums (Z.to_nat factor) xs (Z.to_nat q)]).
Proof.
  intros Hf Hq Hax Hsh Hxs.
  assert (Hl : zlength xs = q * factor).
  { rewrite <- (np_prod_single (q * factor)), <- Hsh.
    apply (value_length st); [exact Hxs|]. unfold size. rewrite Hsh, np_prod_single. nia. }
  rewrite (bin_vector_run arr factor q axis st xs Hf Hq Hax Hsh Hxs).
  do 3 f_equal. clear Hsh Hxs.
  destruct (Z_of_nat_complete q Hq) as [qn ->].
  destruct (Z_of_nat_complete factor ltac:(lia)) as [fn ->].
  rewrite <- Nat2Z.inj_mul, !Nat2Z.id, Nat2Z.inj_mul. f_equal.
  apply bin_fold_block_sums; [lia|]. unfold zlength in Hl. nia.
Qed.

Lemma replicate_vector_values (arr : ndarray) (factor axis : Z) (st : store A)
    (xs : list A) :
  0 < factor -> axis = -1 \/ axis = 0 ->
  arr_shape arr = [zlength xs] -> value st arr = Some xs ->
  replicate arr factor axis st =
    Ok ({| base := length st; arr_shape := [zlength xs * factor] |},
        st ++ [repeat_each (Z.to_nat factor) xs]).
Proof.
  intros Hf Hax Hsh Hxs.
  rewrite (replicate_vector_run arr factor (zlength xs) axis st xs Hf
             ltac:(unfold zlength; lia) Hax Hsh Hxs).
  do 3 f_equal. unfold zlength. clear Hsh Hxs.
  destruct (Z_of_nat_complete factor ltac:(lia)) as [fn ->].
  rewrite <- Nat2Z.inj_mul, !Nat2Z.id, Nat2Z.inj_mul. f_equal.
  apply replicate_fold_repeat_each. lia.
Qed.

(** On vectors, [binning((n,), factor)] with [n = q * factor] sums blocks
    and its adjoint repeats: [apply] returns the [q] sums of the successive
    blocks of [factor] elements of its input, and [apply_adjoint] returns
    every element of its input [factor] times in a row. Both return new
    arrays. *)
Theorem binning_vector (factor q axis : Z) (x y : ndarray) (st : store A)
    (xs ys : list A) :
  0 < factor -> 0 <= q -> axis = -1 \/ axis = 0 ->
  value st x = Some xs -> size x = q * factor ->
  value st y = Some ys -> size y = q ->
  exists op bx st1 ry st2,
    binning [q * factor] factor axis = Ok op /\
    shape op = (q, q * factor) /\
    apply op x st = Ok (bx, st1) /\
    arr_shape bx = [q] /\
    value st1 bx = Some (block_sums (Z.to_nat factor) xs (Z.to_nat q)) /\
    apply_adjoint op y st = Ok (ry, st2) /\
    arr_shape ry = [q * factor] /\
    value st2 ry = Some (repeat_each (Z.to_nat factor) ys).
Proof.
  intros Hf Hq Hax Hx Hsx Hy Hsy.
  assert (Hn : 0 <= q * factor) by nia.
  assert (Hly : zlength ys = q).
  { rewrite <- Hsy. apply (value_length st); [exact Hy | lia]. }
  unfold binning, shape_idiv. unfold zlength at 1. cbn [length].
  change (Z.of_nat 1) with 1. rewrite (norm_index_last_axis axis Hax).
  cbn [rbind nth update]. rewrite Z.div_mul by lia.
  eexists _, _, _, _, _. split; [reflexivity|].
  split; [unfold ndoperator; cbn [shape]; now rewrite !np_prod_single|].
  unfold apply, apply_adjoint, ndoperator; cbn [matvec rmatvec].
  rewrite !np_prod_single.
  split; [|split; [|split; [|split; [|split]]]].
  - erewrite run_bind
      by (apply reshape_view;
          [constructor; [exact Hn | constructor] | now rewrite np_prod_single]).
    erewrite run_bind.
    2:{ apply bin_vector_values with (q := q) (xs := xs); auto.
        rewrite <- Hx. apply value_same_view; [reflexivity|].
        unfold size at 1. cbn [arr_shape]. now rewrite np_prod_single. }
    apply reshape_view; [constructor; [exact Hq | constructor] | reflexivity].
  - reflexivity.
  - apply value_new. rewrite np_prod_single. unfold zlength.
    rewrite length_block_sums. lia.
  - erewrite run_bind
      by (apply reshape_view;
          [constructor; [exact Hq | constructor] | now rewrite np_prod_single]).
    erewrite run_bind.
    2:{ apply replicate_vector_values with (xs := ys); auto.
        - cbn [arr_shape]. now rewrite Hly.
        - rewrite <- Hy. apply value_same_view; [reflexivity|].
          unfold size at 1. cbn [arr_shape]. now rewrite np_prod_single. }
    rewrite Hly.
    apply reshape_view; [constructor; [exact Hn | constructor] | reflexivity].
  - reflexivity.
  - apply value_new. rewrite np_prod_single. unfold zlength.
    rewrite length_repeat_each. unfold zlength in Hly. nia.
Qed.

End BinningVector.

(** ** binning as an adjoint pair *)

Section BinningAdjoint.
Context {A : Type} `{Scalar A}.
Variable one : A.
Hypothesis SR : semi_ring_theory zero one plus times eq.

Add Ring scalar_semiring : SR.

Lemma dot_app (a b c d : list A) :
  length a = length c ->
  dot (a ++ b) (c ++ d) = plus (dot a c) (dot b d).
Proof.
  revert c. induction a as [|x a IH]; intros [|y c] Hl; simpl in *;
    try discriminate.
  - ring.
  - rewrite IH by lia. ring.
Qed.

Lemma dot_repeat (b : list A) (y acc : A) :
  times (fold_left plus b acc) y =
  plus (times acc y) (dot b (repeat y (length b))).
Proof.
  revert acc. induction b as [|x b IH]; intros acc; simpl.
  - ring.
  - rewrite IH. ring.
Qed.

Lemma dot_block_sums (f : nat) (xs ys : list A) :
  length xs = (length ys * f)%nat ->
  dot (block_sums f xs (length ys)) ys = dot xs (repeat_each f ys).
Proof.
  revert xs. induction ys as [|y ys IH]; intros xs Hl.
  - destruct xs; [reflexivity | discriminate].
  - cbn [length block_sums dot] in *.
    unfold repeat_each. cbn [flat_map]. fold (repeat_each f ys).
    rewrite <- (firstn_skipn f xs) at 3.
    assert (Hfirst : length (firstn f xs) = f) by (rewrite length_firstn; nia).
    rewrite dot_app by (now rewrite repeat_length).
    rewrite IH by (rewrite length_skipn; nia).
    rewrite dot_repeat, Hfirst. ring.
Qed.

(** On vectors, the two maps of [binning((n,), factor)] are adjoint in
    exact arithmetic: for [x] of [n = q * factor] elements and [y] of [q]
    elements, the inner product of [apply(x)] with [y] is the inner product
    of [x] with [apply_adjoint(y)], in any commutative semiring. *)
Theorem binning_adjoint_pair (factor q axis : Z) (x y : ndarray) (st : store A)
    (xs ys : list A) :
  0 < factor -> 0 <= q -> axis = -1 \/ axis = 0 ->
  value st x = Some xs -> size x = q * factor ->
  value st y = Some ys -> size y = q ->
  exists op bx st1 ry st2 bxs rys,
    binning [q * factor] factor axis = Ok op /\
    apply op x st = Ok (bx, st1) /\
    apply_adjoint op y st1 = Ok (ry, st2) /\
    value st2 bx = Some bxs /\
    value st2 ry = Some rys /\
    zlength bxs = zlength ys /\
    zlength rys = zlength xs /\
    dot bxs ys = dot xs rys.
Proof.
  intros Hf Hq Hax Hx Hsx Hy Hsy.
  assert (Hn : 0 <= q * factor) by nia.
  assert (Hlx : zlength xs = q * factor).
  { rewrite <- Hsx. apply (value_length st); [exact Hx | lia]. }
  assert (Hly : zlength ys = q).
  { rewrite <- Hsy. apply (value_length st); [exact Hy | lia]. }
  unfold binning, shape_idiv. unfold zlength at 1. cbn [length].
  change (Z.of_nat 1) with 1. rewrite (norm_index_last_axis axis Hax).
  cbn [rbind nth update]. rewrite Z.div_mul by lia.
  eexists _, _, _, _, _,
    (block_sums (Z.to_nat factor) xs (Z.to_nat q)),
    (repeat_each (Z.to_nat factor) ys).
  split; [reflexivity|].
  unfold apply, apply_adjoint, ndoperator; cbn [matvec rmatvec].
  rewrite !np_prod_single.
  split; [|split; [|split; [|split; [|split; [|split]]]]].
  - erewrite run_bind
      by (apply reshape_view;
          [constructor; [exact Hn | constructor] | now rewrite np_prod_single]).
    erewrite run_bind.
    2:{ apply bin_vector_values with (q := q) (xs := xs); auto.
        rewrite <- Hx. apply value_same_view; [reflexivity|].
        unfold size at 1. cbn [arr_shape]. now rewrite np_prod_single. }
    apply reshape_view; [constructor; [exact Hq | constructor] | reflexivity].
  - erewrite run_bind
      by (apply reshape_view;
          [constructor; [exact Hq | constructor] | now rewrite np_prod_single]).
    erewrite run_bind.
    2:{ apply replicate_vector_values with (xs := ys); auto.
        - cbn [arr_shape]. now rewrite Hly.
        - apply value_alloc. rewrite <- Hy. apply value_same_view; [reflexivity|].
          unfold size at 1. cbn [arr_shape]. now rewrite np_prod_single. }
    rewrite Hly.
    apply reshape_view; [constructor; [exact Hn | constructor] | reflexivity].
  - apply value_alloc, value_new. rewrite np_prod_single. unfold zlength.
    rewrite length_block_sums. lia.
  - apply value_new. rewrite np_prod_single. unfold zlength.
    rewrite length_repeat_each. unfold zlength in Hly. nia.
  - unfold zlength at 1. rewrite length_block_sums. lia.
  - unfold zlength at 1. rewrite length_repeat_each. unfold zlength in *. nia.
  - replace (Z.to_nat q) with (length ys) by (unfold zlength in Hly; lia).
    apply dot_block_sums. unfold zlength in *. nia.
Qed.

End BinningAdjoint.

(** ** diff *)

Section DiffFacts.
Context {A : Type} `{Scalar A} `{ScalarGroup A}.

Lemma map_zseq_differences (xs : list A) :
  map (fun p => sub (znth (p + 1) xs zero) (znth p xs zero))
      (zseq (Z.max (zlength xs - 1) 0))
  = differences xs.
Proof.
  induction xs as [|x0 xs IH]; [reflexivity|].
  destruct xs as [|x1 xs]; [reflexivity|].
  replace (Z.max (zlength (x0 :: x1 :: xs) - 1) 0) with (Z.of_nat (S (length xs)))
    by (unfold zlength; cbn [length]; lia).
  rewrite map_zseq_succ.
  change (differences (x0 :: x1 :: xs)) with (sub x1 x0 :: differences (x1 :: xs)).
  f_equal.
  rewrite <- IH.
  replace (Z.max (zlength (x1 :: xs) - 1) 0) with (Z.of_nat (length xs))
    by (unfold zlength; cbn [length]; lia).
  apply map_zseq_ext. intros p Hp. now rewrite !znth_succ by lia.
Qed.

Lemma np_diff_vector (x : ndarray) (axis : Z) (st : store A) (xs : list A) :
  axis = -1 \/ axis = 0 ->
  arr_shape x = [zlength xs] -> value st x = Some xs ->
  np_diff x axis st =
    Ok ({| base := length st; arr_shape := [Z.max (zlength xs - 1) 0] |},
        st ++ [differences xs]).
Proof.
  intros Hax Hsh Hxs. unfold np_diff, ndim. rewrite Hsh.
  unfold zlength at 1. cbn [length]. change (Z.of_nat 1) with 1.
  rewrite (norm_index_last_axis axis Hax).
  erewrite run_bind by reflexivity.
  erewrite run_bind by (apply load_value; exact Hxs).
  cbn [nth update]. unfold new_array. do 3 f_equal.
  rewrite np_prod_single, <- map_zseq_differences. f_equal.
  apply map_zseq_ext. intros p Hp.
  now rewrite axis_coord_vector, !along_vector by lia.
Qed.

Lemma length_differences (xs : list A) :
  length (differences xs) = (length xs - 1)%nat.
Proof.
  induction xs as [|x0 xs IH]; [reflexivity|].
  destruct xs as [|x1 xs]; [reflexivity|].
  change (differences (x0 :: x1 :: xs)) with (sub x1 x0 :: differences (x1 :: xs)).
  cbn [length] in *. lia.
Qed.

Lemma block_all (xs : list A) : block xs (0 * (zlength xs * 1)) (zlength xs * 1) = xs.
Proof.
  unfold block, zlength. rewrite Z.mul_1_r, Z.mul_0_l, Nat2Z.id.
  change (Z.to_nat 0) with 0%nat. cbn [skipn]. apply firstn_all.
Qed.

Lemma np_concatenate_padded (border y : ndarray) (axis : Z) (st : store A)
    (ys : list A) :
  axis = -1 \/ axis = 0 ->
  arr_shape border = [1] -> value st border = Some [zero] ->
  arr_shape y = [zlength ys] -> value st y = Some ys ->
  np_concatenate (Arrays [border; y; border]) (AxisInt axis) st =
    Ok ({| base := length st; arr_shape := [zlength (zero :: ys ++ [zero])] |},
        st ++ [zero :: ys ++ [zero]]).
Proof.
  intros Hax Hb Hbv Hy Hyv. unfold np_concatenate, load_all.
  rewrite !bind_assoc.
  erewrite run_bind by (apply load_value; exact Hbv).
  rewrite !bind_assoc.
  erewrite run_bind by (apply load_value; exact Hyv).
  rewrite !bind_assoc.
  erewrite run_bind by (apply load_value; exact Hbv).
  rewrite !bind_assoc.
  erewrite run_bind by reflexivity.
  erewrite run_bind by reflexivity.
  erewrite run_bind by reflexivity.
  erewrite run_bind by reflexivity.
  rewrite Hb, Hy.
  cbn [existsb fst length Nat.eqb orb].
  unfold zlength at 1. cbn [length]. change (Z.of_nat 1) with 1.
  rewrite (norm_index_last_axis axis Hax).
  erewrite run_bind by reflexivity.
  unfold concat_values.
  cbn [Nat.ltb Nat.leb length forallb fst snd update andb].
  rewrite !shape_eqb_refl. cbn [andb].
  erewrite run_bind by reflexivity.
  unfold new_array. cbn [fst snd]. do 3 f_equal.
  - cbn [map fst nth fold_right]. f_equal. unfold zlength.
    cbn [length]. rewrite length_app. cbn [length]. lia.
  - f_equal. cbn [firstn np_prod fold_right]. unfold zseq.
    change (Z.to_nat 1) with 1%nat. cbn [seq map flat_map fst snd nth].
    unfold inner. cbn [skipn np_prod fold_right].
    change (Z.of_nat 0) with 0.
    rewrite (block_all ys).
    change 1 with (zlength [zero] * 1) at 1 2 3 4.
    rewrite !(block_all [zero]). now rewrite !app_nil_r.
Qed.

Lemma np_negative_run (d : ndarray) (st : store A) (ds : list A) :
  value st d = Some ds ->
  np_negative d st =
    Ok ({| base := length st; arr_shape := arr_shape d |}, st ++ [map neg ds]).
Proof.
  intros Hd. unfold np_negative.
  erewrite run_bind by (apply load_value; exact Hd). reflexivity.
Qed.

Lemma zlength_differences (xs : list A) :
  zlength (differences xs) = Z.max (zlength xs - 1) 0.
Proof. unfold zlength. rewrite length_differences. lia. Qed.

Lemma diff_apply_run (n axis : Z) (x : ndarray) (st : store A) (xs : list A)
    (op : LinearOperator A) :
  1 <= n -> axis = -1 \/ axis = 0 ->
  value st x = Some xs -> size x = n ->
  diff [n] axis = Ok op ->
  apply op x st =
    Ok ({| base := length st; arr_shape := [n - 1] |}, st ++ [differences xs]).
Proof.
  intros Hn Hax Hx Hsx Hop.
  assert (Hlx : zlength xs = n).
  { rewrite <- Hsx. apply (value_length st); [exact Hx | lia]. }
  unfold diff, shape_isub in Hop. unfold zlength at 1 in Hop. cbn [length] in Hop.
  change (Z.of_nat 1) with 1 in Hop. rewrite (norm_index_last_axis axis Hax) in Hop.
  cbn [rbind nth update] in Hop. injection Hop as <-.
  unfold apply, ndoperator; cbn [matvec]. rewrite !np_prod_single.
  erewrite run_bind
    by (apply reshape_view;
        [constructor; [lia | constructor] | now rewrite np_prod_single]).
  erewrite run_bind.
  2:{ apply np_diff_vector with (xs := xs); [exact Hax | |].
      - cbn [arr_shape]. now rewrite Hlx.
      - rewrite <- Hx. apply value_same_view; [reflexivity|].
        unfold size at 1. cbn [arr_shape]. now rewrite np_prod_single. }
  rewrite Hlx, Z.max_l by lia.
  apply reshape_view; [constructor; [lia | constructor] | reflexivity].
Qed.

Lemma diff_adjoint_run (n axis : Z) (y : ndarray) (st : store A) (ys : list A)
    (op : LinearOperator A) :
  1 <= n -> axis = -1 \/ axis = 0 ->
  value st y = Some ys -> size y = n - 1 ->
  diff [n] axis = Ok op ->
  exists st',
    apply_adjoint op y st =
      Ok ({| base := S (S (S (length st))); arr_shape := [n] |},
          st' ++ [map neg (differences (zero :: ys ++ [zero]))]) /\
    length st' = S (S (S (length st))) /\
    forall a vs, value st a = Some vs -> value st' a = Some vs.
Proof.
  intros Hn Hax Hy Hsy Hop.
  assert (Hly : zlength ys = n - 1).
  { rewrite <- Hsy. apply (value_length st); [exact Hy | lia]. }
  set (padded := zero :: ys ++ [zero]).
  assert (Hlp : zlength padded = n + 1).
  { unfold padded, zlength in *. cbn [length]. rewrite length_app. cbn [length]. lia. }
  unfold diff, shape_isub in Hop. unfold zlength at 1 in Hop. cbn [length] in Hop.
  change (Z.of_nat 1) with 1 in Hop. rewrite (norm_index_last_axis axis Hax) in Hop.
  cbn [rbind nth update] in Hop. injection Hop as <-.
  exists (((st ++ [[zero]]) ++ [padded]) ++ [differences padded]).
  split; [|split].
  - unfold apply_adjoint, ndoperator; cbn [rmatvec]. rewrite !np_prod_single.
    erewrite run_bind
      by (apply reshape_view;
          [constructor; [lia | constructor] | now rewrite np_prod_single]).
    rewrite bind_assoc. cbn [arr_shape].
    unfold list_setitem. unfold zlength at 1. cbn [length].
    change (Z.of_nat 1) with 1. rewrite (norm_index_last_axis axis Hax).
    cbn [rbind update].
    erewrite run_bind by reflexivity.
    rewrite bind_assoc.
    erewrite run_bind
      by (apply np_zeros_run; constructor; [lia | constructor]).
    change (repeat zero (Z.to_nat (np_prod [1]))) with [zero].
    rewrite bind_assoc.
    erewrite run_bind.
    2:{ apply np_concatenate_padded with (ys := ys); [exact Hax | reflexivity | | |].
        - apply value_new. reflexivity.
        - cbn [arr_shape]. now rewrite Hly.
        - apply value_alloc. rewrite <- Hy. apply value_same_view; [reflexivity|].
          unfold size at 1. cbn [arr_shape]. now rewrite np_prod_single. }
    fold padded. rewrite bind_assoc.
    erewrite run_bind.
    2:{ apply np_diff_vector with (xs := padded); [exact Hax | reflexivity |].
        apply value_new. now rewrite np_prod_single. }
    erewrite run_bind.
    2:{ apply np_negative_run with (ds := differences padded).
        apply value_new. rewrite np_prod_single. apply zlength_differences. }
    cbn [arr_shape]. rewrite Hlp.
    replace (Z.max (n + 1 - 1) 0) with n by lia.
    rewrite !length_app. cbn [length].
    replace (length st + 1 + 1 + 1)%nat with (S (S (S (length st)))) by lia.
    apply reshape_view; [constructor; [lia | constructor] | reflexivity].
  - rewrite !length_app. cbn [length]. lia.
  - intros a vs Ha. now do 3 apply value_alloc.
Qed.

Lemma diff_vector_operator (n axis : Z) :
  axis = -1 \/ axis = 0 ->
  exists op : LinearOperator A, diff [n] axis = Ok op /\ shape op = (n - 1, n).
Proof.
  intros Hax. unfold diff, shape_isub. unfold zlength at 1. cbn [length].
  change (Z.of_nat 1) with 1. rewrite (norm_index_last_axis axis Hax).
  cbn [rbind nth update]. eexists. split; [reflexivity|].
  unfold ndoperator; cbn [shape]. now rewrite !np_prod_single.
Qed.

(** On vectors, [diff((n,))] with [n >= 1] takes successive differences:
    the operator has shape (n - 1, n), [apply] returns the [n - 1]
    differences [x[i+1] - x[i]], and [apply_adjoint] returns the [n]
    negated differences of its input put between two zeros. *)
Theorem diff_vector (n axis : Z) (x y : ndarray) (st : store A) (xs ys : list A) :
  1 <= n -> axis = -1 \/ axis = 0 ->
  value st x = Some xs -> size x = n ->
  value st y = Some ys -> size y = n - 1 ->
  exists op dx st1 ay st2,
    diff [n] axis = Ok op /\
    shape op = (n - 1, n) /\
    apply op x st = Ok (dx, st1) /\
    arr_shape dx = [n - 1] /\
    value st1 dx = Some (differences xs) /\
    apply_adjoint op y st = Ok (ay, st2) /\
    arr_shape ay = [n] /\
    value st2 ay = Some (map neg (differences (zero :: ys ++ [zero]))).
Proof.
  intros Hn Hax Hx Hsx Hy Hsy.
  destruct (diff_vector_operator n axis Hax) as (op & Hop & Hshape).
  destruct (diff_adjoint_run n axis y st ys op Hn Hax Hy Hsy Hop)
    as (st' & Hadj & Hlen & _).
  assert (Hlx : zlength xs = n).
  { rewrite <- Hsx. apply (value_length st); [exact Hx | lia]. }
  assert (Hly : zlength ys = n - 1).
  { rewrite <- Hsy. apply (value_length st); [exact Hy | lia]. }
  exists op. eexists _, _, _, _.
  split; [exact Hop|]. split; [exact Hshape|].
  split; [exact (diff_apply_run n axis x st xs op Hn Hax Hx Hsx Hop)|].
  split; [reflexivity|]. split; [|split; [exact Hadj|split; [reflexivity|]]].
  - apply value_new. rewrite np_prod_single, zlength_differences. lia.
  - rewrite <- Hlen. apply value_new.
    rewrite np_prod_single. unfold zlength. rewrite length_map.
    fold (zlength (differences (zero :: ys ++ [zero]))).
    rewrite zlength_differences. unfold zlength in *. cbn [length].
    rewrite length_app. cbn [length]. lia.
Qed.

End DiffFacts.

Section DiffAdjoint.
Context {A : Type} `{Scalar A} `{ScalarGroup A}.
Variable one : A.
Hypothesis R : ring_theory zero one plus times sub neg eq.

Add Ring scalar_ring : R.

Lemma dot_cons (x y : A) (xs ys : list A) :
  dot (x :: xs) (y :: ys) = plus (times x y) (dot xs ys).
Proof. reflexivity. Qed.

Lemma dot_differences (xs ys : list A) (x0 c : A) :
  length xs = length ys ->
  dot (x0 :: xs) (map neg (differences (c :: ys ++ [zero]))) =
  plus (dot (differences (x0 :: xs)) ys) (times x0 c).
Proof.
  revert xs x0 c. induction ys as [|y ys IH]; intros [|x1 xs] x0 c Hl;
    try discriminate.
  - simpl. ring.
  - change (differences (c :: (y :: ys) ++ [zero]))
      with (sub y c :: differences (y :: ys ++ [zero])).
    change (differences (x0 :: x1 :: xs))
      with (sub x1 x0 :: differences (x1 :: xs)).
    rewrite map_cons, !dot_cons. rewrite IH by (simpl in Hl; lia). ring.
Qed.

(** On vectors, the two maps of [diff((n,))] are adjoint in exact
    arithmetic: for [x] of [n >= 1] elements and [y] of [n - 1] elements,
    the inner product of [apply(x)] with [y] is the inner product of [x]
    with [apply_adjoint(y)], in any commutative ring. *)
Theorem diff_adjoint_pair (n axis : Z) (x y : ndarray) (st : store A)
    (xs ys : list A) :
  1 <= n -> axis = -1 \/ axis = 0 ->
  value st x = Some xs -> size x = n ->
  value st y = Some ys -> size y = n - 1 ->
  exists op dx st1 ay st2 dxs ays,
    diff [n] axis = Ok op /\
    apply op x st = Ok (dx, st1) /\
    apply_adjoint op y st1 = Ok (ay, st2) /\
    value st2 dx = Some dxs /\
    value st2 ay = Some ays /\
    zlength dxs = zlength ys /\
    zlength ays = zlength xs /\
    dot dxs ys = dot xs ays.
Proof.
  intros Hn Hax Hx Hsx Hy Hsy.
  destruct (diff_vector_operator n axis Hax) as (op & Hop & _).
  pose proof (diff_apply_run n axis x st xs op Hn Hax Hx Hsx Hop) as Happ.
  destruct (diff_adjoint_run n axis y (st ++ [differences xs]) ys op Hn Hax
              (value_alloc _ _ _ _ Hy) Hsy Hop)
    as (st' & Hadj & Hlen & Hkeep).
  assert (Hlx : zlength xs = n).
  { rewrite <- Hsx. apply (value_length st); [exact Hx | lia]. }
  assert (Hly : zlength ys = n - 1).
  { rewrite <- Hsy. apply (value_length st); [exact Hy | lia]. }
  exists op. eexists _, _, _, _, (differences xs),
    (map neg (differences (zero :: ys ++ [zero]))).
  split; [exact Hop|]. split; [exact Happ|]. split; [exact Hadj|].
  assert (Hla : zlength (map neg (differences (zero :: ys ++ [zero]))) = n).
  { unfold zlength. rewrite length_map.
    fold (zlength (differences (zero :: ys ++ [zero]))).
    rewrite zlength_differences. unfold zlength in *. cbn [length].
    rewrite length_app. cbn [length]. lia. }
  split; [|split; [|split; [|split]]].
  - apply value_alloc, Hkeep, value_new.
    rewrite np_prod_single, zlength_differences. lia.
  - rewrite <- Hlen. apply value_new.
    rewrite np_prod_single. exact Hla.
  - rewrite zlength_differences. lia.
  - rewrite Hla. lia.
  - destruct xs as [|x0 xs]; [unfold zlength in Hlx; simpl in Hlx; lia|].
    rewrite dot_differences
      by (unfold zlength in *; cbn [length] in Hlx; lia).
    ring.
Qed.

End DiffAdjoint.

(** ** convolve and fft2 *)

Section ConvolveFacts.
Context {A : Type} `{Scalar A} {E : External A}.

(** [convolve] knows three modes. Any other mode leaves shapeout unbound
    and the call raises UnboundLocalError; mode 'full' gives
    shape[0] = prod(s + ks - 1), and mode 'same' a square operator. *)
Theorem convolve_modes (shapein : list Z) (kernel : ndarray) :
  (forall mode,
     convolve shapein kernel mode = Raise UnboundLocalError <->
     mode <> "full"%string /\ mode <> "valid"%string /\ mode <> "same"%string) /\
  (exists op,
     convolve shapein kernel "full"%string = Ok op /\
     shape op =
       (np_prod (map (fun p => fst p + snd p - 1) (combine shapein (arr_shape kernel))),
        np_prod shapein)) /\
  (exists op,
     convolve shapein kernel "same"%string = Ok op /\
     shape op = (np_prod shapein, np_prod shapein)).
Proof.
  split; [|split; eexists; split; reflexivity].
  intros mode. unfold convolve.
  destruct (String.eqb_spec mode "full"%string) as [->|Hf]; [cbn; split; [discriminate | tauto]|].
  destruct (String.eqb_spec mode "valid"%string) as [->|Hv]; [cbn; split; [discriminate | tauto]|].
  destruct (String.eqb_spec mode "same"%string) as [->|Hs]; [cbn; split; [discriminate | tauto]|].
  split; [auto | reflexivity].
Qed.

Lemma call2_run (f : arrval A -> arrval A -> result (arrval A)) (x k : ndarray)
    (st : store A) (xs ks : list A) (v : arrval A) :
  value st x = Some xs -> value st k = Some ks ->
  f (arr_shape x, xs) (arr_shape k, ks) = Ok v ->
  call2 f x k st = Ok ({| base := length st; arr_shape := fst v |}, st ++ [snd v]).
Proof.
  intros Hx Hk Hf. unfold call2.
  erewrite run_bind by (apply load_value; exact Hx).
  erewrite run_bind by (apply load_value; exact Hk).
  unfold bind, lift. rewrite Hf. reflexivity.
Qed.

(** The operator that [convolve] builds for mode 'valid' cannot be applied
    to vectors: when scipy returns the [s - ks + 1] entries of the valid
    convolution of [s] and [ks < s] entries, they do not fit the declared
    [s - ks - 1] rows and [apply] raises ValueError. *)
Theorem convolve_valid_apply_raises (s ks : Z) (kernel x : ndarray) (st : store A)
    (xs kvals w : list A) :
  1 <= ks < s ->
  arr_shape kernel = [ks] -> value st kernel = Some kvals ->
  value st x = Some xs -> size x = s ->
  signal_convolve ([s], xs) ([ks], kvals) "valid"%string = Ok ([s - ks + 1], w) ->
  exists op,
    convolve [s] kernel "valid"%string = Ok op /\
    fst (shape op) = s - ks - 1 /\
    apply op x st = Raise ValueError.
Proof.
  intros Hks Hk Hkv Hx Hsx Hconv.
  unfold convolve. cbn [String.eqb Ascii.eqb Bool.eqb].
  rewrite Hk. cbn [combine map fst snd].
  eexists. split; [reflexivity|].
  split; [unfold ndoperator; cbn [shape fst]; apply np_prod_single|].
  unfold apply, ndoperator; cbn [matvec]. rewrite !np_prod_single.
  erewrite run_bind
    by (apply reshape_view;
        [constructor; [lia | constructor] | now rewrite np_prod_single]).
  erewrite run_bind.
  2:{ apply call2_run with (xs := xs) (ks := kvals) (v := ([s - ks + 1], w)).
      - rewrite <- Hx. apply value_same_view; [reflexivity|].
        unfold size at 1. cbn [arr_shape]. now rewrite np_prod_single.
      - exact Hkv.
      - cbn [arr_shape]. rewrite Hk. exact Hconv. }
  apply reshape_wrong_size.
  - constructor; [lia | constructor].
  - unfold size. cbn [arr_shape fst]. rewrite !np_prod_single. lia.
Qed.

(** [fft2] round trip: on a shape of two axes, when numpy's [ifftn]
    inverts numpy's [fftn] over the given axes on the arrays of that
    shape, [apply_adjoint(apply(x))] holds the elements of [x]. *)
Theorem fft2_round_trip (shapein : list Z) (axes : option (list Z)) (x : ndarray)
    (st : store A) (xs : list A) :
  length shapein = 2%nat ->
  Forall (fun d => 0 <= d) shapein ->
  (forall v, zlength v = np_prod shapein ->
     exists w, np_fft_fftn (shapein, v) None axes = Ok (shapein, w) /\
               zlength w = np_prod shapein /\
               np_fft_ifftn (shapein, w) None axes = Ok (shapein, v)) ->
  value st x = Some xs -> size x = np_prod shapein ->
  exists op y st1 z st2,
    fft2 shapein None axes = Ok op /\
    apply op x st = Ok (y, st1) /\
    apply_adjoint op y st1 = Ok (z, st2) /\
    value st2 z = Some xs /\
    size z = size x.
Proof.
  intros Hlen Hsh Hinv Hx Hsz.
  pose proof (np_prod_nonneg _ Hsh) as Hp.
  assert (Hxs : zlength xs = np_prod shapein).
  { rewrite <- Hsz. apply (value_length st); [exact Hx | lia]. }
  destruct (Hinv xs Hxs) as (w & Hfw & Hw & Hbw).
  assert (Hone : Forall (fun d => 0 <= d) [np_prod shapein])
    by (constructor; [exact Hp | constructor]).
  assert (Hy : value (st ++ [w])
                 {| base := length st; arr_shape := [np_prod shapein] |} = Some w)
    by (apply value_new; now rewrite np_prod_single).
  unfold fft2. rewrite Hlen. cbn [Nat.eqb negb].
  eexists _, _, _, _, _. split; [reflexivity|].
  unfold apply, apply_adjoint, ndoperator; cbn [matvec rmatvec].
  split; [|split; [|split]].
  - erewrite run_bind by (apply reshape_view; [exact Hsh | now rewrite Hsz]).
    erewrite run_bind.
    2:{ apply call1_run with (xs := xs) (v := (shapein, w)).
        - rewrite <- Hx. now apply value_same_view.
        - exact Hfw. }
    apply reshape_view; [exact Hone | apply np_prod_single].
  - erewrite run_bind
      by (apply reshape_view; [exact Hsh | symmetry; apply np_prod_single]).
    erewrite run_bind.
    2:{ apply call1_run with (xs := w) (v := (shapein, xs)).
        - rewrite <- Hy. apply value_same_view; [reflexivity|].
          symmetry. apply np_prod_single.
        - exact Hbw. }
    apply reshape_view; [exact Hone | apply np_prod_single].
  - cbn [fst snd]. apply value_new. now rewrite np_prod_single.
  - unfold size at 1. cbn [arr_shape]. now rewrite np_prod_single.
Qed.

End ConvolveFacts.

(** ** binning after its adjoint *)

Section BinningCompose.
Context {A : Type} `{Scalar A}.

Lemma block_sums_repeat_each (f : nat) (ys : list A) :
  block_sums f (repeat_each f ys) (length ys)
  = map (fun v => fold_left plus (repeat v f) zero) ys.
Proof.
  unfold repeat_each. induction ys as [|y ys IH]; [reflexivity|].
  cbn [length block_sums flat_map map].
  rewrite firstn_app, skipn_app, repeat_length, Nat.sub_diag.
  rewrite firstn_all2, skipn_all2 by (rewrite repeat_length; lia).
  cbn [firstn skipn app]. rewrite app_nil_r, IH. reflexivity.
Qed.

Lemma binning_vector_operator (factor q axis : Z) :
  0 < factor -> axis = -1 \/ axis = 0 ->
  binning (A:=A) [q * factor] factor axis =
    Ok (ndoperator [q * factor] [q]
          (fun x => bin x factor axis) (Some (fun x => replicate x factor axis))).
Proof.
  intros Hf Hax. unfold binning, shape_idiv. unfold zlength. cbn [length].
  change (Z.of_nat 1) with 1. rewrite (norm_index_last_axis axis Hax).
  cbn [rbind nth update]. now rewrite Z.div_mul by lia.
Qed.

(** On vectors, [binning] after its own adjoint adds every entry to itself
    [factor] times: for [y] of [q] elements, [apply(apply_adjoint(y))]
    holds, for each [y[i]], the sum of [factor] copies of it. *)
Theorem binning_apply_after_adjoint (factor q axis : Z) (y : ndarray)
    (st : store A) (ys : list A) :
  0 < factor -> 0 <= q -> axis = -1 \/ axis = 0 ->
  value st y = Some ys -> size y = q ->
  exists op ry st1 bx st2,
    binning [q * factor] factor axis = Ok op /\
    apply_adjoint op y st = Ok (ry, st1) /\
    apply op ry st1 = Ok (bx, st2) /\
    arr_shape bx = [q] /\
    value st2 bx =
      Some (map (fun v => fold_left plus (repeat v (Z.to_nat factor)) zero) ys).
Proof.
  intros Hf Hq Hax Hy Hsy.
  assert (Hn : 0 <= q * factor) by nia.
  assert (Hly : zlength ys = q).
  { rewrite <- Hsy. apply (value_length st); [exact Hy | lia]. }
  set (rs := repeat_each (Z.to_nat factor) ys).
  assert (Hlr : zlength rs = q * factor).
  { unfold rs, zlength. rewrite length_repeat_each. unfold zlength in Hly. nia. }
  rewrite (binning_vector_operator factor q axis Hf Hax).
  eexists _, _, _, _, _. split; [reflexivity|].
  unfold apply, apply_adjoint, ndoperator; cbn [matvec rmatvec].
  rewrite !np_prod_single.
  split; [|split; [|split]].
  - erewrite run_bind
      by (apply reshape_view;
          [constructor; [exact Hq | constructor] | now rewrite np_prod_single]).
    erewrite run_bind.
    2:{ apply replicate_vector_values with (xs := ys); auto.
        - cbn [arr_shape]. now rewrite Hly.
        - rewrite <- Hy. apply value_same_view; [reflexivity|].
          unfold size at 1. cbn [arr_shape]. now rewrite np_prod_single. }
    rewrite Hly. fold rs.
    apply reshape_view; [constructor; [exact Hn | constructor] | reflexivity].
  - erewrite run_bind
      by (apply reshape_view;
          [constructor; [exact Hn | constructor] | reflexivity]).
    erewrite run_bind.
    2:{ apply bin_vector_values with (q := q) (xs := rs); auto.
        apply value_new. now rewrite np_prod_single. }
    apply reshape_view; [constructor; [exact Hq | constructor] | reflexivity].
  - reflexivity.
  - unfold rs.
    replace (Z.to_nat q) with (length ys) by (unfold zlength in Hly; lia).
    rewrite block_sums_repeat_each.
    rewrite length_app. cbn [length].
    replace (length st + 1)%nat with (length (st ++ [rs])) by (now rewrite length_app).
    apply value_new. rewrite np_prod_single. unfold zlength.
    rewrite length_map. unfold zlength in Hly. lia.
Qed.

End BinningCompose.

(** ** eigen_operator *)

Section EigenFacts.
Context {A : Type} `{Scalar A}.

Lemma fold_right_map {X Y Z' : Type} (f : Y -> Z' -> Z') (g : X -> Y) (z : Z')
    (l : list X) :
  fold_right f z (map g l) = fold_right (fun x acc => f (g x) acc) z l.
Proof. induction l as [|x l IH]; simpl; [reflexivity | now rewrite IH]. Qed.

Lemma fold_right_ext_in {X Y : Type} (f g : X -> Y -> Y) (z : Y) (l : list X) :
  (forall x acc, In x l -> f x acc = g x acc) ->
  fold_right f z l = fold_right g z l.
Proof.
  induction l as [|x l IH]; intros Hfg; [reflexivity|].
  cbn [fold_right]. rewrite IH by (intros y acc Hy; apply Hfg; now right).
  apply Hfg. now left.
Qed.

Lemma zseq_succ (n : nat) :
  zseq (Z.of_nat (S n)) = 0 :: map (fun p => p + 1) (zseq (Z.of_nat n)).
Proof.
  rewrite <- (map_id (zseq (Z.of_nat (S n)))), (map_zseq_succ (fun p => p) n).
  reflexivity.
Qed.

Lemma fold_zseq_dot (xs vi : list A) :
  length xs = length vi ->
  fold_right (fun k acc => plus (times (znth k xs zero) (znth k vi zero)) acc)
             zero (zseq (zlength xs))
  = dot xs vi.
Proof.
  revert vi. induction xs as [|x xs IH]; intros [|b vi] Hl; try discriminate;
    [reflexivity|].
  unfold zlength. cbn [length]. rewrite zseq_succ. cbn [fold_right dot].
  f_equal. rewrite fold_right_map, <- (IH vi) by (simpl in Hl; lia).
  unfold zlength, zseq. rewrite !fold_right_map.
  apply fold_right_ext_in. intros k acc Hk. apply in_seq in Hk.
  now rewrite !znth_succ by lia.
Qed.

Lemma dot_T_vector (xs vi : list A) :
  length xs = length vi ->
  dot_T ([zlength xs], xs) vi = Ok ([], [dot xs vi]).
Proof.
  intros Hl. unfold dot_T. cbn [fst snd].
  replace (zlength vi) with (zlength xs) by (unfold zlength; lia).
  rewrite Z.eqb_refl. cbn [rev np_prod fold_right].
  change (zseq 1) with [0]. cbn [map].
  do 3 f_equal. rewrite <- fold_zseq_dot by exact Hl.
  unfold zseq. rewrite !fold_right_map.
  apply fold_right_ext_in. intros k acc Hk.
  unfold transpose_index, ravel. cbn [unravel_rev combine fold_left].
  now rewrite Z.mul_1_r, Z.add_0_r.
Qed.

Lemma dot_T_vector_mismatch (n : Z) (xs vi : list A) :
  zlength vi <> n -> dot_T ([n], xs) vi = Raise ValueError.
Proof.
  intros Hne. unfold dot_T. cbn [fst].
  destruct (Z.eqb_spec n (zlength vi)); [congruence | reflexivity].
Qed.

Lemma map_znth_zseq {Y : Type} (f : A -> Y) (l : list A) :
  map (fun p => f (znth p l zero)) (zseq (zlength l)) = map f l.
Proof.
  induction l as [|x l IH]; [reflexivity|].
  unfold zlength. cbn [length]. rewrite map_zseq_succ. cbn [map]. f_equal.
  rewrite <- IH. apply map_zseq_ext. intros p Hp. now rewrite znth_succ by lia.
Qed.

Lemma eigen_term_scalar (c ei : A) (vi : list A) :
  eigen_term ([], [c]) ei vi =
    Ok ([zlength vi], map (fun b => times (times c ei) b) vi).
Proof.
  unfold eigen_term, multiply_values. cbn [fst snd map].
  unfold broadcast_shapes. cbn [rev app broadcast_rev rbind].
  rewrite np_prod_single. do 2 f_equal.
  rewrite <- (map_znth_zseq (fun b => times (times c ei) b) vi).
  apply map_zseq_ext. intros p Hp.
  rewrite broadcast_index_same by exact Hp. reflexivity.
Qed.

Lemma collect_map {X Y : Type} (f : X -> result Y) (g : X -> Y) (l : list X) :
  (forall x, In x l -> f x = Ok (g x)) -> collect f l = Ok (map g l).
Proof.
  induction l as [|x l IH]; intros Hf; [reflexivity|].
  cbn [collect map]. rewrite Hf by (now left). cbn [rbind].
  rewrite IH by (intros y Hy; apply Hf; now right). reflexivity.
Qed.

Lemma collect_raises {X Y : Type} (f : X -> result Y) (e : exn) (l : list X) :
  (forall x, In x l -> (exists y, f x = Ok y) \/ f x = Raise e) ->
  (exists x, In x l /\ f x = Raise e) ->
  collect f l = Raise e.
Proof.
  induction l as [|x l IH]; intros Hall [x0 [Hin Hx0]]; [destruct Hin|].
  cbn [collect].
  destruct (Hall x (or_introl eq_refl)) as [[y Hy]|Hr]; [|now rewrite Hr].
  rewrite Hy. cbn [rbind].
  destruct Hin as [->|Hin]; [congruence|].
  rewrite IH; [reflexivity | | now exists x0].
  intros z Hz. apply Hall. now right.
Qed.

Lemma combine_map_l {X Y Z' : Type} (g : X -> Y) (v : list X) (e : list Z') :
  combine (map g v) (combine e v) =
  map (fun ev => (g (snd ev), ev)) (combine e v).
Proof.
  revert e. induction v as [|x v IH]; intros [|a e]; try reflexivity.
  cbn [map combine]. now rewrite IH.
Qed.

Lemma in_combine_vectors (e : list A) (v : list (list A)) (ev : A * list A) (n : Z) :
  Forall (fun vi => zlength vi = n) v -> In ev (combine e v) -> zlength (snd ev) = n.
Proof.
  intros Hall Hin. destruct ev as [a vi]. apply in_combine_r in Hin.
  rewrite Forall_forall in Hall. now apply Hall.
Qed.

Lemma sum_axis0_vectors (n : Z) (t0 : list A) (ts : list (list A)) :
  fold_left (fun acc t' => rbind acc (fun a => add_values a t'))
            (map (fun t => ([n], t)) ts) (Ok ([n], t0))
  = Ok ([n], fold_left add_vectors ts t0).
Proof.
  revert t0. induction ts as [|t ts IH]; intros t0; [reflexivity|].
  cbn [map fold_left rbind]. unfold add_values at 2. cbn [fst snd].
  rewrite shape_eqb_refl. apply IH.
Qed.

Lemma eigen_matvec_run (shape : Z * Z) (e : list A) (v : list (list A))
    (x : ndarray) (st : store A) (xs t0 : list A) (ts : list (list A)) :
  arr_shape x = [zlength xs] -> value st x = Some xs ->
  Forall (fun vi => zlength vi = zlength xs) v ->
  eigen_terms xs e v = t0 :: ts ->
  matvec (eigen_operator shape e v) x st =
    Ok ({| base := length st; arr_shape := [zlength xs] |},
        st ++ [fold_left add_vectors ts t0]).
Proof.
  intros Hsh Hx Hall Hterms. unfold eigen_operator; cbn [matvec].
  erewrite run_bind by (apply load_value; exact Hx).
  rewrite Hsh.
  erewrite run_bind.
  2:{ apply lift_Ok. apply collect_map with (g := fun vi => ([], [dot xs vi])).
      intros vi Hvi. apply dot_T_vector.
      rewrite Forall_forall in Hall. specialize (Hall vi Hvi).
      unfold zlength in Hall. lia. }
  rewrite combine_map_l.
  erewrite run_bind.
  2:{ apply lift_Ok.
      apply collect_map
        with (g := fun kev : arrval A * (A * list A) =>
                     ([zlength xs],
                      map (fun b => times (times (dot xs (snd (snd kev))) (fst (snd kev))) b)
                          (snd (snd kev)))).
      intros kev Hin. apply in_map_iff in Hin. destruct Hin as (ev & <- & Hin).
      cbn [fst snd]. rewrite eigen_term_scalar.
      now rewrite (in_combine_vectors e v ev (zlength xs) Hall Hin). }
  rewrite map_map. cbn [fst snd].
  change (map (fun ev : A * list A =>
                 ([zlength xs],
                  map (fun b => times (times (dot xs (snd ev)) (fst ev)) b) (snd ev)))
              (combine e v))
    with (map (fun ev : A * list A =>
                 (fun t : list A => ([zlength xs], t))
                   (map (fun b => times (times (dot xs (snd ev)) (fst ev)) b) (snd ev)))
              (combine e v)).
  rewrite <- (map_map
                (fun ev : A * list A =>
                   map (fun b => times (times (dot xs (snd ev)) (fst ev)) b) (snd ev))
                (fun t : list A => ([zlength xs], t))).
  fold (eigen_terms xs e v). rewrite Hterms.
  cbn [map]. unfold sum_axis0.
  erewrite run_bind by (apply lift_Ok; apply sum_axis0_vectors).
  reflexivity.
Qed.

Lemma length_add_vectors (a b : list A) :
  length a = length b -> length (add_vectors a b) = length a.
Proof.
  intros Hl. unfold add_vectors. rewrite length_map, length_combine. lia.
Qed.

Lemma length_fold_add_vectors (n : nat) (t0 : list A) (ts : list (list A)) :
  length t0 = n -> Forall (fun t => length t = n) ts ->
  length (fold_left add_vectors ts t0) = n.
Proof.
  intros Ht0 Hts. revert t0 Ht0.
  induction Hts as [|t ts Ht _ IH]; intros t0 Ht0; [exact Ht0|].
  cbn [fold_left]. apply IH. rewrite length_add_vectors; lia.
Qed.

Lemma length_eigen_terms (xs e : list A) (v : list (list A)) (n : Z) :
  Forall (fun vi => zlength vi = n) v ->
  Forall (fun t => length t = Z.to_nat n) (eigen_terms xs e v).
Proof.
  intros Hall. unfold eigen_terms. apply Forall_forall. intros t Ht.
  apply in_map_iff in Ht. destruct Ht as (ev & <- & Hin).
  rewrite length_map.
  pose proof (in_combine_vectors e v ev n Hall Hin) as Hl.
  unfold zlength in Hl. lia.
Qed.

Lemma eigen_terms_nonempty (xs e : list A) (v : list (list A)) :
  e <> [] -> v <> [] ->
  exists t0 ts, eigen_terms xs e v = t0 :: ts.
Proof.
  intros He Hv. destruct e as [|e0 e]; [contradiction|].
  destruct v as [|v0 v]; [contradiction|].
  unfold eigen_terms. cbn [combine map]. eauto.
Qed.

(** On a vector [x] of [n] elements, with eigenvectors of [n] elements,
    [eigen_operator] returns the sum of the vectors [(x . v_i) * e_i * v_i],
    over as many pairs as both [e] and [v] have: [apply] and
    [apply_adjoint] return the same new array of [n] elements. *)
Theorem eigen_operator_vector (shape : Z * Z) (e : list A) (v : list (list A))
    (x : ndarray) (st : store A) (xs : list A) :
  arr_shape x = [zlength xs] -> value st x = Some xs ->
  Forall (fun vi => zlength vi = zlength xs) v ->
  e <> [] -> v <> [] ->
  exists y st',
    apply (eigen_operator shape e v) x st = Ok (y, st') /\
    apply_adjoint (eigen_operator shape e v) x st = Ok (y, st') /\
    arr_shape y = [zlength xs] /\
    value st' y = Some (sum_vectors (eigen_terms xs e v)) /\
    value st' x = Some xs.
Proof.
  intros Hsh Hx Hall He Hv.
  destruct (eigen_terms_nonempty xs e v He Hv) as (t0 & ts & Hterms).
  pose proof (eigen_matvec_run shape e v x st xs t0 ts Hsh Hx Hall Hterms) as Hrun.
  pose proof (length_eigen_terms xs e v _ Hall) as Hlen.
  rewrite Hterms in Hlen. inversion Hlen as [|? ? Ht0 Hts]; subst.
  eexists _, _. split; [exact Hrun|]. split; [exact Hrun|].
  split; [reflexivity|]. split; [|now apply value_alloc].
  rewrite Hterms. cbn [sum_vectors]. apply value_new.
  rewrite np_prod_single. unfold zlength.
  rewrite (length_fold_add_vectors _ t0 ts Ht0 Hts). unfold zlength. lia.
Qed.

(** [eigen_operator] checks the length of its input against the
    eigenvectors only when it is applied: on a vector of [n] elements,
    [apply] raises ValueError as soon as one eigenvector has not [n]
    elements. *)
Theorem eigen_operator_wrong_length (shape : Z * Z) (e : list A)
    (v : list (list A)) (x : ndarray) (st : store A) (xs : list A) (n : Z) :
  arr_shape x = [n] -> value st x = Some xs ->
  Exists (fun vi => zlength vi <> n) v ->
  apply (eigen_operator shape e v) x st = Raise ValueError.
Proof.
  intros Hsh Hx Hex. unfold apply, eigen_operator; cbn [matvec].
  erewrite run_bind by (apply load_value; exact Hx).
  apply run_bind_raise. rewrite Hsh. unfold lift.
  rewrite (collect_raises (fun vi => dot_T ([n], xs) vi) ValueError v); [reflexivity| |].
  - intros vi _. unfold dot_T. cbn [fst].
    destruct (n =? zlength vi); [left; eauto | now right].
  - apply Exists_exists in Hex. destruct Hex as (vi & Hin & Hne).
    exists vi. split; [exact Hin|]. now apply dot_T_vector_mismatch.
Qed.

(** Without eigenpairs [eigen_operator] does not return a vector: when [e]
    or [v] is empty, [apply] on a vector returns a new zero-dimensional
    array that holds 0. *)
Theorem eigen_operator_no_pair (shape : Z * Z) (e : list A) (v : list (list A))
    (x : ndarray) (st : store A) (xs : list A) :
  arr_shape x = [zlength xs] -> value st x = Some xs ->
  Forall (fun vi => zlength vi = zlength xs) v ->
  e = [] \/ v = [] ->
  exists y st',
    apply (eigen_operator shape e v) x st = Ok (y, st') /\
    arr_shape y = [] /\
    value st' y = Some [zero].
Proof.
  intros Hsh Hx Hall Hempty. unfold apply, eigen_operator; cbn [matvec].
  erewrite run_bind by (apply load_value; exact Hx).
  rewrite Hsh.
  erewrite run_bind.
  2:{ apply lift_Ok. apply collect_map with (g := fun vi => ([], [dot xs vi])).
      intros vi Hvi. apply dot_T_vector.
      rewrite Forall_forall in Hall. specialize (Hall vi Hvi).
      unfold zlength in Hall. lia. }
  assert (Hnil : combine e v = []).
  { destruct Hempty as [->| ->]; [reflexivity | now destruct e]. }
  rewrite combine_map_l, Hnil. cbn [map collect].
  erewrite run_bind by reflexivity.
  erewrite run_bind by reflexivity.
  eexists _, _. split; [reflexivity|]. split; [reflexivity|].
  apply value_new. reflexivity.
Qed.

End EigenFacts.

Section EigenSymmetric.
Context {A : Type} `{Scalar A}.
Variable one : A.
Hypothesis SR : semi_ring_theory zero one plus times eq.

Add Ring eigen_semiring : SR.

Lemma dot_comm (xs ys : list A) : dot xs ys = dot ys xs.
Proof.
  revert ys. induction xs as [|x xs IH]; intros [|y ys]; try reflexivity.
  cbn [dot]. rewrite IH. ring.
Qed.

Lemma dot_scale_l (c : A) (v ys : list A) :
  dot (map (fun b => times c b) v) ys = times c (dot v ys).
Proof.
  revert ys. induction v as [|b v IH]; intros [|y ys]; cbn [map dot];
    try ring.
  rewrite IH. ring.
Qed.

Lemma dot_add_vectors (a b ys : list A) :
  length a = length b ->
  dot (add_vectors a b) ys = plus (dot a ys) (dot b ys).
Proof.
  unfold add_vectors. revert b ys.
  induction a as [|x a IH]; intros [|z b] [|y ys] Hl; try discriminate;
    cbn [combine map dot fst snd]; try ring.
  rewrite IH by (simpl in Hl; lia). ring.
Qed.

Lemma dot_fold_add_vectors (n : nat) (t0 ys : list A) (ts : list (list A)) :
  length t0 = n -> Forall (fun t => length t = n) ts ->
  dot (fold_left add_vectors ts t0) ys =
  fold_left (fun acc t => plus acc (dot t ys)) ts (dot t0 ys).
Proof.
  intros Ht0 Hts. revert t0 Ht0.
  induction Hts as [|t ts Ht _ IH]; intros t0 Ht0; [reflexivity|].
  cbn [fold_left]. rewrite IH by (rewrite length_add_vectors; lia).
  now rewrite dot_add_vectors by lia.
Qed.

Lemma fold_left_map {X Y Z' : Type} (f : Z' -> Y -> Z') (g : X -> Y) (l : list X)
    (a : Z') :
  fold_left f (map g l) a = fold_left (fun acc x => f acc (g x)) l a.
Proof. revert a. induction l as [|x l IH]; intros a; simpl; auto. Qed.

Lemma fold_left_ext {X Y : Type} (f g : Y -> X -> Y) (l : list X) (a : Y) :
  (forall acc x, f acc x = g acc x) -> fold_left f l a = fold_left g l a.
Proof.
  intros Hfg. revert a. induction l as [|x l IH]; intros a; simpl;
    [reflexivity | now rewrite Hfg, IH].
Qed.

Lemma dot_eigen_terms (xs ys e : list A) (v : list (list A)) (n : Z) :
  Forall (fun vi => zlength vi = n) v ->
  dot (sum_vectors (eigen_terms xs e v)) ys =
  dot xs (sum_vectors (eigen_terms ys e v)).
Proof.
  intros Hall.
  pose proof (length_eigen_terms xs e v n Hall) as Hlx.
  pose proof (length_eigen_terms ys e v n Hall) as Hly.
  unfold eigen_terms in *. destruct (combine e v) as [|ev0 l].
  - cbn [map sum_vectors]. destruct xs as [|x [|x' xs]], ys as [|y [|y' ys]];
      cbn [dot]; ring.
  - cbn [map sum_vectors] in *.
    inversion Hlx as [|? ? Hx0 Hxs]; subst. inversion Hly as [|? ? Hy0 Hys]; subst.
    rewrite (dot_fold_add_vectors _ _ ys _ Hx0 Hxs).
    rewrite (dot_comm xs (fold_left _ _ _)), (dot_fold_add_vectors _ _ xs _ Hy0 Hys).
    rewrite !fold_left_map.
    assert (Hterm : forall ev : A * list A,
              dot (map (fun b => times (times (dot xs (snd ev)) (fst ev)) b) (snd ev)) ys
              = dot (map (fun b => times (times (dot ys (snd ev)) (fst ev)) b) (snd ev)) xs).
    { intros ev. rewrite !dot_scale_l, (dot_comm (snd ev) ys), (dot_comm (snd ev) xs).
      ring. }
    rewrite Hterm. apply fold_left_ext. intros acc ev. now rewrite Hterm.
Qed.

(** On vectors of [n] elements, with eigenvectors of [n] elements,
    [eigen_operator] is symmetric in exact arithmetic: the inner product of
    [apply(x)] with [y] is the inner product of [x] with [apply(y)], in any
    commutative semiring. *)
Theorem eigen_operator_symmetric (shape : Z * Z) (e : list A) (v : list (list A))
    (x y : ndarray) (st : store A) (xs ys : list A) :
  arr_shape x = [zlength xs] -> value st x = Some xs ->
  arr_shape y = [zlength xs] -> value st y = Some ys ->
  Forall (fun vi => zlength vi = zlength xs) v ->
  e <> [] -> v <> [] ->
  exists ax st1 ay st2 axs ays,
    apply (eigen_operator shape e v) x st = Ok (ax, st1) /\
    apply (eigen_operator shape e v) y st1 = Ok (ay, st2) /\
    value st2 ax = Some axs /\
    value st2 ay = Some ays /\
    zlength axs = zlength ys /\
    zlength ays = zlength xs /\
    dot axs ys = dot xs ays.
Proof.
  intros Hsx Hx Hsy Hy Hall He Hv.
  assert (Hlen : zlength ys = zlength xs).
  { rewrite <- (np_prod_single (zlength xs)), <- Hsy.
    apply (value_length st); [exact Hy|].
    unfold size. rewrite Hsy, np_prod_single. unfold zlength. lia. }
  rewrite <- Hlen in Hsy.
  assert (Hall' : Forall (fun vi => zlength vi = zlength ys) v) by now rewrite Hlen.
  destruct (eigen_terms_nonempty xs e v He Hv) as (t0 & ts & Htx).
  destruct (eigen_terms_nonempty ys e v He Hv) as (u0 & us & Hty).
  pose proof (length_eigen_terms xs e v _ Hall) as Hlx.
  pose proof (length_eigen_terms ys e v _ Hall) as Hly.
  rewrite Htx in Hlx. rewrite Hty in Hly.
  inversion Hlx as [|? ? Ht0 Hts]; subst. inversion Hly as [|? ? Hu0 Hus]; subst.
  eexists _, _, _, _, (sum_vectors (eigen_terms xs e v)),
    (sum_vectors (eigen_terms ys e v)).
  split; [exact (eigen_matvec_run shape e v x st xs t0 ts Hsx Hx Hall Htx)|].
  split; [exact (eigen_matvec_run shape e v y _ ys u0 us Hsy
                   (value_alloc _ _ _ _ Hy) Hall' Hty)|].
  split; [|split; [|split; [|split]]].
  - rewrite Htx. cbn [sum_vectors]. apply value_alloc, value_new.
    rewrite np_prod_single. unfold zlength.
    rewrite (length_fold_add_vectors _ t0 ts Ht0 Hts). unfold zlength. lia.
  - rewrite Hty. cbn [sum_vectors]. apply value_new.
    rewrite np_prod_single. unfold zlength.
    rewrite (length_fold_add_vectors _ u0 us Hu0 Hus). unfold zlength in *. lia.
  - rewrite Htx. cbn [sum_vectors]. unfold zlength at 1.
    rewrite (length_fold_add_vectors _ t0 ts Ht0 Hts). unfold zlength in *. lia.
  - rewrite Hty. cbn [sum_vectors]. unfold zlength at 1.
    rewrite (length_fold_add_vectors _ u0 us Hu0 Hus). unfold zlength in *. lia.
  - now apply dot_eigen_terms with (n := zlength xs).
Qed.

End EigenSymmetric.

(** ** axis_mul *)

Section AxisMulFacts.
Context {A : Type} `{Scalar A} {Mem : Memory A}.

Lemma np_empty_run (sh : list Z) (st : store A) :
  Forall (fun d => 0 <= d) sh ->
  np_empty sh st =
    Ok ({| base := length st; arr_shape := sh |},
        st ++ [map (uninitialised st) (zseq (np_prod sh))]).
Proof.
  intros Hsh. unfold np_empty. now rewrite (no_negative_dimension_b sh Hsh).
Qed.

Lemma length_zseq (n : Z) : length (zseq n) = Z.to_nat n.
Proof. unfold zseq. now rewrite length_map, length_seq. Qed.

Lemma znth_map_zseq (g : Z -> A) (n p : Z) :
  0 <= p < n -> znth p (map g (zseq n)) zero = g p.
Proof.
  intros Hp. unfold znth, zseq. rewrite map_map.
  rewrite nth_indep with (d' := g (Z.of_nat 0))
    by (rewrite length_map, length_seq; lia).
  rewrite (map_nth (fun i => g (Z.of_nat i)) (seq 0 (Z.to_nat n)) 0%nat).
  rewrite seq_nth by lia. f_equal. lia.
Qed.

Lemma mapi_ext (f g : Z -> A -> A) (l : list A) :
  (forall p o, 0 <= p < zlength l -> f p o = g p o) -> mapi f l = mapi g l.
Proof.
  intros Hfg. apply list_eq_znth with (d := zero).
  - now rewrite !length_mapi.
  - intros p Hp. unfold zlength in Hp. rewrite length_mapi in Hp.
    rewrite !(znth_mapi _ l p zero zero) by (unfold zlength; lia).
    apply Hfg. unfold zlength. lia.
Qed.

(* Assignment of [w p] to the cells [p] that [sel] sends to the step. *)
Local Abbreviation assign_step sel w :=
  (fun (i : Z) (acc : list A) =>
     mapi (fun p o => if sel p =? i then w p else o) acc).

Lemma fold_assign_step (sel : Z -> Z) (w : Z -> A) (n : nat) (acc : list A) :
  let r := fold_left (fun a i => assign_step sel w (Z.of_nat i) a) (seq 0 n) acc in
  length r = length acc /\
  forall p, 0 <= p < zlength acc ->
    znth p r zero =
    if (0 <=? sel p) && (sel p <? Z.of_nat n) then w p else znth p acc zero.
Proof.
  induction n as [|n IH]; intros r.
  - subst r. cbn [seq fold_left]. split; [reflexivity|].
    intros p Hp. destruct (Z.leb_spec 0 (sel p)), (Z.ltb_spec (sel p) (Z.of_nat 0));
      try reflexivity; lia.
  - subst r. rewrite seq_S, fold_left_app. cbn [fold_left Nat.add].
    destruct IH as [Hlen Hnth].
    set (r := fold_left _ (seq 0 n) acc) in *.
    split; [now rewrite length_mapi|].
    intros p Hp.
    rewrite (znth_mapi _ r p zero zero) by (unfold zlength in *; lia).
    rewrite Hnth by exact Hp.
    destruct (Z.eqb_spec (sel p) (Z.of_nat n)) as [Heq|Hne].
    + destruct (Z.leb_spec 0 (sel p)), (Z.ltb_spec (sel p) (Z.of_nat (S n)));
        try reflexivity; lia.
    + destruct (Z.leb_spec 0 (sel p)), (Z.ltb_spec (sel p) (Z.of_nat n)),
               (Z.ltb_spec (sel p) (Z.of_nat (S n))); try reflexivity; lia.
Qed.

Lemma getitem_along_run (x : ndarray) (k : nat) (i : Z) (st : store A) (xs : list A) :
  0 <= i < nth k (arr_shape x) 0 -> value st x = Some xs ->
  getitem_along x k i st =
    Ok ((item_shape (arr_shape x) k,
         map (fun q => znth (item_position (arr_shape x) k i q) xs zero)
             (zseq (np_prod (item_shape (arr_shape x) k)))), st).
Proof.
  intros Hi Hx. unfold getitem_along.
  erewrite run_bind by (apply lift_Ok, norm_index_in; exact Hi).
  erewrite run_bind by (apply load_value; exact Hx).
  rewrite Z2Nat.id by lia. reflexivity.
Qed.

Lemma setitem_along_run (y : ndarray) (k : nat) (i : Z) (t : arrval A)
    (st : store A) (os : list A) :
  0 <= i < nth k (arr_shape y) 0 ->
  base y = length st -> zlength os = size y ->
  fst t = item_shape (arr_shape y) k ->
  setitem_along y k i t (st ++ [os]) =
    Ok (tt, st ++ [mapi (fun p o =>
                           if axis_coord (arr_shape y) k p =? i
                           then znth (broadcast_index
                                        (rev (item_shape (arr_shape y) k))
                                        (rev (item_shape (arr_shape y) k))
                                        (position_in_item (arr_shape y) k p))
                                     (snd t) zero
                           else o) os]).
Proof.
  intros Hi Hb Hs Ht. unfold setitem_along.
  erewrite run_bind by (apply lift_Ok, norm_index_in; exact Hi).
  rewrite Ht.
  assert (Hstrip : forall sh : list Z, strip_ones (length sh) sh = sh).
  { intros [|d sh]; [reflexivity|]. cbn [strip_ones].
    now rewrite Nat.ltb_irrefl. }
  rewrite Hstrip.
  assert (Hbc : forall sh, broadcast_shapes sh sh = Ok sh).
  { intros sh. unfold broadcast_shapes.
    assert (Hr : forall r, broadcast_rev r r = Ok r).
    { induction r as [|d r IH]; [reflexivity|]. cbn [broadcast_rev].
      rewrite IH. cbn [rbind]. now rewrite Z.eqb_refl. }
    rewrite Hr. cbn [rbind]. now rewrite rev_involutive. }
  rewrite Hbc.
  erewrite run_bind by reflexivity.
  rewrite shape_eqb_refl. cbn [negb].
  erewrite run_bind by (apply load_value; exact (value_fresh st y os Hb Hs)).
  rewrite Z2Nat.id by lia.
  apply write_new; [exact Hb | apply length_mapi].
Qed.

Lemma np_prod_pair (r c : Z) : np_prod [r; c] = r * c.
Proof. unfold np_prod. cbn [fold_right]. lia. Qed.

(* One turn of the loop of [matvec] on a matrix, along the last axis. *)
Lemma axis_mul_body_matrix (r c i : Z) (x y vect : ndarray) (st : store A)
    (xs vs acc : list A) :
  0 <= r -> 0 <= i < c ->
  arr_shape x = [r; c] -> value st x = Some xs ->
  arr_shape vect = [r] -> value st vect = Some vs ->
  base y = length st -> arr_shape y = [r; c] -> zlength acc = r * c ->
  (xi <- getitem_along x 1 i ;;
   vs <- load vect ;;
   t <- lift (multiply_values xi (arr_shape vect, vs)) ;;
   setitem_along y 1 i t) (st ++ [acc]) =
  Ok (tt, st ++ [assign_step (fun p => p mod c)
                             (fun p => times (znth p xs zero) (znth (p / c) vs zero))
                             i acc]).
Proof.
  intros Hr Hi Hx Hxs Hv Hvs Hb Hy Hacc.
  erewrite run_bind
    by (apply getitem_along_run with (xs := xs);
        [rewrite Hx; exact Hi | apply value_alloc; exact Hxs]).
  erewrite run_bind by (apply load_value, value_alloc; exact Hvs).
  rewrite Hx, Hv. cbn [item_shape firstn skipn app].
  unfold multiply_values. cbn [fst snd]. rewrite broadcast_same. cbn [rbind].
  erewrite run_bind by reflexivity.
  rewrite setitem_along_run with (os := acc).
  2:{ rewrite Hy. exact Hi. }
  2:{ exact Hb. }
  2:{ unfold size. rewrite Hy, np_prod_pair. exact Hacc. }
  2:{ rewrite Hy. reflexivity. }
  rewrite Hy. cbn [item_shape firstn skipn app fst snd rev].
  do 4 f_equal. apply mapi_ext. intros p o Hp. rewrite Hacc in Hp.
  rewrite !np_prod_single.
  unfold axis_coord, position_in_item, item_position, inner.
  cbn [skipn nth np_prod fold_right].
  rewrite !Z.div_1_r, Z.mul_1_l, !Z.mul_1_r, Z.mod_1_r, Z.add_0_r.
  destruct (Z.eqb_spec (p mod c) i) as [Heq|]; [|reflexivity].
  assert (Hq : 0 <= p / c < r).
  { split; [apply Z.div_pos; lia|]. apply Z.div_lt_upper_bound; lia. }
  rewrite broadcast_index_same by exact Hq.
  rewrite znth_map_zseq by exact Hq.
  rewrite broadcast_index_same by exact Hq.
  rewrite znth_map_zseq by exact Hq.
  do 2 f_equal.
  rewrite Z.div_1_r, Z.mod_1_r.
  pose proof (Z.div_mod p c ltac:(lia)). lia.
Qed.

Lemma axis_mul_matrix_run (r c axis : Z) (vect x : ndarray) (st : store A)
    (xs vs : list A) :
  0 <= r -> 0 <= c -> axis = -1 \/ axis = 1 ->
  arr_shape vect = [r] -> value st vect = Some vs ->
  value st x = Some xs -> size x = r * c ->
  apply (axis_mul [r; c] vect axis) x st =
    Ok ({| base := length st; arr_shape := [r * c] |},
        st ++ [mapi (fun p a => times a (znth (p / c) vs zero)) xs]).
Proof.
  intros Hr Hc Hax Hv Hvs Hx Hsx.
  assert (Hsh : Forall (fun d => 0 <= d) [r; c]) by (repeat constructor; lia).
  assert (Hlx : zlength xs = r * c).
  { rewrite <- Hsx. apply (value_length st); [exact Hx | nia]. }
  unfold apply, axis_mul, ndoperator; cbn [matvec].
  erewrite run_bind by (apply reshape_view; [exact Hsh | now rewrite np_prod_pair]).
  cbn [arr_shape]. rewrite bind_assoc.
  erewrite run_bind by (apply np_empty_run; exact Hsh).
  rewrite bind_assoc.
  assert (Hk : norm_index (ndim {| base := base x; arr_shape := [r; c] |}) axis
               = Ok 1%nat) by (destruct Hax as [->| ->]; reflexivity).
  erewrite run_bind by (apply lift_Ok; exact Hk).
  cbn [nth]. rewrite bind_assoc.
  set (g := map (uninitialised st) (zseq (np_prod [r; c]))).
  assert (Hg : zlength g = r * c).
  { unfold g, zlength. rewrite length_map, length_zseq, np_prod_pair. nia. }
  erewrite run_bind.
  2:{ apply for_xrange_run
        with (F := assign_step (fun p => p mod c)
                     (fun p => times (znth p xs zero) (znth (p / c) vs zero))).
      - intros i acc' Hi Hl.
        apply (axis_mul_body_matrix r c i {| base := base x; arr_shape := [r; c] |}
                 {| base := length st; arr_shape := [r; c] |} vect st xs vs acc');
          auto.
        + rewrite <- Hx. apply value_same_view; [reflexivity|].
          unfold size at 1. cbn [arr_shape]. now rewrite np_prod_pair.
        + unfold zlength in *. lia.
      - intros i acc'. apply length_mapi. }
  erewrite run_bind by reflexivity.
  rewrite np_prod_pair.
  destruct (fold_assign_step (fun p => p mod c)
              (fun p => times (znth p xs zero) (znth (p / c) vs zero))
              (Z.to_nat c) g) as [Hlen Hnth].
  set (res := fold_left _ (seq 0 (Z.to_nat c)) g) in *.
  assert (Hres : res = mapi (fun p a => times a (znth (p / c) vs zero)) xs).
  { apply list_eq_znth with (d := zero).
    - rewrite Hlen, length_mapi. unfold zlength in *. lia.
    - intros p Hp. unfold zlength in Hp. rewrite Hlen in Hp.
      rewrite Hnth by (unfold zlength; lia).
      rewrite (znth_mapi _ xs p zero zero) by (unfold zlength in *; lia).
      assert (0 < c) by (unfold zlength in Hg; nia).
      pose proof (Z.mod_pos_bound p c ltac:(lia)).
      destruct (Z.leb_spec 0 (p mod c)), (Z.ltb_spec (p mod c) (Z.of_nat (Z.to_nat c)));
        try reflexivity; lia. }
  rewrite Hres.
  apply reshape_view; [constructor; [nia | constructor]|].
  unfold size. cbn [arr_shape]. now rewrite np_prod_single, np_prod_pair.
Qed.

(** [axis_mul] on a matrix, along its last axis (the default): for
    shapein [(r, c)] and a vector [vect] of [r] elements, [apply] and
    [apply_adjoint] return a new array that holds [x[a, b] * vect[a]]:
    the vector runs over the axis that is not looped over. Nothing of
    what np.empty left in the output remains, and [x] is unchanged. *)
Theorem axis_mul_matrix (r c axis : Z) (vect x : ndarray) (st : store A)
    (xs vs : list A) :
  0 <= r -> 0 <= c -> axis = -1 \/ axis = 1 ->
  arr_shape vect = [r] -> value st vect = Some vs ->
  value st x = Some xs -> size x = r * c ->
  exists y st',
    apply (axis_mul [r; c] vect axis) x st = Ok (y, st') /\
    apply_adjoint (axis_mul [r; c] vect axis) x st = Ok (y, st') /\
    arr_shape y = [r * c] /\
    value st' y = Some (mapi (fun p a => times a (znth (p / c) vs zero)) xs) /\
    value st' x = Some xs.
Proof.
  intros Hr Hc Hax Hv Hvs Hx Hsx.
  eexists _, _.
  split; [exact (axis_mul_matrix_run r c axis vect x st xs vs Hr Hc Hax Hv Hvs Hx Hsx)|].
  split; [exact (axis_mul_matrix_run r c axis vect x st xs vs Hr Hc Hax Hv Hvs Hx Hsx)|].
  split; [reflexivity|]. split; [|apply value_alloc; exact Hx].
  apply value_new. rewrite np_prod_single. unfold zlength. rewrite length_mapi.
  rewrite <- Hsx. apply (value_length st); [exact Hx | nia].
Qed.

(* One turn of the loop of [matvec] on a matrix, along the first axis. *)
Lemma axis_mul_body_rows (r c i : Z) (x y vect : ndarray) (st : store A)
    (xs vs acc : list A) :
  0 <= c -> 0 <= i < r ->
  arr_shape x = [r; c] -> value st x = Some xs ->
  arr_shape vect = [c] -> value st vect = Some vs ->
  base y = length st -> arr_shape y = [r; c] -> zlength acc = r * c ->
  (xi <- getitem_along x 0 i ;;
   vs <- load vect ;;
   t <- lift (multiply_values xi (arr_shape vect, vs)) ;;
   setitem_along y 0 i t) (st ++ [acc]) =
  Ok (tt, st ++ [assign_step (fun p => p / c)
                             (fun p => times (znth p xs zero) (znth (p mod c) vs zero))
                             i acc]).
Proof.
  intros Hc Hi Hx Hxs Hv Hvs Hb Hy Hacc.
  erewrite run_bind
    by (apply getitem_along_run with (xs := xs);
        [rewrite Hx; exact Hi | apply value_alloc; exact Hxs]).
  erewrite run_bind by (apply load_value, value_alloc; exact Hvs).
  rewrite Hx, Hv. cbn [item_shape firstn skipn app].
  unfold multiply_values. cbn [fst snd]. rewrite broadcast_same. cbn [rbind].
  erewrite run_bind by reflexivity.
  rewrite setitem_along_run with (os := acc).
  2:{ rewrite Hy. exact Hi. }
  2:{ exact Hb. }
  2:{ unfold size. rewrite Hy, np_prod_pair. exact Hacc. }
  2:{ rewrite Hy. reflexivity. }
  rewrite Hy. cbn [item_shape firstn skipn app fst snd rev].
  do 4 f_equal. apply mapi_ext. intros p o Hp. rewrite Hacc in Hp.
  rewrite !np_prod_single.
  unfold axis_coord, position_in_item, item_position, inner.
  cbn [skipn nth]. rewrite !np_prod_single.
  assert (Hcp : 0 < c) by nia.
  assert (Hq : 0 <= p / c < r).
  { split; [apply Z.div_pos; lia|]. apply Z.div_lt_upper_bound; lia. }
  pose proof (Z.mod_pos_bound p c Hcp) as Hm.
  rewrite (Z.mod_small (p / c) r) by exact Hq.
  destruct (Z.eqb_spec (p / c) i) as [Heq|]; [|reflexivity].
  rewrite (Z.div_small p (c * r)) by nia.
  rewrite Z.mul_0_l, Z.add_0_l.
  rewrite broadcast_index_same by exact Hm.
  rewrite znth_map_zseq by exact Hm.
  rewrite broadcast_index_same by exact Hm.
  rewrite znth_map_zseq by exact Hm.
  rewrite Z.mod_mod by lia.
  rewrite (Z.div_small (p mod c) c) by exact Hm.
  do 2 f_equal.
  pose proof (Z.div_mod p c ltac:(lia)). lia.
Qed.

Lemma axis_mul_rows_run (r c axis : Z) (vect x : ndarray) (st : store A)
    (xs vs : list A) :
  0 <= r -> 0 <= c -> axis = -2 \/ axis = 0 ->
  arr_shape vect = [c] -> value st vect = Some vs ->
  value st x = Some xs -> size x = r * c ->
  apply (axis_mul [r; c] vect axis) x st =
    Ok ({| base := length st; arr_shape := [r * c] |},
        st ++ [mapi (fun p a => times a (znth (p mod c) vs zero)) xs]).
Proof.
  intros Hr Hc Hax Hv Hvs Hx Hsx.
  assert (Hsh : Forall (fun d => 0 <= d) [r; c]) by (repeat constructor; lia).
  assert (Hlx : zlength xs = r * c).
  { rewrite <- Hsx. apply (value_length st); [exact Hx | nia]. }
  unfold apply, axis_mul, ndoperator; cbn [matvec].
  erewrite run_bind by (apply reshape_view; [exact Hsh | now rewrite np_prod_pair]).
  cbn [arr_shape]. rewrite bind_assoc.
  erewrite run_bind by (apply np_empty_run; exact Hsh).
  rewrite bind_assoc.
  assert (Hk : norm_index (ndim {| base := base x; arr_shape := [r; c] |}) axis
               = Ok 0%nat) by (destruct Hax as [->| ->]; reflexivity).
  erewrite run_bind by (apply lift_Ok; exact Hk).
  cbn [nth]. rewrite bind_assoc.
  set (g := map (uninitialised st) (zseq (np_prod [r; c]))).
  assert (Hg : zlength g = r * c).
  { unfold g, zlength. rewrite length_map, length_zseq, np_prod_pair. nia. }
  erewrite run_bind.
  2:{ apply for_xrange_run
        with (F := assign_step (fun p => p / c)
                     (fun p => times (znth p xs zero) (znth (p mod c) vs zero))).
      - intros i acc' Hi Hl.
        apply (axis_mul_body_rows r c i {| base := base x; arr_shape := [r; c] |}
                 {| base := length st; arr_shape := [r; c] |} vect st xs vs acc');
          auto.
        + rewrite <- Hx. apply value_same_view; [reflexivity|].
          unfold size at 1. cbn [arr_shape]. now rewrite np_prod_pair.
        + unfold zlength in *. lia.
      - intros i acc'. apply length_mapi. }
  erewrite run_bind by reflexivity.
  rewrite np_prod_pair.
  destruct (fold_assign_step (fun p => p / c)
              (fun p => times (znth p xs zero) (znth (p mod c) vs zero))
              (Z.to_nat r) g) as [Hlen Hnth].
  set (res := fold_left _ (seq 0 (Z.to_nat r)) g) in *.
  assert (Hres : res = mapi (fun p a => times a (znth (p mod c) vs zero)) xs).
  { apply list_eq_znth with (d := zero).
    - rewrite Hlen, length_mapi. unfold zlength in *. lia.
    - intros p Hp. unfold zlength in Hp. rewrite Hlen in Hp.
      rewrite Hnth by (unfold zlength; lia).
      rewrite (znth_mapi _ xs p zero zero) by (unfold zlength in *; lia).
      assert (0 < c) by (unfold zlength in Hg; nia).
      assert (Hq : 0 <= p / c < r).
      { split; [apply Z.div_pos; lia|].
        apply Z.div_lt_upper_bound; unfold zlength in Hg; lia. }
      destruct (Z.leb_spec 0 (p / c)), (Z.ltb_spec (p / c) (Z.of_nat (Z.to_nat r)));
        try reflexivity; lia. }
  rewrite Hres.
  apply reshape_view; [constructor; [nia | constructor]|].
  unfold size. cbn [arr_shape]. now rewrite np_prod_single, np_prod_pair.
Qed.

(** [axis_mul] on a matrix, along its first axis: for shapein [(r, c)],
    [axis] 0 and a vector [vect] of [c] elements, [apply] and
    [apply_adjoint] return a new array that holds [x[a, b] * vect[b]],
    and [x] is unchanged. *)
Theorem axis_mul_matrix_rows (r c axis : Z) (vect x : ndarray) (st : store A)
    (xs vs : list A) :
  0 <= r -> 0 <= c -> axis = -2 \/ axis = 0 ->
  arr_shape vect = [c] -> value st vect = Some vs ->
  value st x = Some xs -> size x = r * c ->
  exists y st',
    apply (axis_mul [r; c] vect axis) x st = Ok (y, st') /\
    apply_adjoint (axis_mul [r; c] vect axis) x st = Ok (y, st') /\
    arr_shape y = [r * c] /\
    value st' y = Some (mapi (fun p a => times a (znth (p mod c) vs zero)) xs) /\
    value st' x = Some xs.
Proof.
  intros Hr Hc Hax Hv Hvs Hx Hsx.
  eexists _, _.
  split; [exact (axis_mul_rows_run r c axis vect x st xs vs Hr Hc Hax Hv Hvs Hx Hsx)|].
  split; [exact (axis_mul_rows_run r c axis vect x st xs vs Hr Hc Hax Hv Hvs Hx Hsx)|].
  split; [reflexivity|]. split; [|apply value_alloc; exact Hx].
  apply value_new. rewrite np_prod_single. unfold zlength. rewrite length_mapi.
  rewrite <- Hsx. apply (value_length st); [exact Hx | nia].
Qed.


End AxisMulFacts.

Section AxisMulSymmetric.
Context {A : Type} `{Scalar A} {Mem : Memory A}.
Variable one : A.
Hypothesis SR : semi_ring_theory zero one plus times eq.
Add Ring axis_mul_semiring : SR.

Lemma dot_scaled_from (w : Z -> A) (xs ys : list A) (s : nat) :
  length xs = length ys ->
  dot (map (fun ix => times (snd ix) (w (Z.of_nat (fst ix))))
           (combine (seq s (length xs)) xs)) ys
  = dot xs (map (fun ix => times (snd ix) (w (Z.of_nat (fst ix))))
                (combine (seq s (length ys)) ys)).
Proof.
  revert ys s. induction xs as [|x xs IH]; intros [|y ys] s Hl;
    try discriminate; [reflexivity|].
  cbn [length seq combine map dot fst snd].
  rewrite IH by (cbn [length] in Hl; lia). ring.
Qed.

(** [axis_mul] on a matrix is symmetric in exact arithmetic: for [x] and
    [y] of [r * c] elements and [vect] of [r] elements, the inner product
    of [apply(x)] with [y] is the inner product of [x] with [apply(y)], in
    any commutative semiring. *)
Theorem axis_mul_symmetric (r c axis : Z) (vect x y : ndarray) (st : store A)
    (xs ys vs : list A) :
  0 <= r -> 0 <= c -> axis = -1 \/ axis = 1 ->
  arr_shape vect = [r] -> value st vect = Some vs ->
  value st x = Some xs -> size x = r * c ->
  value st y = Some ys -> size y = r * c ->
  exists ax st1 ay st2 axs ays,
    apply (axis_mul [r; c] vect axis) x st = Ok (ax, st1) /\
    apply (axis_mul [r; c] vect axis) y st1 = Ok (ay, st2) /\
    value st2 ax = Some axs /\
    value st2 ay = Some ays /\
    zlength axs = zlength ys /\
    zlength ays = zlength xs /\
    dot axs ys = dot xs ays.
Proof.
  intros Hr Hc Hax Hv Hvs Hx Hsx Hy Hsy.
  assert (Hlx : zlength xs = r * c).
  { rewrite <- Hsx. apply (value_length st); [exact Hx | nia]. }
  assert (Hly : zlength ys = r * c).
  { rewrite <- Hsy. apply (value_length st); [exact Hy | nia]. }
  set (w := fun p : Z => znth (p / c) vs zero).
  eexists _, _, _, _, (mapi (fun p a => times a (w p)) xs),
    (mapi (fun p a => times a (w p)) ys).
  split; [exact (axis_mul_matrix_run r c axis vect x st xs vs Hr Hc Hax Hv Hvs Hx Hsx)|].
  split; [exact (axis_mul_matrix_run r c axis vect y _ ys vs Hr Hc Hax Hv
                   (value_alloc _ _ _ _ Hvs) (value_alloc _ _ _ _ Hy) Hsy)|].
  split; [|split; [|split; [|split]]].
  - apply value_alloc, value_new. rewrite np_prod_single.
    unfold zlength. rewrite length_mapi. exact Hlx.
  - apply value_new. rewrite np_prod_single.
    unfold zlength. rewrite length_mapi. exact Hly.
  - unfold zlength at 1. rewrite length_mapi. unfold zlength in *. lia.
  - unfold zlength at 1. rewrite length_mapi. unfold zlength in *. lia.
  - unfold mapi. apply dot_scaled_from. unfold zlength in *. lia.
Qed.

End AxisMulSymmetric.

(** ** Instances of the further properties *)

Lemma Z_semi_ring : semi_ring_theory 0 1 Z.add Z.mul eq.
Proof. constructor; intros; lia. Qed.

Lemma Z_ring : ring_theory 0 1 Z.add Z.mul Z.sub Z.opp eq.
Proof. constructor; intros; lia. Qed.

Lemma ndoperator_output_length_witness :
  0 <= np_prod [2] /\ 0 <= np_prod [4] /\
  (forall x st y st',
     apply (ndoperator (A:=Z) [4] [2] (fun x => getitem_slice_stop x 2) (Some copy)) x st
       = Ok (y, st') ->
     arr_shape y =
       [fst (shape (ndoperator (A:=Z) [4] [2] (fun x => getitem_slice_stop x 2)
                               (Some copy)))]) /\
  (forall x st y st',
     apply_adjoint (ndoperator (A:=Z) [4] [2] (fun x => getitem_slice_stop x 2)
                               (Some copy)) x st = Ok (y, st') ->
     arr_shape y =
       [snd (shape (ndoperator (A:=Z) [4] [2] (fun x => getitem_slice_stop x 2)
                               (Some copy)))]).
Proof.
  refine (conj _ (conj _ _)); [simpl; lia | simpl; lia|].
  apply ndoperator_output_length; simpl; lia.
Defined.

Lemma ndoperator_wrong_size_witness :
  Forall (fun d => 0 <= d) [4] /\ Forall (fun d => 0 <= d) [2] /\
  size vector_78 <> np_prod [4] /\ size vector_1234 <> np_prod [2] /\
  apply (ndoperator [4] [2] copy (Some copy)) vector_78 store_two_vectors
    = Raise ValueError /\
  apply_adjoint (ndoperator [4] [2] copy (Some copy)) vector_1234 store_two_vectors
    = Raise ValueError.
Proof.
  assert (H4 : Forall (fun d => 0 <= d) [4]) by (repeat constructor; lia).
  assert (H2 : Forall (fun d => 0 <= d) [2]) by (repeat constructor; lia).
  assert (Hx : size vector_78 <> np_prod [4]) by (vm_compute; discriminate).
  assert (Hy : size vector_1234 <> np_prod [2]) by (vm_compute; discriminate).
  refine (conj H4 (conj H2 (conj Hx (conj Hy _)))).
  now apply ndoperator_wrong_size.
Defined.

Lemma diag_elementwise_witness :
  0 <= 3 /\ arr_shape vector_123 = [3] /\
  value store_diag_one vector_123 = Some [1; 2; 3] /\
  exists op y st',
    diag vector_123 None = Ok op /\
    shape op = (3, 3) /\
    apply op vector_123 store_diag_one = Ok (y, st') /\
    apply_adjoint op vector_123 store_diag_one = Ok (y, st') /\
    value st' y = Some (products [1; 2; 3] [1; 2; 3]) /\
    value st' vector_123 = Some [1; 2; 3].
Proof.
  refine (conj _ (conj eq_refl (conj eq_refl _))); [lia|].
  apply diag_elementwise; [lia | reflexivity | reflexivity | reflexivity | reflexivity].
Defined.

Lemma diag_mismatch_raises_witness :
  arr_shape vector_123 = [3] /\ arr_shape vector_78 = [2] /\
  3 <> 2 /\ 3 <> 1 /\ 2 <> 1 /\
  exists op,
    diag vector_123 (Some (2, 2)) = Ok op /\
    apply op vector_78 store_two_vectors = Raise ValueError.
Proof.
  refine (conj eq_refl (conj eq_refl (conj _ (conj _ (conj _ _))))); try lia.
  apply diag_mismatch_raises with (m := 3); try reflexivity; lia.
Defined.

Lemma mul_scales_witness :
  Forall (fun d => 0 <= d) [4] /\
  value store_two_vectors vector_1234 = Some [1; 2; 3; 4] /\
  size vector_1234 = np_prod [4] /\
  exists op y st',
    mul [4] (PyScalar 3) = Ok op /\
    apply op vector_1234 store_two_vectors = Ok (y, st') /\
    apply_adjoint op vector_1234 store_two_vectors = Ok (y, st') /\
    arr_shape y = [np_prod [4]] /\
    value st' y = Some (map (times 3) [1; 2; 3; 4]) /\
    value st' vector_1234 = Some [1; 2; 3; 4].
Proof.
  assert (H4 : Forall (fun d => 0 <= d) [4]) by (repeat constructor; lia).
  refine (conj H4 (conj eq_refl (conj eq_refl _))).
  apply mul_scales; [exact H4 | reflexivity | reflexivity].
Defined.

Lemma mask_idempotent_witness :
  wf_boolarray mask_diagonal /\
  value store_two_vectors vector_1234 = Some [1; 2; 3; 4] /\
  size vector_1234 = np_prod (bshape mask_diagonal) /\
  exists y st1 z st2 ys,
    apply (mask mask_diagonal) vector_1234 store_two_vectors = Ok (y, st1) /\
    apply (mask mask_diagonal) y st1 = Ok (z, st2) /\
    value st2 y = Some ys /\
    value st2 z = Some ys.
Proof.
  assert (Hm : wf_boolarray mask_diagonal)
    by (split; [repeat constructor; lia | reflexivity]).
  refine (conj Hm (conj eq_refl (conj eq_refl _))).
  apply (mask_idempotent mask_diagonal vector_1234 store_two_vectors [1; 2; 3; 4]);
    [exact Hm | reflexivity | reflexivity].
Defined.

Lemma mask_self_adjoint_witness :
  (forall a : Z, times zero a = zero) /\ (forall a : Z, times a zero = zero) /\
  wf_boolarray mask_diagonal /\
  value store_fours vector_1234 = Some [1; 2; 3; 4] /\
  size vector_1234 = np_prod (bshape mask_diagonal) /\
  value store_fours vector_5678 = Some [5; 6; 7; 8] /\
  size vector_5678 = np_prod (bshape mask_diagonal) /\
  exists mx st1 my st2 mxs mys,
    apply (mask mask_diagonal) vector_1234 store_fours = Ok (mx, st1) /\
    apply (mask mask_diagonal) vector_5678 st1 = Ok (my, st2) /\
    value st2 mx = Some mxs /\
    value st2 my = Some mys /\
    zlength mxs = zlength [5; 6; 7; 8] /\
    zlength mys = zlength [1; 2; 3; 4] /\
    dot mxs [5; 6; 7; 8] = dot [1; 2; 3; 4] mys.
Proof.
  assert (Hm : wf_boolarray mask_diagonal)
    by (split; [repeat constructor; lia | reflexivity]).
  assert (Hl : forall a : Z, times zero a = zero) by (intros a; simpl; lia).
  assert (Hr : forall a : Z, times a zero = zero) by (intros a; simpl; lia).
  refine (conj Hl (conj Hr (conj Hm (conj eq_refl (conj eq_refl
            (conj eq_refl (conj eq_refl _))))))).
  apply (mask_self_adjoint mask_diagonal vector_1234 vector_5678 store_fours
           [1; 2; 3; 4] [5; 6; 7; 8]);
    [exact Hl | exact Hr | exact Hm | reflexivity | reflexivity | reflexivity
    | reflexivity].
Defined.

Lemma decimate_adjoint_apply_is_mask_witness :
  wf_boolarray mask_diagonal /\
  value store_two_vectors vector_1234 = Some [1; 2; 3; 4] /\
  size vector_1234 = np_prod (bshape mask_diagonal) /\
  exists ax st1 z st2 w st3 zs,
    apply (decimate mask_diagonal) vector_1234 store_two_vectors = Ok (ax, st1) /\
    apply_adjoint (decimate mask_diagonal) ax st1 = Ok (z, st2) /\
    apply (mask mask_diagonal) vector_1234 store_two_vectors = Ok (w, st3) /\
    value st2 z = Some zs /\
    value st3 w = Some zs.
Proof.
  assert (Hm : wf_boolarray mask_diagonal)
    by (split; [repeat constructor; lia | reflexivity]).
  refine (conj Hm (conj eq_refl (conj eq_refl _))).
  apply (decimate_adjoint_apply_is_mask mask_diagonal vector_1234 store_two_vectors
           [1; 2; 3; 4]); [exact Hm | reflexivity | reflexivity].
Defined.

Lemma eye_apply_truncates_witness :
  0 <= 2 < 4 /\ arr_shape vector_1234 = [4] /\
  value store_two_vectors vector_1234 = Some [1; 2; 3; 4] /\
  exists op r,
    eye (2, 4) = Ok op /\
    apply op vector_1234 store_two_vectors = Ok (r, store_two_vectors) /\
    base r = base vector_1234 /\
    arr_shape r = [2] /\
    value store_two_vectors r = Some (firstn (Z.to_nat 2) [1; 2; 3; 4]).
Proof.
  refine (conj _ (conj eq_refl (conj eq_refl _))); [lia|].
  apply eye_apply_truncates; [lia | reflexivity | reflexivity].
Defined.

Lemma binning_not_multiple_raises_witness :
  Forall (fun d => 0 <= d) [7] /\
  norm_index (zlength [7]) (-1) = Ok 0%nat /\
  0 < 2 /\ nth 0 [7] 0 mod 2 <> 0 /\
  exists op : LinearOperator Z,
    binning [7] 2 (-1) = Ok op /\
    shape op = (np_prod (update 0 (nth 0 [7] 0 / 2) [7]), np_prod [7]) /\
    forall x st, raises (apply op x st).
Proof.
  assert (H7 : Forall (fun d => 0 <= d) [7]) by (repeat constructor; lia).
  assert (Hmod : nth 0 [7] 0 mod 2 <> 0) by (vm_compute; discriminate).
  refine (conj H7 (conj eq_refl (conj _ (conj Hmod _)))); [lia|].
  apply binning_not_multiple_raises; [exact H7 | reflexivity | lia | exact Hmod].
Defined.

Lemma binning_vector_witness :
  0 < 2 /\ 0 <= 2 /\ (-1 = -1 \/ -1 = 0) /\
  value store_two_vectors vector_1234 = Some [1; 2; 3; 4] /\
  size vector_1234 = 2 * 2 /\
  value store_two_vectors vector_78 = Some [7; 8] /\
  size vector_78 = 2 /\
  exists op bx st1 ry st2,
    binning [2 * 2] 2 (-1) = Ok op /\
    shape op = (2, 2 * 2) /\
    apply op vector_1234 store_two_vectors = Ok (bx, st1) /\
    arr_shape bx = [2] /\
    value st1 bx = Some (block_sums (Z.to_nat 2) [1; 2; 3; 4] (Z.to_nat 2)) /\
    apply_adjoint op vector_78 store_two_vectors = Ok (ry, st2) /\
    arr_shape ry = [2 * 2] /\
    value st2 ry = Some (repeat_each (Z.to_nat 2) [7; 8]).
Proof.
  refine (conj _ (conj _ (conj (or_introl eq_refl)
            (conj eq_refl (conj eq_refl (conj eq_refl (conj eq_refl _)))))));
    [lia | lia |].
  apply binning_vector;
    [lia | lia | now left | reflexivity | reflexivity | reflexivity | reflexivity].
Defined.

Lemma binning_adjoint_pair_witness :
  0 < 2 /\ 0 <= 2 /\ (-1 = -1 \/ -1 = 0) /\
  value store_two_vectors vector_1234 = Some [1; 2; 3; 4] /\
  size vector_1234 = 2 * 2 /\
  value store_two_vectors vector_78 = Some [7; 8] /\
  size vector_78 = 2 /\
  exists op bx st1 ry st2 bxs rys,
    binning [2 * 2] 2 (-1) = Ok op /\
    apply op vector_1234 store_two_vectors = Ok (bx, st1) /\
    apply_adjoint op vector_78 st1 = Ok (ry, st2) /\
    value st2 bx = Some bxs /\
    value st2 ry = Some rys /\
    zlength bxs = zlength [7; 8] /\
    zlength rys = zlength [1; 2; 3; 4] /\
    dot bxs [7; 8] = dot [1; 2; 3; 4] rys.
Proof.
  refine (conj _ (conj _ (conj (or_introl eq_refl)
            (conj eq_refl (conj eq_refl (conj eq_refl (conj eq_refl _)))))));
    [lia | lia |].
  apply (@binning_adjoint_pair Z Scalar_Z 1 Z_semi_ring);
    [lia | lia | now left | reflexivity | reflexivity | reflexivity | reflexivity].
Defined.

Lemma diff_vector_witness :
  1 <= 4 /\ (-1 = -1 \/ -1 = 0) /\
  value store_squares vector_squares = Some [1; 4; 9; 16] /\
  size vector_squares = 4 /\
  value store_squares vector_357 = Some [3; 5; 7] /\
  size vector_357 = 4 - 1 /\
  exists op dx st1 ay st2,
    diff [4] (-1) = Ok op /\
    shape op = (4 - 1, 4) /\
    apply op vector_squares store_squares = Ok (dx, st1) /\
    arr_shape dx = [4 - 1] /\
    value st1 dx = Some (differences [1; 4; 9; 16]) /\
    apply_adjoint op vector_357 store_squares = Ok (ay, st2) /\
    arr_shape ay = [4] /\
    value st2 ay = Some (map neg (differences (zero :: [3; 5; 7] ++ [zero]))).
Proof.
  refine (conj _ (conj (or_introl eq_refl)
            (conj eq_refl (conj eq_refl (conj eq_refl (conj eq_refl _))))));
    [lia|].
  apply diff_vector;
    [lia | now left | reflexivity | reflexivity | reflexivity | reflexivity].
Defined.

Lemma diff_adjoint_pair_witness :
  1 <= 4 /\ (-1 = -1 \/ -1 = 0) /\
  value store_squares vector_squares = Some [1; 4; 9; 16] /\
  size vector_squares = 4 /\
  value store_squares vector_357 = Some [3; 5; 7] /\
  size vector_357 = 4 - 1 /\
  exists op dx st1 ay st2 dxs ays,
    diff [4] (-1) = Ok op /\
    apply op vector_squares store_squares = Ok (dx, st1) /\
    apply_adjoint op vector_357 st1 = Ok (ay, st2) /\
    value st2 dx = Some dxs /\
    value st2 ay = Some ays /\
    zlength dxs = zlength [3; 5; 7] /\
    zlength ays = zlength [1; 4; 9; 16] /\
    dot dxs [3; 5; 7] = dot [1; 4; 9; 16] ays.
Proof.
  refine (conj _ (conj (or_introl eq_refl)
            (conj eq_refl (conj eq_refl (conj eq_refl (conj eq_refl _))))));
    [lia|].
  apply (@diff_adjoint_pair Z Scalar_Z ScalarGroup_Z 1 Z_ring);
    [lia | now left | reflexivity | reflexivity | reflexivity | reflexivity].
Defined.

Lemma convolve_valid_apply_raises_witness :
  1 <= 2 < 4 /\
  arr_shape vector_78 = [2] /\ value store_two_vectors vector_78 = Some [7; 8] /\
  value store_two_vectors vector_1234 = Some [1; 2; 3; 4] /\
  size vector_1234 = 4 /\
  signal_convolve (External := External_valid) ([4], [1; 2; 3; 4]) ([2], [7; 8]) "valid"%string
    = Ok ([4 - 2 + 1], [22; 37; 52]) /\
  exists op,
    convolve (E := External_valid) [4] vector_78 "valid"%string = Ok op /\
    fst (shape op) = 4 - 2 - 1 /\
    apply op vector_1234 store_two_vectors = Raise ValueError.
Proof.
  refine (conj _ (conj eq_refl (conj eq_refl (conj eq_refl (conj eq_refl
            (conj eq_refl _)))))); [lia|].
  apply (convolve_valid_apply_raises (E := External_valid) 4 2 vector_78 vector_1234
           store_two_vectors [1; 2; 3; 4] [7; 8] [22; 37; 52]);
    [lia | reflexivity | reflexivity | reflexivity | reflexivity | reflexivity].
Defined.

Lemma fft2_round_trip_witness :
  length [1; 2] = 2%nat /\
  Forall (fun d => 0 <= d) [1; 2] /\
  value store_two_vectors vector_78 = Some [7; 8] /\
  size vector_78 = np_prod [1; 2] /\
  exists op y st1 z st2,
    fft2 (E := External_dft12) [1; 2] None (Some [-2; -1]) = Ok op /\
    apply op vector_78 store_two_vectors = Ok (y, st1) /\
    apply_adjoint op y st1 = Ok (z, st2) /\
    value st2 z = Some [7; 8] /\
    size z = size vector_78.
Proof.
  assert (Hsh : Forall (fun d => 0 <= d) [1; 2]) by (repeat constructor; lia).
  refine (conj eq_refl (conj Hsh (conj eq_refl (conj eq_refl _)))).
  apply (fft2_round_trip (E := External_dft12));
    [reflexivity | exact Hsh | | reflexivity | reflexivity].
  intros v Hv.
  destruct v as [|a [|b [|c v]]];
    try (exfalso; unfold zlength in Hv; cbn [length np_prod fold_right] in Hv; lia).
  exists [a + b; a - b]. split; [reflexivity|]. split; [reflexivity|].
  simpl.
  replace (a + b + (a - b)) with (a * 2) by lia.
  replace (a + b - (a - b)) with (b * 2) by lia.
  rewrite !Z.div_mul by lia. reflexivity.
Defined.

Lemma binning_apply_after_adjoint_witness :
  0 < 2 /\ 0 <= 2 /\ (-1 = -1 \/ -1 = 0) /\
  value store_two_vectors vector_78 = Some [7; 8] /\
  size vector_78 = 2 /\
  exists op ry st1 bx st2,
    binning [2 * 2] 2 (-1) = Ok op /\
    apply_adjoint op vector_78 store_two_vectors = Ok (ry, st1) /\
    apply op ry st1 = Ok (bx, st2) /\
    arr_shape bx = [2] /\
    value st2 bx =
      Some (map (fun v => fold_left plus (repeat v (Z.to_nat 2)) zero) [7; 8]).
Proof.
  refine (conj _ (conj _ (conj (or_introl eq_refl) (conj eq_refl (conj eq_refl _)))));
    [lia | lia |].
  apply binning_apply_after_adjoint;
    [lia | lia | now left | reflexivity | reflexivity].
Defined.

Lemma eigen_operator_vector_witness :
  arr_shape vector_78 = [zlength [7; 8]] /\
  value store_two_vectors vector_78 = Some [7; 8] /\
  Forall (fun vi => zlength vi = zlength [7; 8]) [[1; 1]; [1; -1]] /\
  [2; 3] <> [] /\ [[1; 1]; [1; -1]] <> [] /\
  exists y st',
    apply (eigen_operator (2, 2) [2; 3] [[1; 1]; [1; -1]]) vector_78 store_two_vectors
      = Ok (y, st') /\
    apply_adjoint (eigen_operator (2, 2) [2; 3] [[1; 1]; [1; -1]]) vector_78
                  store_two_vectors = Ok (y, st') /\
    arr_shape y = [zlength [7; 8]] /\
    value st' y = Some (sum_vectors (eigen_terms [7; 8] [2; 3] [[1; 1]; [1; -1]])) /\
    value st' vector_78 = Some [7; 8].
Proof.
  assert (Hall : Forall (fun vi => zlength vi = zlength [7; 8]) [[1; 1]; [1; -1]])
    by (repeat constructor).
  assert (He : [2; 3] <> @nil Z) by discriminate.
  assert (Hv : [[1; 1]; [1; -1]] <> @nil (list Z)) by discriminate.
  refine (conj eq_refl (conj eq_refl (conj Hall (conj He (conj Hv _))))).
  apply (eigen_operator_vector (2, 2) [2; 3] [[1; 1]; [1; -1]] vector_78
           store_two_vectors [7; 8]);
    [reflexivity | reflexivity | exact Hall | exact He | exact Hv].
Defined.

Lemma eigen_operator_wrong_length_witness :
  arr_shape vector_78 = [2] /\
  value store_two_vectors vector_78 = Some [7; 8] /\
  Exists (fun vi => zlength vi <> 2) [[1; 1; 0]] /\
  apply (eigen_operator (2, 2) [2] [[1; 1; 0]]) vector_78 store_two_vectors
    = Raise ValueError.
Proof.
  assert (Hex : Exists (fun vi : list Z => zlength vi <> 2) [[1; 1; 0]])
    by (constructor; vm_compute; discriminate).
  refine (conj eq_refl (conj eq_refl (conj Hex _))).
  apply (eigen_operator_wrong_length (2, 2) [2] [[1; 1; 0]] vector_78
           store_two_vectors [7; 8] 2); [reflexivity | reflexivity | exact Hex].
Defined.

Lemma eigen_operator_no_pair_witness :
  arr_shape vector_78 = [zlength [7; 8]] /\
  value store_two_vectors vector_78 = Some [7; 8] /\
  Forall (fun vi => zlength vi = zlength [7; 8]) [[1; 1]] /\
  (@nil Z = [] \/ [[1; 1]] = []) /\
  exists y st',
    apply (eigen_operator (2, 2) [] [[1; 1]]) vector_78 store_two_vectors
      = Ok (y, st') /\
    arr_shape y = [] /\
    value st' y = Some [zero].
Proof.
  assert (Hall : Forall (fun vi => zlength vi = zlength [7; 8]) [[1; 1]])
    by (repeat constructor).
  refine (conj eq_refl (conj eq_refl (conj Hall (conj (or_introl eq_refl) _)))).
  apply (eigen_operator_no_pair (2, 2) [] [[1; 1]] vector_78 store_two_vectors [7; 8]);
    [reflexivity | reflexivity | exact Hall | now left].
Defined.

Lemma eigen_operator_symmetric_witness :
  arr_shape vector_3_1 = [zlength [3; -1]] /\
  value store_pairs vector_3_1 = Some [3; -1] /\
  arr_shape vector_78 = [zlength [3; -1]] /\
  value store_pairs vector_78 = Some [7; 8] /\
  Forall (fun vi => zlength vi = zlength [3; -1]) [[1; 1]; [1; -1]] /\
  [2; 3] <> [] /\ [[1; 1]; [1; -1]] <> [] /\
  exists ax st1 ay st2 axs ays,
    apply (eigen_operator (2, 2) [2; 3] [[1; 1]; [1; -1]]) vector_3_1 store_pairs
      = Ok (ax, st1) /\
    apply (eigen_operator (2, 2) [2; 3] [[1; 1]; [1; -1]]) vector_78 st1
      = Ok (ay, st2) /\
    value st2 ax = Some axs /\
    value st2 ay = Some ays /\
    zlength axs = zlength [7; 8] /\
    zlength ays = zlength [3; -1] /\
    dot axs [7; 8] = dot [3; -1] ays.
Proof.
  assert (Hall : Forall (fun vi => zlength vi = zlength [3; -1]) [[1; 1]; [1; -1]])
    by (repeat constructor).
  assert (He : [2; 3] <> @nil Z) by discriminate.
  assert (Hv : [[1; 1]; [1; -1]] <> @nil (list Z)) by discriminate.
  refine (conj eq_refl (conj eq_refl (conj eq_refl (conj eq_refl
            (conj Hall (conj He (conj Hv _))))))).
  apply (@eigen_operator_symmetric Z Scalar_Z 1 Z_semi_ring (2, 2) [2; 3]
           [[1; 1]; [1; -1]] vector_3_1 vector_78 store_pairs [3; -1] [7; 8]);
    [reflexivity | reflexivity | reflexivity | reflexivity | exact Hall | exact He
    | exact Hv].
Defined.

Lemma axis_mul_matrix_witness :
  0 <= 2 /\ 0 <= 3 /\ (-1 = -1 \/ -1 = 1) /\
  arr_shape vector_10_100 = [2] /\
  value store_matrix vector_10_100 = Some [10; 100] /\
  value store_matrix matrix_123456 = Some [1; 2; 3; 4; 5; 6] /\
  size matrix_123456 = 2 * 3 /\
  exists y st',
    apply (axis_mul (Mem := Memory_minus_one) [2; 3] vector_10_100 (-1))
          matrix_123456 store_matrix = Ok (y, st') /\
    apply_adjoint (axis_mul (Mem := Memory_minus_one) [2; 3] vector_10_100 (-1))
                  matrix_123456 store_matrix = Ok (y, st') /\
    arr_shape y = [2 * 3] /\
    value st' y =
      Some (mapi (fun p a => times a (znth (p / 3) [10; 100] zero))
                 [1; 2; 3; 4; 5; 6]) /\
    value st' matrix_123456 = Some [1; 2; 3; 4; 5; 6].
Proof.
  assert (H2 : 0 <= 2) by lia.
  assert (H3 : 0 <= 3) by lia.
  refine (conj H2 (conj H3 (conj (or_introl eq_refl)
            (conj eq_refl (conj eq_refl (conj eq_refl (conj eq_refl _))))))).
  apply (@axis_mul_matrix Z Scalar_Z Memory_minus_one 2 3 (-1) vector_10_100
           matrix_123456 store_matrix [1; 2; 3; 4; 5; 6] [10; 100]);
    [exact H2 | exact H3 | now left | reflexivity | reflexivity | reflexivity
    | reflexivity].
Defined.

Lemma axis_mul_matrix_rows_witness :
  0 <= 2 /\ 0 <= 3 /\ (0 = -2 \/ 0 = 0) /\
  arr_shape vector_10_100_1000 = [3] /\
  value store_matrix vector_10_100_1000 = Some [10; 100; 1000] /\
  value store_matrix matrix_123456 = Some [1; 2; 3; 4; 5; 6] /\
  size matrix_123456 = 2 * 3 /\
  exists y st',
    apply (axis_mul (Mem := Memory_minus_one) [2; 3] vector_10_100_1000 0)
          matrix_123456 store_matrix = Ok (y, st') /\
    apply_adjoint (axis_mul (Mem := Memory_minus_one) [2; 3] vector_10_100_1000 0)
                  matrix_123456 store_matrix = Ok (y, st') /\
    arr_shape y = [2 * 3] /\
    value st' y =
      Some (mapi (fun p a => times a (znth (p mod 3) [10; 100; 1000] zero))
                 [1; 2; 3; 4; 5; 6]) /\
    value st' matrix_123456 = Some [1; 2; 3; 4; 5; 6].
Proof.
  assert (H2 : 0 <= 2) by lia.
  assert (H3 : 0 <= 3) by lia.
  refine (conj H2 (conj H3 (conj (or_intror eq_refl)
            (conj eq_refl (conj eq_refl (conj eq_refl (conj eq_refl _))))))).
  apply (@axis_mul_matrix_rows Z Scalar_Z Memory_minus_one 2 3 0 vector_10_100_1000
           matrix_123456 store_matrix [1; 2; 3; 4; 5; 6] [10; 100; 1000]);
    [exact H2 | exact H3 | now right | reflexivity | reflexivity | reflexivity
    | reflexivity].
Defined.


Lemma axis_mul_symmetric_witness :
  0 <= 2 /\ 0 <= 3 /\ (-1 = -1 \/ -1 = 1) /\
  arr_shape vector_10_100 = [2] /\
  value store_two_matrices vector_10_100 = Some [10; 100] /\
  value store_two_matrices matrix_123456 = Some [1; 2; 3; 4; 5; 6] /\
  size matrix_123456 = 2 * 3 /\
  value store_two_matrices matrix_010203 = Some [0; 1; 0; 2; 0; 3] /\
  size matrix_010203 = 2 * 3 /\
  exists ax st1 ay st2 axs ays,
    apply (axis_mul (Mem := Memory_minus_one) [2; 3] vector_10_100 (-1))
          matrix_123456 store_two_matrices = Ok (ax, st1) /\
    apply (axis_mul (Mem := Memory_minus_one) [2; 3] vector_10_100 (-1))
          matrix_010203 st1 = Ok (ay, st2) /\
    value st2 ax = Some axs /\
    value st2 ay = Some ays /\
    zlength axs = zlength [0; 1; 0; 2; 0; 3] /\
    zlength ays = zlength [1; 2; 3; 4; 5; 6] /\
    dot axs [0; 1; 0; 2; 0; 3] = dot [1; 2; 3; 4; 5; 6] ays.
Proof.
  assert (H2 : 0 <= 2) by lia.
  assert (H3 : 0 <= 3) by lia.
  refine (conj H2 (conj H3 (conj (or_introl eq_refl)
            (conj eq_refl (conj eq_refl (conj eq_refl (conj eq_refl
            (conj eq_refl (conj eq_refl _))))))))).
  apply (@axis_mul_symmetric Z Scalar_Z Memory_minus_one 1 Z_semi_ring 2 3 (-1)
           vector_10_100 matrix_123456 matrix_010203 store_two_matrices
           [1; 2; 3; 4; 5; 6] [0; 1; 0; 2; 0; 3] [10; 100]);
    [exact H2 | exact H3 | now left | reflexivity | reflexivity | reflexivity
    | reflexivity | reflexivity | reflexivity].
Defined.
